(** * TimerGPT: the timer state engine, its tool facade and the duration parser

    A shallow embedding of
      - src/types.ts                 (Timer, TimerStatus, TimerUpdateResult),
      - src/state/timerStore.ts      (class TimerStore),
      - src/tools/timerTool.ts       (class TimerToolset),
      - src/server.ts                (parseDurationSeconds, the schema of
                                      the duration, the formatters),
      - src/timers.ts                (class TimerManager),
      - src/ui/builders.ts           (the payloads of the surfaces),
      - src/index.ts                 (the handlers of the tools),
    followed by the properties of the specification that concern them, and
    by further properties of the code.

    Conventions of the embedding.
      - A JavaScript [number] that holds a count of milliseconds or seconds is
        an integer of [Z]; a [Date] is its epoch time in milliseconds.
      - A timestamp in a timer is an ISO-8601 string that [formatISO]
        wrote; it is represented by the instant it denotes, which is a
        whole second.  This stands for the text of dates from 1970 to the
        year 9999 ([Dates.in_range]); [formatISO] and [toISOString] throw a
        RangeError for a time value beyond 8.64e15 ms ([Dates.isValid]),
        which the embedding has no result for.  The clock is in range;
        the end of a timer, which is computed from a duration, need not
        be.  The properties of what a start returns and of the remaining
        time that is reported take the dates to be in range, or valid, in
        so many words.
      - [new Date()] and [uuid()] read the environment: every function that
        calls them takes the value read as an argument ([now], [uuid]).
      - A [throw] is the [Throw] result; a method of a class is a function
        from the object's state to the new state and the result.
      - The [Map] of the store is the list of its values in insertion
        order.
      - The persistence callback is the outcome of the save it starts; a
        save has settled when the next method of the store runs, as it has
        for the tool facade, which awaits [waitForPersistence] after every
        mutation.  Two mutations of a store within one turn of the event
        loop are not covered.
      - The numbers of the duration parser are rationals.  They are the
        doubles of the source for whole amounts and for a numeral of at
        most 15 significant digits whose product with the multiplier is
        not within a double's precision of a half: "1.025m" is 61.5 s here
        and 61.49999999999999 s as a double, rounded to 62 and to 61.  The
        properties below are about whole amounts and about "0.4".
      - The human-readable [message] of a TimerUpdateResult is presentation
        only and is left out of the results. *)

From Stdlib Require Import ZArith QArith Qround List String Ascii Bool Lia.
From Stdlib Require Import DecimalString Permutation Sorted.
From Stdlib Require DecimalNat.
Import ListNotations.
Close Scope Q_scope.
Open Scope Z_scope.

(* ------------------------------------------------------------------ *)
(** ** date-fns *)

Module Dates.

(** An ISO-8601 string is represented by the instant it denotes, in
    milliseconds; [new Date(iso)] then reads it back unchanged. *)
Definition ISO := Z.

(** A [Date] holds a time value of at most 8.64e15 ms either way; beyond
    that it is an Invalid Date, which [formatISO] and [toISOString] refuse
    with a RangeError. *)
Definition isValid (date : Z) : bool :=
  (-8640000000000000 <=? date) && (date <=? 8640000000000000).

(** The dates from 1970 to the beginning of the last day of the year 9999.
    Whatever the time zone, [formatISO] writes such a date with a year of
    four digits, and [new Date] reads the text back.  A date after the year
    9999 is written with a year of more digits, which [new Date] does not
    read. *)
Definition in_range (date : Z) : bool :=
  (0 <=? date) && (date <=? 253402214400000).

(** [formatISO(date)] renders [yyyy-MM-dd'T'HH:mm:ssxxx]: hours, minutes,
    seconds and the zone offset, without the fraction of the second.  The
    instant the string denotes is the date cut down to the whole second.
    This is what [formatISO] does for a date that is [in_range]; it throws
    for a date that is not [isValid].  The clock is always in range; the
    end of a timer, which is computed from a duration, need not be. *)
Definition formatISO (date : Z) : ISO := 1000 * (date / 1000).

Definition addMilliseconds (date amount : Z) : Z := date + amount.

Definition differenceInMilliseconds (later earlier : Z) : Z := later - earlier.

End Dates.
Import Dates.

(* ------------------------------------------------------------------ *)
(** ** src/types.ts *)

Inductive TimerStatus : Set :=
  scheduled | running | paused | completed | cancelled.

Inductive Category : Set := focus | break | custom.

Record Repeat : Set := { intervalMs : Z; occurrences : option Z }.

Record Timer : Set := mkTimer {
  id : string;
  label : string;
  durationMs : Z;
  remainingMs : Z;
  status : TimerStatus;
  startedAt : option ISO;
  endsAt : option ISO;
  repeat : option Repeat;
  category : option Category
}.

(** [{ ...timer, status, remainingMs, startedAt, endsAt }]: the object spread
    of the store's updates, which only ever replace these four fields. *)
Definition spread (timer : Timer) (st : TimerStatus) (rem : Z)
    (sa ea : option ISO) : Timer :=
  {| id := id timer; label := label timer; durationMs := durationMs timer;
     remainingMs := rem; status := st; startedAt := sa; endsAt := ea;
     repeat := repeat timer; category := category timer |}.

(** The errors the engine raises ([new Error(message)] in the source). *)
Inductive Error : Set :=
| CapacityExceeded (limit : Z)   (* "You already have N active timers. ..." *)
| NotFound                       (* "Timer not found." *)
| OnlyRunningPaused              (* "Only running timers can be paused." *)
| OnlyPausedResumed              (* "Only paused timers can be resumed." *)
| OnlyActiveExtended             (* "Only active timers can be extended." *)
| ValidationError                (* a ZodError of a schema's [parse] *)
| PersistenceFailure (cause : string).

Inductive result (A : Type) : Type :=
| Ok (a : A)
| Throw (e : Error).
Arguments Ok {A} a.
Arguments Throw {A} e.

(* ------------------------------------------------------------------ *)
(** ** src/state/timerStore.ts *)

Module TimerStore.

(** The state of a [TimerStore] object.

    [timers] is the [Map<string, Timer>] in insertion order; the key of an
    entry is the [id] of its timer (every write is [set(t.id, t)]).

    [onChange] is the persistence callback: the outcome its promise settles
    with for the snapshot it is given, [None] when the save is fulfilled
    and [Some cause] when it is rejected.  [pendingPersist] is the settled
    state of the promise of the latest save.  The model lets a save settle
    before the next method of the store is entered, which is how the tool
    facade drives it (it awaits [waitForPersistence] after every
    mutation).  A caller of the store that mutates twice within one turn
    of the event loop is not covered: there the rejection handler of the
    first save runs after the second [emitChange] has reset the error
    slot, and the error of the first save stays in the slot. *)
Record t : Type := mkStore {
  timers : list Timer;
  maxConcurrent : Z;
  onChange : option (list Timer -> option string);
  pendingPersist : option string;
  lastPersistError : option string
}.

Definition DEFAULT_MAX_CONCURRENT : Z := 5.

(** A method: state in, state and result (or exception) out. *)
Definition M (A : Type) : Type := t -> t * result A.

Definition ret {A} (a : A) : M A := fun s => (s, Ok a).
Definition throw {A} (e : Error) : M A := fun s => (s, Throw e).
Definition bind {A B} (m : M A) (k : A -> M B) : M B :=
  fun s => match m s with
           | (s', Ok a) => k a s'
           | (s', Throw e) => (s', Throw e)
           end.

(** *** The Map *)

(** [this.timers.get(id)] *)
Fixpoint map_get (key : string) (m : list Timer) : option Timer :=
  match m with
  | [] => None
  | x :: rest => if String.eqb (id x) key then Some x else map_get key rest
  end.

(** [this.timers.set(timer.id, timer)]: an existing key keeps its place, a
    new key goes last. *)
Fixpoint map_set (timer : Timer) (m : list Timer) : list Timer :=
  match m with
  | [] => [timer]
  | x :: rest =>
      if String.eqb (id x) (id timer) then timer :: rest
      else x :: map_set timer rest
  end.

Definition with_timers (s : t) (m : list Timer) : t :=
  {| timers := m; maxConcurrent := maxConcurrent s; onChange := onChange s;
     pendingPersist := pendingPersist s;
     lastPersistError := lastPersistError s |}.

(** *** Queries *)

(** [(a.startedAt ?? "").localeCompare(b.startedAt ?? "") <= 0]: the empty
    string collates first, and two timestamps that were written under
    one zone offset collate as their instants.  [formatISO] writes the
    local time followed by the offset, so that two timestamps written
    under different offsets (before and after a change of daylight-saving
    time, or of the zone of the process) collate as their local times,
    which need not be the order of their instants.  The comparison is that
    of a process whose offset stays the same; nothing is stated below of
    the order in which timers of different [startedAt] are listed. *)
Definition startedAt_le (a b : Timer) : bool :=
  match startedAt a, startedAt b with
  | None, _ => true
  | Some _, None => false
  | Some x, Some y => x <=? y
  end.

Fixpoint sort_insert (a : Timer) (l : list Timer) : list Timer :=
  match l with
  | [] => [a]
  | x :: rest =>
      if startedAt_le a x then a :: x :: rest else x :: sort_insert a rest
  end.

(** [Array.prototype.sort] is stable. *)
Definition sort_by_startedAt (l : list Timer) : list Timer :=
  fold_right sort_insert [] l.

Definition getAll (s : t) : list Timer := sort_by_startedAt (timers s).

Definition is_active (timer : Timer) : bool :=
  match status timer with
  | running | paused | scheduled => true
  | completed | cancelled => false
  end.

Definition getActive (s : t) : list Timer := filter is_active (getAll s).

Definition findById (key : string) (s : t) : option Timer :=
  map_get key (timers s).

(** *** Persistence *)

(** [emitChange]: without a callback nothing happens; with one, the error
    slot is reset, the callback is called on the sorted snapshot, and the
    rejection handler stores the cause in the error slot again.  The
    handler has run when [emitChange] is left: the save settles before the
    next method is entered. *)
Definition emitChange (s : t) : t :=
  match onChange s with
  | None => s
  | Some save =>
      let outcome := save (getAll s) in
      {| timers := timers s; maxConcurrent := maxConcurrent s;
         onChange := onChange s;
         pendingPersist := outcome;
         lastPersistError := outcome |}
  end.

Definition with_lastPersistError (s : t) (e : option string) : t :=
  {| timers := timers s; maxConcurrent := maxConcurrent s;
     onChange := onChange s; pendingPersist := pendingPersist s;
     lastPersistError := e |}.

(** [waitForPersistence]: awaits the latest save; a rejection is caught and
    put in the error slot when the slot is empty; then a filled slot is
    emptied and its error thrown. *)
Definition waitForPersistence : M unit := fun s =>
  let s1 :=
    match pendingPersist s with
    | Some cause =>
        match lastPersistError s with
        | None => with_lastPersistError s (Some cause)
        | Some _ => s
        end
    | None => s
    end in
  match lastPersistError s1 with
  | Some cause => (with_lastPersistError s1 None, Throw (PersistenceFailure cause))
  | None => (s1, Ok tt)
  end.

(** *** Helpers *)

(** [computeRemaining(timer, now)] *)
Definition computeRemaining (timer : Timer) (now : Z) : Z :=
  match endsAt timer with
  | None => remainingMs timer
  | Some e => Z.max (differenceInMilliseconds e now) 0
  end.

(** [requireTimer(id)] *)
Definition requireTimer (key : string) : M Timer := fun s =>
  match map_get key (timers s) with
  | None => (s, Throw NotFound)
  | Some timer => (s, Ok timer)
  end.

Definition string_of_nat (n : nat) : string :=
  NilEmpty.string_of_uint (Nat.to_uint n).

(** The [while] loop of [suggestLabel]; it stops at the latest after as
    many rounds as there are labels, which is the fuel. *)
Fixpoint suggestLabel_loop (fuel : nat) (occupied : list string)
    (counter : nat) : string :=
  let candidate := ("Timer " ++ string_of_nat counter)%string in
  match fuel with
  | O => candidate
  | S fuel' =>
      if existsb (String.eqb candidate) occupied
      then suggestLabel_loop fuel' occupied (S counter)
      else candidate
  end.

Definition suggestLabel (s : t) : string :=
  let occupied := map label (timers s) in
  suggestLabel_loop (List.length occupied) occupied 1.

(** *** Operations *)

Record StartInput : Set := {
  in_label : option string;
  in_durationMs : Z;
  in_category : option Category;
  in_repeat : option Repeat
}.

(** The object literal of [start]. *)
Definition started (now : Z) (uuid : string) (input : StartInput)
    (fallback : string) : Timer :=
  {| id := uuid;
     label := match in_label input with
              | Some l => l
              | None => fallback
              end;
     durationMs := in_durationMs input;
     remainingMs := in_durationMs input;
     status := running;
     startedAt := Some (formatISO now);
     endsAt := Some (formatISO (addMilliseconds now (in_durationMs input)));
     repeat := in_repeat input;
     category := Some (match in_category input with
                       | Some c => c
                       | None => custom
                       end) |}.

Definition start (now : Z) (uuid : string) (input : StartInput) : M Timer :=
  fun s =>
  if Z.of_nat (List.length (getActive s)) >=? maxConcurrent s then
    (s, Throw (CapacityExceeded (maxConcurrent s)))
  else
    let timer := started now uuid input (suggestLabel s) in
    (emitChange (with_timers s (map_set timer (timers s))), Ok timer).

(** The [updated] timer of [pause]; the clock is read inside
    [computeRemaining]. *)
Definition paused_at (now : Z) (timer : Timer) : Timer :=
  spread timer paused (computeRemaining timer now) (startedAt timer) None.

Definition pause (now : Z) (key : string) : M Timer :=
  bind (requireTimer key) (fun timer s =>
    match status timer with
    | running =>
        let updated := paused_at now timer in
        (emitChange (with_timers s (map_set updated (timers s))), Ok updated)
    | _ => (s, Throw OnlyRunningPaused)
    end).

(** The [updated] timer of [resume]. *)
Definition resumed_at (now : Z) (timer : Timer) : Timer :=
  spread timer running (remainingMs timer)
    (match startedAt timer with
     | Some sa => Some sa
     | None => Some (formatISO now)
     end)
    (Some (formatISO (addMilliseconds now (remainingMs timer)))).

Definition resume (now : Z) (key : string) : M Timer :=
  bind (requireTimer key) (fun timer s =>
    match status timer with
    | paused =>
        let updated := resumed_at now timer in
        (emitChange (with_timers s (map_set updated (timers s))), Ok updated)
    | _ => (s, Throw OnlyPausedResumed)
    end).

(** The [updated] timer of [cancel]. *)
Definition cancelled_of (timer : Timer) : Timer :=
  spread timer cancelled 0 (startedAt timer) None.

Definition cancel (key : string) : M Timer :=
  bind (requireTimer key) (fun timer s =>
    let updated := cancelled_of timer in
    (emitChange (with_timers s (map_set updated (timers s))), Ok updated)).

(** The test of the loop of [completeExpiringTimers]. *)
Definition expired (now : Z) (timer : Timer) : bool :=
  match status timer, endsAt timer with
  | running, Some e => e <=? now
  | _, _ => false
  end.

(** The [finished] timer of the loop. *)
Definition finish (now : Z) (timer : Timer) : Timer :=
  spread timer completed 0 (startedAt timer) (Some (formatISO now)).

(** One round of the loop: the map and the [completed] array so far. *)
Definition complete_step (now : Z) (acc : list Timer * list Timer)
    (timer : Timer) : list Timer * list Timer :=
  if expired now timer then
    (map_set (finish now timer) (fst acc), snd acc ++ [finish now timer])
  else acc.

(** [completeExpiringTimers(now)].  The loop runs over the values of the
    map; a [set] inside it overwrites the entry being visited. *)
Definition completeExpiringTimers (now : Z) : M (list Timer) := fun s =>
  let '(m, done) := fold_left (complete_step now) (timers s) (timers s, []) in
  match done with
  | [] => (with_timers s m, Ok done)
  | _ :: _ => (emitChange (with_timers s m), Ok done)
  end.

(** The remaining time [extend] starts from: live for a running timer,
    cached for a paused one. *)
Definition current_remaining (now : Z) (timer : Timer) : Z :=
  match status timer with
  | running => computeRemaining timer now
  | _ => remainingMs timer
  end.

(** The [updated] timer of [extend]. *)
Definition extended_by (now extraMs : Z) (timer : Timer) : Timer :=
  let newRemaining := Z.max (current_remaining now timer + extraMs) 0 in
  if newRemaining =? 0 then
    spread timer completed 0 (startedAt timer) (Some (formatISO now))
  else
    match status timer with
    | running =>
        spread timer (status timer) newRemaining (startedAt timer)
          (Some (formatISO (addMilliseconds now newRemaining)))
    | _ =>
        spread timer (status timer) newRemaining (startedAt timer)
          (endsAt timer)
    end.

Definition extend (now : Z) (key : string) (extraMs : Z) : M Timer :=
  bind (requireTimer key) (fun timer s =>
    match status timer with
    | running | paused =>
        let updated := extended_by now extraMs timer in
        (emitChange (with_timers s (map_set updated (timers s))), Ok updated)
    | _ => (s, Throw OnlyActiveExtended)
    end).

(** [normalizeTimer(timer, now)], applied to the timers a store is
    constructed with. *)
Definition normalizeTimer (timer : Timer) (now : Z) : Timer :=
  match status timer, endsAt timer with
  | running, Some _ =>
      let remaining := computeRemaining timer now in
      if remaining <=? 0 then
        spread timer completed 0 (startedAt timer) (Some (formatISO now))
      else
        spread timer running remaining (startedAt timer) (endsAt timer)
  | paused, _ =>
      spread timer (status timer) (remainingMs timer) (startedAt timer) None
  | _, _ => timer
  end.

Record Options : Type := {
  opt_maxConcurrent : option Z;
  opt_initialTimers : option (list Timer);
  opt_onChange : option (list Timer -> option string)
}.

(** [new TimerStore(options)] *)
Definition new (now : Z) (options : Options) : t :=
  {| timers :=
       match opt_initialTimers options with
       | Some initial =>
           fold_left (fun m timer => map_set (normalizeTimer timer now) m)
             initial []
       | None => []
       end;
     maxConcurrent :=
       match opt_maxConcurrent options with
       | Some n => n
       | None => DEFAULT_MAX_CONCURRENT
       end;
     onChange := opt_onChange options;
     pendingPersist := None;
     lastPersistError := None |}.

Definition default_options : Options :=
  {| opt_maxConcurrent := None; opt_initialTimers := None;
     opt_onChange := None |}.

End TimerStore.

(* ------------------------------------------------------------------ *)
(** ** Histories of a store *)

Module History.
Import TimerStore.

(** One call of a mutating method of the store, with what it reads from
    the environment. *)
Inductive Op : Type :=
| OpStart (now : Z) (uuid : string) (input : StartInput)
| OpPause (now : Z) (key : string)
| OpResume (now : Z) (key : string)
| OpCancel (key : string)
| OpExtend (now : Z) (key : string) (extraMs : Z)
| OpTick (now : Z).

(** The store after the call; a call that throws leaves it as it was. *)
Definition step (s : t) (o : Op) : t :=
  match o with
  | OpStart now uuid input => fst (start now uuid input s)
  | OpPause now key => fst (pause now key s)
  | OpResume now key => fst (resume now key s)
  | OpCancel key => fst (cancel key s)
  | OpExtend now key extraMs => fst (extend now key extraMs s)
  | OpTick now => fst (completeExpiringTimers now s)
  end.

Definition run (ops : list Op) (s : t) : t := fold_left step ops s.

(** The clock value a call reads, if it reads the clock. *)
Definition op_time (o : Op) : option Z :=
  match o with
  | OpStart now _ _ | OpPause now _ | OpResume now _
  | OpExtend now _ _ | OpTick now => Some now
  | OpCancel _ => None
  end.

(** The clock never runs backwards: every reading is at least [from] and
    the readings do not decrease along the history. *)
Fixpoint chronological (from : Z) (ops : list Op) : Prop :=
  match ops with
  | [] => True
  | o :: rest =>
      match op_time o with
      | Some now => from <= now /\ chronological now rest
      | None => chronological from rest
      end
  end.

(** The last clock reading of a history that began at [from]. *)
Definition last_time (from : Z) (ops : list Op) : Z :=
  fold_left (fun c o => match op_time o with Some now => now | None => c end)
    ops from.

(** Every timer is started with a positive duration, as the facade's
    schema demands ("Timers must be at least 1 second long."). *)
Definition positive_start (o : Op) : Prop :=
  match o with
  | OpStart _ _ input => 0 < in_durationMs input
  | _ => True
  end.

End History.

(* ------------------------------------------------------------------ *)
(** ** src/tools/timerTool.ts *)

Module TimerToolset.
Import TimerStore.

Record TimerUpdateResult : Set := {
  timer : Timer;
  completed_of : list Timer
}.

(** [decorateTimer(timer)]; [now] is the [new Date()] it reads. *)
Definition decorateTimer (now : Z) (timer : Timer) : Timer :=
  match status timer, endsAt timer with
  | running, Some e =>
      spread timer (status timer)
        (Z.max (differenceInMilliseconds e now) 0)
        (startedAt timer) (endsAt timer)
  | _, _ => timer
  end.

(** [getSnapshot()] *)
Definition getSnapshot (now : Z) (s : t) : list Timer :=
  map (decorateTimer now) (getAll s).

(** [mergeCompleted(completed, candidate)] *)
Definition mergeCompleted (done : list Timer) (candidate : Timer)
    : list Timer :=
  match status candidate with
  | completed =>
      if existsb (fun x => String.eqb (id x) (id candidate)) done
      then done else done ++ [candidate]
  | _ => done
  end.

(** [handleTick(now)]; [tDec] is the clock the decoration reads. *)
Definition handleTick (now tDec : Z) : M (list Timer) :=
  bind (completeExpiringTimers now) (fun done =>
    match done with
    | [] => ret (map (decorateTimer tDec) done)
    | _ :: _ =>
        bind waitForPersistence (fun _ => ret (map (decorateTimer tDec) done))
    end).

(** [listTimers()] *)
Definition listTimers (tTick tDec : Z) : M (list Timer * list Timer) :=
  bind (handleTick tTick tDec) (fun done s =>
    (s, Ok (getSnapshot tDec s, done))).

(** *** The schemas *)

Record DurationInput : Set := {
  minutes : option Z;
  seconds : option Z
}.

(** [durationSchema]: both fields default to 0, [minutes >= 0],
    [0 <= seconds <= 59], and one of them is positive. *)
Definition durationSchema (d : DurationInput) : option (Z * Z) :=
  let m := match minutes d with Some m => m | None => 0 end in
  let sec := match seconds d with Some x => x | None => 0 end in
  if (0 <=? m) && (0 <=? sec) && (sec <=? 59) && ((0 <? m) || (0 <? sec))
  then Some (m, sec) else None.

(** [toDurationMs(duration)] *)
Definition toDurationMs (d : Z * Z) : Z := fst d * 60000 + snd d * 1000.

Record RepeatInput : Set := {
  intervalMinutes : Z;
  rep_occurrences : option Z
}.

Definition repeatSchema (r : RepeatInput) : bool :=
  (1 <=? intervalMinutes r) &&
  match rep_occurrences r with
  | Some n => (1 <=? n) && (n <=? 12)
  | None => true
  end.

Record StartTimerArgs : Set := {
  arg_label : option string;
  arg_category : option Category;
  arg_duration : DurationInput;
  arg_repeat : option RepeatInput
}.

Definition labelSchema (l : option string) : bool :=
  match l with
  | Some x => (1 <=? String.length x)%nat && (String.length x <=? 48)%nat
  | None => true
  end.

(** [startTimerInput.parse(input)] followed by the conversion of the
    parsed input into the argument of [store.start]. *)
Definition startTimerInput (a : StartTimerArgs) : result StartInput :=
  match durationSchema (arg_duration a) with
  | None => Throw ValidationError
  | Some d =>
      if labelSchema (arg_label a) &&
         match arg_repeat a with Some r => repeatSchema r | None => true end
      then Ok {| in_label := arg_label a;
                 in_durationMs := toDurationMs d;
                 in_category := arg_category a;
                 in_repeat :=
                   match arg_repeat a with
                   | Some r =>
                       Some {| intervalMs := intervalMinutes r * 60000;
                               occurrences := rep_occurrences r |}
                   | None => None
                   end |}
      else Throw ValidationError
  end.

Record AdjustArgs : Set := {
  adj_id : string;
  adj_minutes : option Z;
  adj_seconds : option Z
}.

Section Facade.

(** [z.string().uuid()], the format check of the validation library. *)
Variable uuid_schema : string -> bool.

(** [adjustTimerInput.parse(input)] followed by the computation of
    [extraMs]. *)
Definition adjustTimerInput (a : AdjustArgs) : result (string * Z) :=
  let m := match adj_minutes a with Some m => m | None => 0 end in
  let sec := match adj_seconds a with Some x => x | None => 0 end in
  if uuid_schema (adj_id a) &&
     (-120 <=? m) && (m <=? 120) && (-59 <=? sec) && (sec <=? 59) &&
     (negb (m =? 0) || negb (sec =? 0))
  then Ok (adj_id a, m * 60000 + sec * 1000)
  else Throw ValidationError.

Definition lift {A} (r : result A) : M A := fun s => (s, r).

(** The methods read the clock three times: in [handleTick], in the
    method of the store, and in [decorateTimer].  The decoration inside
    [handleTick] is of completed timers, which do not depend on the clock;
    it is given the reading of the tick. *)

Definition startTimer (tTick tOp tDec : Z) (uuid : string)
    (input : StartTimerArgs) : M TimerUpdateResult :=
  bind (handleTick tTick tTick) (fun done =>
  bind (lift (startTimerInput input)) (fun parsed =>
  bind (start tOp uuid parsed) (fun res =>
  let decorated := decorateTimer tDec res in
  bind waitForPersistence (fun _ =>
  ret {| timer := decorated;
         completed_of := mergeCompleted done decorated |})))).

Definition pauseTimer (tTick tOp tDec : Z) (key : string)
    : M TimerUpdateResult :=
  bind (handleTick tTick tTick) (fun done =>
  bind (pause tOp key) (fun res =>
  let decorated := decorateTimer tDec res in
  bind waitForPersistence (fun _ =>
  ret {| timer := decorated; completed_of := done |}))).

Definition resumeTimer (tTick tOp tDec : Z) (key : string)
    : M TimerUpdateResult :=
  bind (handleTick tTick tTick) (fun done =>
  bind (resume tOp key) (fun res =>
  let decorated := decorateTimer tDec res in
  bind waitForPersistence (fun _ =>
  ret {| timer := decorated; completed_of := done |}))).

Definition cancelTimer (tTick tDec : Z) (key : string)
    : M TimerUpdateResult :=
  bind (handleTick tTick tTick) (fun done =>
  bind (cancel key) (fun res =>
  let decorated := decorateTimer tDec res in
  bind waitForPersistence (fun _ =>
  ret {| timer := decorated; completed_of := done |}))).

Definition extendTimer (tTick tOp tDec : Z) (input : AdjustArgs)
    : M TimerUpdateResult :=
  bind (handleTick tTick tTick) (fun done =>
  bind (lift (adjustTimerInput input)) (fun parsed =>
  bind (extend tOp (fst parsed) (snd parsed)) (fun res =>
  let decorated := decorateTimer tDec res in
  bind waitForPersistence (fun _ =>
  ret {| timer := decorated;
         completed_of := mergeCompleted done decorated |})))).

End Facade.

End TimerToolset.

(* ------------------------------------------------------------------ *)
(** ** src/server.ts: parseDurationSeconds *)

Module Duration.

(** A string is its sequence of UTF-16 code units; the model covers the
    code units below 256. *)
Definition text := list ascii.

Definition code (c : ascii) : N := N_of_ascii c.

(** [\d] *)
Definition is_digit (c : ascii) : bool :=
  ((48 <=? code c) && (code c <=? 57))%N.

(** [\s], and the characters [trim] removes. *)
Definition is_space (c : ascii) : bool :=
  ((9 <=? code c) && (code c <=? 13) || (code c =? 32) || (code c =? 160))%N.

(** [\w] *)
Definition is_word (c : ascii) : bool :=
  (is_digit c
   || ((65 <=? code c) && (code c <=? 90))
   || ((97 <=? code c) && (code c <=? 122))
   || (code c =? 95))%N.

Definition lower (c : ascii) : ascii :=
  if (((65 <=? code c) && (code c <=? 90))
      || ((192 <=? code c) && (code c <=? 222) && negb (code c =? 215)))%N
  then ascii_of_N (code c + 32) else c.

Fixpoint drop_while (p : ascii -> bool) (l : text) : text :=
  match l with
  | [] => []
  | c :: rest => if p c then drop_while p rest else l
  end.

(** [s.trim()] *)
Definition trim (l : text) : text :=
  rev (drop_while is_space (rev (drop_while is_space l))).

(** [s.toLowerCase()] *)
Definition toLowerCase (l : text) : text := map lower l.

(** The longest prefix of characters of a class, and what follows it. *)
Fixpoint span (p : ascii -> bool) (l : text) : text * text :=
  match l with
  | [] => ([], [])
  | c :: rest =>
      if p c then let '(a, b) := span p rest in (c :: a, b) else ([], l)
  end.

Fixpoint strip_prefix (p l : text) : option text :=
  match p, l with
  | [], _ => Some l
  | _ :: _, [] => None
  | a :: p', b :: l' => if Ascii.eqb a b then strip_prefix p' l' else None
  end.

Definition digit_value (c : ascii) : Z := Z.of_N (code c) - 48.

(** The value of a run of decimal digits. *)
Definition digits_value (ds : text) : Z :=
  fold_left (fun acc c => 10 * acc + digit_value c)%Z ds 0%Z.

(** *** [/^(\d{1,2}):([0-5]?\d)$/] *)

Definition is_0to5 (c : ascii) : bool :=
  ((48 <=? code c) && (code c <=? 53))%N.

(** [([0-5]?\d)$] *)
Definition match_ss (l : text) : option text :=
  match l with
  | [a; b] => if is_0to5 a && is_digit b then Some [a; b] else None
  | [b] => if is_digit b then Some [b] else None
  | _ => None
  end.

Definition colon : ascii := ":"%char.

Definition match_mmss (l : text) : option (text * text) :=
  let two :=
    match l with
    | d1 :: d2 :: c :: rest =>
        if is_digit d1 && is_digit d2 && Ascii.eqb c colon then
          match match_ss rest with
          | Some ss => Some ([d1; d2], ss)
          | None => None
          end
        else None
    | _ => None
    end in
  match two with
  | Some r => Some r
  | None =>
      match l with
      | d1 :: c :: rest =>
          if is_digit d1 && Ascii.eqb c colon then
            match match_ss rest with
            | Some ss => Some ([d1], ss)
            | None => None
            end
          else None
      | _ => None
      end
  end.

(** *** The unit pattern
    [/(\d+(?:\.\d+)?)\s*(hours?|hrs?|hr|h|minutes?|mins?|min|m|seconds?|secs?|sec|s)\b/g] *)

(** The alternatives of the second group, in the order of the pattern; the
    flag says that the alternative ends in [s?]. *)
Definition unit_alternatives : list (string * bool) :=
  [ ("hour", true); ("hr", true); ("hr", false); ("h", false);
    ("minute", true); ("min", true); ("min", false); ("m", false);
    ("second", true); ("sec", true); ("sec", false); ("s", false) ]%string.

(** [\b] after a letter: the end of the input or a character outside
    [\w]. *)
Definition at_boundary (rest : text) : bool :=
  match rest with
  | [] => true
  | c :: _ => negb (is_word c)
  end.

(** One alternative followed by [\b]: the text it matched and the rest. *)
Definition match_alternative (alt : string * bool) (l : text)
    : option (text * text) :=
  let word := list_ascii_of_string (fst alt) in
  match strip_prefix word l with
  | None => None
  | Some rest =>
      let plain := if at_boundary rest then Some (word, rest) else None in
      if snd alt then
        match rest with
        | c :: rest' =>
            if Ascii.eqb c "s"%char && at_boundary rest'
            then Some (word ++ ["s"%char], rest')
            else plain
        | [] => plain
        end
      else plain
  end.

Fixpoint match_unit (alts : list (string * bool)) (l : text)
    : option (text * text) :=
  match alts with
  | [] => None
  | alt :: more =>
      match match_alternative alt l with
      | Some r => Some r
      | None => match_unit more l
      end
  end.

(** A match of the pattern: the digits before and after the point of the
    first group, the text of the second group, and the number of
    characters matched. *)
Record UnitMatch : Set := {
  whole : text;
  fraction : text;
  unit_text : text;
  matched : nat
}.

(** A match that starts at the head of [l].  A shorter run of digits or
    of spaces than the longest leaves a digit or a space where the unit
    has to start, so only the longest runs can lead to a match. *)
Definition match_here (l : text) : option UnitMatch :=
  let '(ds, r1) := span is_digit l in
  match ds with
  | [] => None
  | _ :: _ =>
      let '(fs, r2) :=
        match r1 with
        | c :: r =>
            if Ascii.eqb c "."%char then
              match span is_digit r with
              | ([], _) => ([], r1)
              | (fs, r') => (fs, r')
              end
            else ([], r1)
        | [] => ([], r1)
        end in
      let '(ws, r3) := span is_space r2 in
      match match_unit unit_alternatives r3 with
      | None => None
      | Some (u, rest) =>
          Some {| whole := ds; fraction := fs; unit_text := u;
                  matched := (List.length l - List.length rest)%nat |}
      end
  end.

(** The loop of [exec]: the matches from left to right.  [skip] counts the
    characters of the last match that are still to be passed over
    ([lastIndex]). *)
Fixpoint exec_all (skip : nat) (l : text) : list UnitMatch :=
  match l with
  | [] => []
  | _ :: rest =>
      match skip with
      | S k => exec_all k rest
      | O =>
          match match_here l with
          | Some m => m :: exec_all (matched m - 1) rest
          | None => exec_all 0 rest
          end
      end
  end.

(** [normalized.replace(cleanupPattern, " ")] *)
Fixpoint replace_units (skip : nat) (l : text) : text :=
  match l with
  | [] => []
  | c :: rest =>
      match skip with
      | S k => replace_units k rest
      | O =>
          match match_here l with
          | Some m => " "%char :: replace_units (matched m - 1) rest
          | None => c :: replace_units 0 rest
          end
      end
  end.

(** [.replace(/\band\b/g, " ")]; [prev] is the character before [l]. *)
Fixpoint replace_and (skip : nat) (prev : option ascii) (l : text) : text :=
  match l with
  | [] => []
  | c :: rest =>
      match skip with
      | S k => replace_and k (Some c) rest
      | O =>
          let starts :=
            match prev with
            | None => true
            | Some p => negb (is_word p)
            end in
          match strip_prefix (list_ascii_of_string "and") l with
          | Some after =>
              if starts && at_boundary after
              then " "%char :: replace_and 2 (Some c) rest
              else c :: replace_and 0 (Some c) rest
          | None => c :: replace_and 0 (Some c) rest
          end
      end
  end.

(** [.replace(/[,]/g, " ")] *)
Definition replace_commas (l : text) : text :=
  map (fun c => if Ascii.eqb c ","%char then " "%char else c) l.

(** *** Numbers *)

(** The value of [digits.fraction] times ten to the power [e]. *)
Definition decimal_value (ds fs : text) (e : Z) : Q :=
  let n := digits_value (ds ++ fs) in
  let k := (e - Z.of_nat (List.length fs))%Z in
  if (0 <=? k)%Z then inject_Z (n * 10 ^ k)
  else Qmake n (Z.to_pos (10 ^ (- k))).

(** A real becomes [Infinity] as a double from the midpoint between the
    largest double and [2^1024] on, and [0] up to half the smallest
    double. *)
Definition overflows (q : Q) : bool :=
  Qle_bool (inject_Z (2 ^ 1024 - 2 ^ 970)) q.

Definition underflows (q : Q) : bool :=
  Qle_bool q (Qmake 1 (2 ^ 1075)).

(** [Math.round(x)]: the nearest integer, a tie going up.  The product
    and the rounding are those of the reals; on doubles they are the same
    as long as the numerals have at most 15 significant digits and the
    real value is not within a double's precision of a tie.  They differ
    at a tie that the double product misses: 1.025 * 60 is 61.5, rounded to
    62, and the double product is 61.49999999999999, rounded to 61. *)
Definition Math_round (q : Q) : Z := Qfloor (q + (1 # 2)).

(** [unitMultipliers[key]] *)
Definition unitMultipliers (key : string) : option Z :=
  if String.eqb key "h" || String.eqb key "hr" || String.eqb key "hrs"
     || String.eqb key "hour" || String.eqb key "hours" then Some 3600%Z
  else if String.eqb key "m" || String.eqb key "min" || String.eqb key "mins"
     || String.eqb key "minute" || String.eqb key "minutes" then Some 60%Z
  else if String.eqb key "s" || String.eqb key "sec" || String.eqb key "secs"
     || String.eqb key "second" || String.eqb key "seconds" then Some 1%Z
  else None.

(** [match[2].replace(/s$/, "")] *)
Definition drop_final_s (u : text) : text :=
  match rev u with
  | c :: r => if Ascii.eqb c "s"%char then rev r else u
  | [] => u
  end.

(** [unitMultipliers[unitKey] ?? unitMultipliers[match[2]]] *)
Definition multiplier_of (u : text) : option Z :=
  match unitMultipliers (string_of_list_ascii (drop_final_s u)) with
  | Some m => Some m
  | None => unitMultipliers (string_of_list_ascii u)
  end.

(** What one round of the [while] loop adds to [totalFromUnits]. *)
Definition contribution (m : UnitMatch) : Z :=
  let value := decimal_value (whole m) (fraction m) 0 in
  if overflows value then 0%Z
  else
    match multiplier_of (unit_text m) with
    | None => 0%Z
    | Some mult => Math_round (value * inject_Z mult)
    end.

Definition totalFromUnits (ms : list UnitMatch) : Z :=
  fold_left (fun total m => (total + contribution m)%Z) ms 0%Z.

(** [Number(s)] for a trimmed string: the value when the string is a
    numeric literal with a finite value, [None] for [NaN] and for an
    infinity. *)

Definition signed_digits (l : text) : option Z :=
  let '(neg, body) :=
    match l with
    | c :: r =>
        if Ascii.eqb c "-"%char then (true, r)
        else if Ascii.eqb c "+"%char then (false, r)
        else (false, l)
    | [] => (false, l)
    end in
  match body with
  | [] => None
  | _ :: _ =>
      if forallb is_digit body
      then Some (if neg then - digits_value body else digits_value body)%Z
      else None
  end.

(** [StrUnsignedDecimalLiteral] without [Infinity]. *)
Definition unsigned_decimal (l : text) : option Q :=
  let '(ds, r1) := span is_digit l in
  let '(fs, r2) :=
    match r1 with
    | c :: r => if Ascii.eqb c "."%char then span is_digit r else ([], r1)
    | [] => ([], r1)
    end in
  match ds, fs with
  | [], [] => None
  | _, _ =>
      match r2 with
      | [] => Some (decimal_value ds fs 0)
      | c :: r3 =>
          if Ascii.eqb c "e"%char || Ascii.eqb c "E"%char then
            match signed_digits r3 with
            | Some e => Some (decimal_value ds fs e)
            | None => None
            end
          else None
      end
  end.

Definition radix_digit (radix : Z) (c : ascii) : option Z :=
  let v :=
    if is_digit c then digit_value c
    else if ((97 <=? code c) && (code c <=? 102))%N
         then (Z.of_N (code c) - 87)%Z
    else if ((65 <=? code c) && (code c <=? 70))%N
         then (Z.of_N (code c) - 55)%Z
    else 99%Z in
  if (v <? radix)%Z then Some v else None.

Fixpoint radix_value (radix : Z) (acc : Z) (l : text) : option Z :=
  match l with
  | [] => Some acc
  | c :: rest =>
      match radix_digit radix c with
      | Some v => radix_value radix (radix * acc + v)%Z rest
      | None => None
      end
  end.

(** [0x], [0o] and [0b] literals. *)
Definition non_decimal (l : text) : option Q :=
  match l with
  | z :: x :: ((_ :: _) as body) =>
      if Ascii.eqb z "0"%char then
        let radix :=
          if Ascii.eqb (lower x) "x"%char then Some 16%Z
          else if Ascii.eqb (lower x) "o"%char then Some 8%Z
          else if Ascii.eqb (lower x) "b"%char then Some 2%Z
          else None in
        match radix with
        | Some r =>
            match radix_value r 0 body with
            | Some n => Some (inject_Z n)
            | None => None
            end
        | None => None
        end
      else None
  | _ => None
  end.

Definition to_double (q : Q) : option Q :=
  if overflows q then None
  else if underflows q then Some (inject_Z 0)
  else Some q.

Definition Number (l : text) : option Q :=
  match l with
  | [] => Some (inject_Z 0)
  | c :: r =>
      match non_decimal l with
      | Some q => to_double q
      | None =>
          if Ascii.eqb c "-"%char then
            match unsigned_decimal r with
            | Some q =>
                match to_double q with
                | Some d => Some (Qopp d)
                | None => None
                end
            | None => None
            end
          else if Ascii.eqb c "+"%char then
            match unsigned_decimal r with
            | Some q => to_double q
            | None => None
            end
          else
            match unsigned_decimal l with
            | Some q => to_double q
            | None => None
            end
      end
  end.

(** *** The parser *)

Inductive ParseError : Set :=
| EmptyDuration    (* "Duration must not be empty." *)
| NotPositive      (* "Duration must be greater than zero seconds." *)
| CouldNotParse.   (* "Could not parse duration ..." *)

Inductive parsed : Set :=
| Seconds (n : Z)
| Fails (e : ParseError).

Definition parseDurationSeconds (input : string) : parsed :=
  let normalized := toLowerCase (trim (list_ascii_of_string input)) in
  match normalized with
  | [] => Fails EmptyDuration
  | _ :: _ =>
      match match_mmss normalized with
      | Some (mm, ss) =>
          let total := (digits_value mm * 60 + digits_value ss)%Z in
          if (total <=? 0)%Z then Fails NotPositive else Seconds total
      | None =>
          match exec_all 0 normalized with
          | (_ :: _) as ms =>
              let leftover :=
                trim (replace_commas
                        (replace_and 0 None (replace_units 0 normalized))) in
              if existsb is_digit leftover then Fails CouldNotParse
              else if (totalFromUnits ms <=? 0)%Z then Fails NotPositive
              else Seconds (totalFromUnits ms)
          | [] =>
              match Number normalized with
              | Some bareSeconds =>
                  if Qle_bool bareSeconds (inject_Z 0) then Fails CouldNotParse
                  else Seconds (Math_round bareSeconds)
              | None => Fails CouldNotParse
              end
          end
      end
  end.

End Duration.


(* ------------------------------------------------------------------ *)
(** ** Notions of the specification *)

Module Spec.
Import TimerStore History.

(** The number of timers in status scheduled, running or paused. *)
Definition active_count (s : t) : nat :=
  List.length (filter is_active (timers s)).

(** The map holds one entry for a key. *)
Definition well_keyed (s : t) : Prop := NoDup (map id (timers s)).

(** The store after [this.timers.set(id, updated); this.emitChange()]. *)
Definition stored (s : t) (updated : Timer) : t :=
  emitChange (with_timers s (map_set updated (timers s))).

(** The persistence state of a store whose saves have all been
    fulfilled so far and will be. *)
Definition saves_succeed (s : t) : Prop :=
  lastPersistError s = None /\ pendingPersist s = None /\
  forall save l, onChange s = Some save -> save l = None.

(** What the reconciliation at [now] makes of one timer. *)
Definition reconciled (now : Z) (timer : Timer) : Timer :=
  if expired now timer then finish now timer else timer.

(** [endsAt] is there exactly on running and on completed timers. *)
Definition endsAt_rule (x : Timer) : Prop :=
  endsAt x <> None <-> status x = running \/ status x = completed.

(** [remainingMs] is not negative, and is 0 on completed and cancelled
    timers. *)
Definition remaining_rule (x : Timer) : Prop :=
  0 <= remainingMs x /\
  (status x = completed \/ status x = cancelled -> remainingMs x = 0).

(** At clock [c] the timer has no more time left than it was started
    with. *)
Definition within_duration (c : Z) (x : Timer) : Prop :=
  0 <= durationMs x /\
  remainingMs x <= durationMs x /\
  (status x = running ->
   exists e, endsAt x = Some e /\ e <= c + durationMs x).

(** A call of the tool facade, with the arguments and the clock readings
    that follow the one of [handleTick]. *)
Inductive Call : Set :=
| CallList (tDec : Z)
| CallStart (tOp tDec : Z) (uuid : string) (input : TimerToolset.StartTimerArgs)
| CallPause (tOp tDec : Z) (key : string)
| CallResume (tOp tDec : Z) (key : string)
| CallCancel (tDec : Z) (key : string)
| CallExtend (tOp tDec : Z) (input : TimerToolset.AdjustArgs).

(** The [completed] list of the result of a call whose [handleTick] reads
    [tTick]. *)
Definition completed_list (uuid_schema : string -> bool) (tTick : Z)
    (c : Call) : M (list Timer) :=
  match c with
  | CallList tDec =>
      bind (TimerToolset.listTimers tTick tDec) (fun r => ret (snd r))
  | CallStart tOp tDec uuid input =>
      bind (TimerToolset.startTimer tTick tOp tDec uuid input)
        (fun r => ret (TimerToolset.completed_of r))
  | CallPause tOp tDec key =>
      bind (TimerToolset.pauseTimer tTick tOp tDec key)
        (fun r => ret (TimerToolset.completed_of r))
  | CallResume tOp tDec key =>
      bind (TimerToolset.resumeTimer tTick tOp tDec key)
        (fun r => ret (TimerToolset.completed_of r))
  | CallCancel tDec key =>
      bind (TimerToolset.cancelTimer tTick tDec key)
        (fun r => ret (TimerToolset.completed_of r))
  | CallExtend tOp tDec input =>
      bind (TimerToolset.extendTimer uuid_schema tTick tOp tDec input)
        (fun r => ret (TimerToolset.completed_of r))
  end.

(** The ways to write [m] minutes and [sec] seconds in the [mm:ss] form:
    each part with two digits, or with one when it is below ten. *)
Definition digit_char (n : nat) : ascii := ascii_of_nat (48 + n).

Definition part_forms (n : nat) : list (list ascii) :=
  [digit_char (n / 10); digit_char (n mod 10)] ::
  (if (n <? 10)%nat then [[digit_char n]] else []).

Definition mmss_forms (m sec : nat) : list string :=
  flat_map (fun mm =>
    map (fun ss => string_of_list_ascii (mm ++ ":"%char :: ss))
        (part_forms sec))
    (part_forms m).

Definition parsed_eqb (a b : Duration.parsed) : bool :=
  match a, b with
  | Duration.Seconds x, Duration.Seconds y => x =? y
  | Duration.Fails Duration.EmptyDuration, Duration.Fails Duration.EmptyDuration
  | Duration.Fails Duration.NotPositive, Duration.Fails Duration.NotPositive
  | Duration.Fails Duration.CouldNotParse, Duration.Fails Duration.CouldNotParse
      => true
  | _, _ => false
  end.

(** What the [mm:ss] form is to parse as. *)
Definition mmss_expected (m sec : nat) : Duration.parsed :=
  let total := Z.of_nat m * 60 + Z.of_nat sec in
  if total <=? 0 then Duration.Fails Duration.NotPositive
  else Duration.Seconds total.

(** The unit words and the seconds in one of each. *)
Definition unit_words : list (string * Z) :=
  [ ("h", 3600); ("hr", 3600); ("hrs", 3600); ("hour", 3600);
    ("hours", 3600); ("m", 60); ("min", 60); ("mins", 60); ("minute", 60);
    ("minutes", 60); ("s", 1); ("sec", 1); ("secs", 1); ("second", 1);
    ("seconds", 1) ]%string.

(** A unit phrase: a run of digits, a space or none, and a unit word. *)
Record Phrase : Set := {
  amount : list ascii;
  spaced : bool;
  unit_word : string;
  unit_seconds : Z
}.

Definition well_formed (p : Phrase) : Prop :=
  amount p <> [] /\ forallb Duration.is_digit (amount p) = true /\
  Duration.digits_value (amount p) < 2 ^ 40 /\
  In (unit_word p, unit_seconds p) unit_words.

Definition phrase_text (p : Phrase) : list ascii :=
  amount p ++ (if spaced p then [" "%char] else [])
           ++ list_ascii_of_string (unit_word p).

(** Phrases with one space between them. *)
Fixpoint phrases_text (ps : list Phrase) : list ascii :=
  match ps with
  | [] => []
  | [p] => phrase_text p
  | p :: rest => phrase_text p ++ " "%char :: phrases_text rest
  end.

Definition phrase_seconds (p : Phrase) : Z :=
  Duration.digits_value (amount p) * unit_seconds p.

Definition phrases_seconds (ps : list Phrase) : Z :=
  fold_right (fun p total => phrase_seconds p + total) 0 ps.

(** The match of the unit pattern on a phrase. *)
Definition match_of (p : Phrase) : Duration.UnitMatch :=
  {| Duration.whole := amount p; Duration.fraction := [];
     Duration.unit_text := list_ascii_of_string (unit_word p);
     Duration.matched := List.length (phrase_text p) |}.

Definition mmss_check (m sec : nat) : bool :=
  forallb (fun input =>
             parsed_eqb (Duration.parseDurationSeconds input)
               (mmss_expected m sec))
    (mmss_forms m sec).

(** The timestamps of a timer are dates that [formatISO] writes and
    [new Date] reads back. *)
Definition dated (x : Timer) : bool :=
  match startedAt x with Some a => in_range a | None => true end &&
  match endsAt x with Some e => in_range e | None => true end.

(** Every timestamp that has been in the store, at the outset and after
    each call of the history, is such a date. *)
Fixpoint dated_history (ops : list Op) (s : t) : bool :=
  forallb dated (timers s) &&
  match ops with
  | [] => true
  | o :: rest => dated_history rest (step s o)
  end.

(** The timer [key], if the call starts it, is started with a positive
    duration. *)
Definition positive_start_of (key : string) (o : Op) : Prop :=
  match o with
  | OpStart _ uuid input => uuid = key -> 0 < in_durationMs input
  | _ => True
  end.

(** The call does not lengthen the timer [key]. *)
Definition never_lengthens_of (key : string) (o : Op) : Prop :=
  match o with
  | OpExtend _ k extraMs => k = key -> extraMs <= 0
  | _ => True
  end.

End Spec.

(* ------------------------------------------------------------------ *)
(** ** Sample data *)

Module Samples.
Import TimerStore History.

(** The argument of a start for [d] milliseconds that gives no label. *)
Definition for_ms (d : Z) : StartInput :=
  {| in_label := None; in_durationMs := d;
     in_category := None; in_repeat := None |}.

(** A store made without options. *)
Definition fresh : t := new 0 default_options.

(** A store whose every save is rejected. *)
Definition failing : t :=
  new 0 {| opt_maxConcurrent := None; opt_initialTimers := None;
           opt_onChange := Some (fun _ => Some "EIO"%string) |}.

(** A timer of one second that is found expired four seconds late. *)
Definition expiry : list Op :=
  [OpStart 0 "a" (for_ms 1000); OpTick 5000].

(** A timer of one second that is paused the moment it ends. *)
Definition late_pause : list Op :=
  [OpStart 0 "a" (for_ms 1000); OpPause 1000 "a"].

(** A timer of ten seconds that is given a minute more after a second. *)
Definition lengthened : list Op :=
  [OpStart 0 "a" (for_ms 10000); OpExtend 1000 "a" 60000].

(** A timer of a minute, paused after 5.3 s and resumed after 20 s. *)
Definition paused_and_resumed : list Op :=
  [OpStart 0 "a" (for_ms 60000); OpPause 5300 "a"; OpResume 20000 "a"].

(** A timer of one second and a timer of a minute, started together. *)
Definition two_timers : list Op :=
  [OpStart 0 "a" (for_ms 1000); OpStart 0 "b" (for_ms 60000)].

(** A timer of one second. *)
Definition one_second : list Op := [OpStart 0 "a" (for_ms 1000)].

(** A timer of ten seconds. *)
Definition ten_seconds : list Op := [OpStart 0 "a" (for_ms 10000)].

(** A timer of a minute. *)
Definition one_minute : list Op := [OpStart 0 "a" (for_ms 60000)].

(** Five timers of a minute, and the first four of them. *)
Definition four_timers : list Op :=
  [OpStart 0 "a" (for_ms 60000); OpStart 0 "b" (for_ms 60000);
   OpStart 0 "c" (for_ms 60000); OpStart 0 "d" (for_ms 60000)].

Definition five_timers : list Op :=
  four_timers ++ [OpStart 0 "e" (for_ms 60000)].

End Samples.

(* ------------------------------------------------------------------ *)
(** ** Numbers in messages *)

Module Text.

(** [`${n}`] for an integer that is not negative. *)
Definition show (n : Z) : string := TimerStore.string_of_nat (Z.to_nat n).

(** [n === 1 ? "" : "s"] *)
Definition plural (n : Z) : string :=
  if n =? 1 then EmptyString else "s"%string.

(** [describeDelta(extraMs)] of the store. *)
Definition describeDelta (extraMs : Z) : string :=
  let abs := Z.abs extraMs in
  let minutes := abs / 60000 in
  let seconds := Z.rem abs 60000 / 1000 in
  if (0 <? minutes) && (0 <? seconds) then
    (show minutes ++ "m " ++ show seconds ++ "s")%string
  else if 0 <? minutes then
    (show minutes ++ " minute" ++ plural minutes)%string
  else (show seconds ++ " second" ++ plural seconds)%string.

End Text.

(* ------------------------------------------------------------------ *)
(** ** src/timers.ts *)

Module TimerManager.

Inductive TimerStatus : Set := running | stopped | completed.

(** [startedAt] and [endsAt] of a snapshot are written by [toISOString],
    which keeps the milliseconds: they are the instants themselves. *)
Record TimerSnapshot : Set := {
  id : string;
  durationMs : Z;
  remainingMs : Z;
  status : TimerStatus;
  startedAt : Z;
  endsAt : Z
}.

(** An [ActiveTimer]; its [interval] is the callback [on_interval] below
    with the [id] of the timer. *)
Record ActiveTimer : Set := {
  a_id : string;
  a_durationMs : Z;
  a_startedAt : Z;
  a_endsAt : Z
}.

(** What the emitter emits. *)
Inductive Event : Set :=
| tick (snapshot : TimerSnapshot)
| complete (snapshot : TimerSnapshot)
| stop (snapshot : TimerSnapshot).

Inductive ManagerError : Set :=
| DurationNotPositive   (* "Duration must be greater than zero seconds." *)
| TimerNotFound         (* "Timer not found." *)
| FailedToStart.        (* "Failed to start timer." *)

(** The [Map<string, ActiveTimer>] in insertion order. *)
Definition t : Set := list ActiveTimer.

Fixpoint get (key : string) (m : t) : option ActiveTimer :=
  match m with
  | [] => None
  | x :: rest => if String.eqb (a_id x) key then Some x else get key rest
  end.

Fixpoint set (timer : ActiveTimer) (m : t) : t :=
  match m with
  | [] => [timer]
  | x :: rest =>
      if String.eqb (a_id x) (a_id timer) then timer :: rest
      else x :: set timer rest
  end.

(** [this.timers.delete(id)] *)
Fixpoint delete (key : string) (m : t) : t :=
  match m with
  | [] => []
  | x :: rest =>
      if String.eqb (a_id x) key then rest else x :: delete key rest
  end.

(** [snapshotFor(id)]; [now] is the [Date.now()] it reads.  [toISOString]
    throws a RangeError for a time value that is not a valid date
    ([Dates.isValid]); the snapshot is that of the source for a timer
    whose [startedAt] and [endsAt] are valid dates. *)
Definition snapshotFor (now : Z) (key : string) (m : t)
    : option TimerSnapshot :=
  match get key m with
  | None => None
  | Some timer =>
      let remaining := Z.max (a_endsAt timer - now) 0 in
      Some {| id := a_id timer;
              durationMs := a_durationMs timer;
              remainingMs := remaining;
              status := if remaining =? 0 then completed else running;
              startedAt := a_startedAt timer;
              endsAt := a_endsAt timer |}
  end.

(** The callback that [start] gives to [setInterval]: the new map and what
    is emitted. *)
Definition on_interval (now : Z) (key : string) (m : t) : t * list Event :=
  match snapshotFor now key m with
  | None => (m, [])
  | Some snapshot =>
      if remainingMs snapshot <=? 0 then
        (delete key m,
         [complete {| id := id snapshot; durationMs := durationMs snapshot;
                      remainingMs := 0; status := completed;
                      startedAt := startedAt snapshot;
                      endsAt := endsAt snapshot |}])
      else (m, [tick snapshot])
  end.

(** [start(durationSeconds)]; [now] is read for [startedAt] and [later]
    for the snapshot that is returned.  With an end [now + duration] that
    is not a valid date the source leaves [start] by the RangeError of
    [snapshotFor], the timer being in the map: the result is that of the
    source when the end is a valid date. *)
Definition start (now later : Z) (uuid : string) (durationSeconds : Z) (m : t)
    : t * (ManagerError + TimerSnapshot) :=
  if durationSeconds <=? 0 then (m, inl DurationNotPositive)
  else
    let duration := durationSeconds * 1000 in
    let m' := set {| a_id := uuid; a_durationMs := duration;
                     a_startedAt := now; a_endsAt := now + duration |} m in
    match snapshotFor later uuid m' with
    | None => (m', inl FailedToStart)
    | Some snapshot => (m', inr snapshot)
    end.

(** [stop(id)]: the new map, the result, and what is emitted. *)
Definition stop_timer (now : Z) (key : string) (m : t)
    : t * (ManagerError + TimerSnapshot) * list Event :=
  match get key m with
  | None => (m, inl TimerNotFound, [])
  | Some timer =>
      let snapshot :=
        {| id := a_id timer; durationMs := a_durationMs timer;
           remainingMs := 0; status := stopped;
           startedAt := a_startedAt timer; endsAt := now |} in
      (delete key m, inr snapshot, [stop snapshot])
  end.

(** [list()] *)
Definition list_timers (now : Z) (m : t) : list TimerSnapshot :=
  flat_map (fun timer =>
              match snapshotFor now (a_id timer) m with
              | Some snapshot => [snapshot]
              | None => []
              end) m.

(** What can happen to a manager: a call of [start] or [stop], or an
    interval that fires. *)
Inductive Step : Set :=
| DoStart (now later : Z) (uuid : string) (durationSeconds : Z)
| DoStop (now : Z) (key : string)
| Fire (now : Z) (key : string).

Definition step (m : t) (c : Step) : t * list Event :=
  match c with
  | DoStart now later uuid seconds => (fst (start now later uuid seconds m), [])
  | DoStop now key =>
      let '(m', _, events) := stop_timer now key m in (m', events)
  | Fire now key => on_interval now key m
  end.

(** The map and everything emitted after a sequence of steps. *)
Fixpoint run (steps : list Step) (m : t) : t * list Event :=
  match steps with
  | [] => (m, [])
  | c :: rest =>
      let '(m1, e1) := step m c in
      let '(m2, e2) := run rest m1 in
      (m2, e1 ++ e2)
  end.

End TimerManager.

(* ------------------------------------------------------------------ *)
(** ** src/server.ts: the rest *)

Module Server.

Definition MAX_DURATION_SECONDS : Z := 3600.

(** [Math.round(ms / 1000)] *)
Definition round_seconds (ms : Z) : Z := Duration.Math_round (Qmake ms 1000).

(** [formatRemaining(ms)]; the widget has the same function. *)
Definition formatRemaining (ms : Z) : string :=
  let totalSeconds := Z.max (round_seconds ms) 0 in
  let minutes := totalSeconds / 60 in
  let seconds := Z.rem totalSeconds 60 in
  if (0 <? minutes) && (0 <? seconds) then
    (Text.show minutes ++ "m " ++ Text.show seconds ++ "s")%string
  else if 0 <? minutes then (Text.show minutes ++ "m")%string
  else (Text.show seconds ++ "s")%string.

(** [formatDurationFromSeconds(totalSeconds)] *)
Definition formatDurationFromSeconds (totalSeconds : Z) : string :=
  let minutes := totalSeconds / 60 in
  let seconds := Z.rem totalSeconds 60 in
  let parts :=
    (if 0 <? minutes
     then [(Text.show minutes ++ " minute" ++ Text.plural minutes)%string]
     else []) ++
    (if 0 <? seconds
     then [(Text.show seconds ++ " second" ++ Text.plural seconds)%string]
     else []) in
  match parts with
  | [] => "0 seconds"%string
  | [one] => one
  | first :: second :: _ => (first ++ " and " ++ second)%string
  end.

(** The value of the [duration] field of the tool's input. *)
Inductive DurationArg : Set :=
| NumberArg (value : Q)
| StringArg (value : string).

(** [z.number().int().positive().max(MAX_DURATION_SECONDS)] *)
Definition durationNumber (value : Q) : option Z :=
  if (Qnum value mod Zpos (Qden value) =? 0) then
    let n := Qnum value / Zpos (Qden value) in
    if (0 <? n) && (n <=? MAX_DURATION_SECONDS) then Some n else None
  else None.

(** The [duration] of [startTimerSchema]: a string goes through
    [parseDurationSeconds] first; [None] when the parser or the schema
    refuses. *)
Definition durationField (arg : DurationArg) : option Z :=
  match arg with
  | NumberArg value => durationNumber value
  | StringArg value =>
      match Duration.parseDurationSeconds value with
      | Duration.Seconds n => durationNumber (inject_Z n)
      | Duration.Fails _ => None
      end
  end.

End Server.

(* ------------------------------------------------------------------ *)
(** ** src/ui/builders.ts *)

Module Builders.

Inductive Action : Set :=
  open_inspect | open_fullscreen | resume_timer | pause_timer.

Record Cta : Set := {
  cta_label : string;
  action : Action;
  timerId : string
}.

(** The constant [surface] tag of each payload is left out. *)
Record InlineCard : Set := {
  ic_heading : string;
  ic_body : string;
  ic_badge : option string;
  ic_cta : option Cta;
  ic_accessibilityLabel : string
}.

Record InspectListRow : Set := {
  row_id : string;
  row_title : string;
  row_subtitle : string;
  row_status : TimerStatus;
  row_badge : option string;
  row_cta : option Cta;
  row_accessibilityLabel : string
}.

Record FullscreenSheet : Set := {
  fs_heading : string;
  fs_steps : list (string * string);
  fs_summary : option string;
  fs_accessibilityLabel : string
}.

Record PipWidget : Set := {
  pip_title : string;
  pip_remaining : string;
  pip_status : TimerStatus;
  pip_cta : option Cta;
  dismissOnComplete : bool
}.

Record CompletedEntry : Set := {
  ce_id : string;
  ce_label : string;
  completedAt : option ISO
}.

Record TimerStructuredContent : Set := {
  inlineCard : option InlineCard;
  inspect : option (list InspectListRow);
  fullscreen : option FullscreenSheet;
  pictureInPicture : option PipWidget;
  completed_entries : option (list CompletedEntry)
}.

(** [formatDuration(ms)] *)
Definition formatDuration (ms : Z) : string :=
  let totalSeconds := Z.max (Server.round_seconds ms) 0 in
  let minutes := totalSeconds / 60 in
  let seconds := Z.rem totalSeconds 60 in
  if (0 <? minutes) && (0 <? seconds) then
    (Text.show minutes ++ "m " ++ Text.show seconds ++ "s")%string
  else if 0 <? minutes then
    (Text.show minutes ++ " minute" ++ Text.plural minutes)%string
  else (Text.show seconds ++ " second" ++ Text.plural seconds)%string.

Section Builders.

(** The text of a timestamp of a timer. *)
Variable iso_text : ISO -> string.

(** [statusCopy(timer)] *)
Definition statusCopy (timer : Timer) : string :=
  match status timer with
  | running => (formatDuration (remainingMs timer) ++ " remaining")%string
  | paused =>
      ("Paused with " ++ formatDuration (remainingMs timer) ++ " left")%string
  | scheduled =>
      ("Scheduled to start at " ++
       match startedAt timer with
       | Some at_ => iso_text at_
       | None => "an upcoming time"
       end)%string
  | completed => "Completed"%string
  | cancelled => "Cancelled"%string
  end.

Definition badge_of (timer : Timer) : option string :=
  match category timer with
  | Some focus => Some "Focus"%string
  | Some break => Some "Break"%string
  | _ => None
  end.

Definition accessibility_of (timer : Timer) : string :=
  ("Timer " ++ label timer ++ ", " ++ statusCopy timer)%string.

(** [buildInlineCard(timer)] *)
Definition buildInlineCard (timer : Timer) : InlineCard :=
  {| ic_heading := label timer;
     ic_body := statusCopy timer;
     ic_badge := badge_of timer;
     ic_cta :=
       Some match status timer with
            | running => {| cta_label := "Pause"; action := pause_timer;
                            timerId := id timer |}
            | paused => {| cta_label := "Resume"; action := resume_timer;
                           timerId := id timer |}
            | _ => {| cta_label := "Open details"; action := open_inspect;
                      timerId := id timer |}
            end;
     ic_accessibilityLabel := accessibility_of timer |}.

(** [buildInspectRow(timer)] *)
Definition buildInspectRow (timer : Timer) : InspectListRow :=
  {| row_id := id timer;
     row_title := label timer;
     row_subtitle := statusCopy timer;
     row_status := status timer;
     row_badge := badge_of timer;
     row_cta :=
       match status timer with
       | running => Some {| cta_label := "Pause"; action := pause_timer;
                            timerId := id timer |}
       | paused => Some {| cta_label := "Resume"; action := resume_timer;
                           timerId := id timer |}
       | completed => Some {| cta_label := "Open details";
                              action := open_fullscreen;
                              timerId := id timer |}
       | _ => None
       end;
     row_accessibilityLabel := accessibility_of timer |}.

(** [buildFullscreenSheet()] *)
Definition buildFullscreenSheet : FullscreenSheet :=
  {| fs_heading := "Create a custom timer routine";
     fs_steps :=
       [ ("Name & duration",
          "Choose a label and target time. Defaults keep things simple for quick setups.");
         ("Optional repeats",
          "Stack focus and break intervals or configure recurring sessions.");
         ("Review & start",
          "Confirm the schedule and start timers instantly.") ]%string;
     fs_summary :=
       Some "Stay in flow while ChatGPT keeps time. Ask for adjustments at any point."%string;
     fs_accessibilityLabel :=
       "Timer creation sheet with three steps for name, repeats, and review." |}.

(** [buildPip(timer)] *)
Definition buildPip (timer : Timer) : PipWidget :=
  {| pip_title := label timer;
     pip_remaining := formatDuration (remainingMs timer);
     pip_status := status timer;
     pip_cta :=
       match status timer with
       | running => Some {| cta_label := "Pause"; action := pause_timer;
                            timerId := id timer |}
       | paused => Some {| cta_label := "Resume"; action := resume_timer;
                           timerId := id timer |}
       | _ => None
       end;
     dismissOnComplete := true |}.

Record ContentInput : Set := {
  primary : option Timer;
  content_timers : list Timer;
  includeFullscreen : option bool;
  pipTimer : option Timer;
  content_completed : option (list Timer)
}.

Definition is_running (timer : Timer) : bool :=
  match status timer with running => true | _ => false end.

Definition is_paused (timer : Timer) : bool :=
  match status timer with paused => true | _ => false end.

(** [pipTimer ?? timers.find(running) ?? timers.find(paused) ?? null] *)
Definition pipCandidate (input : ContentInput) : option Timer :=
  match pipTimer input with
  | Some timer => Some timer
  | None =>
      match find is_running (content_timers input) with
      | Some timer => Some timer
      | None => find is_paused (content_timers input)
      end
  end.

(** [buildTimerStructuredContent(input)] *)
Definition buildTimerStructuredContent (input : ContentInput)
    : TimerStructuredContent :=
  let inspectItems := map buildInspectRow (firstn 8 (content_timers input)) in
  let done :=
    match content_completed input with
    | Some l => l
    | None => []
    end in
  {| inlineCard :=
       match primary input with
       | Some timer => Some (buildInlineCard timer)
       | None => None
       end;
     inspect :=
       match inspectItems with
       | [] => None
       | _ :: _ => Some inspectItems
       end;
     fullscreen :=
       match includeFullscreen input with
       | Some true => Some buildFullscreenSheet
       | _ => None
       end;
     pictureInPicture :=
       match pipCandidate input with
       | Some timer => Some (buildPip timer)
       | None => None
       end;
     completed_entries :=
       match done with
       | [] => None
       | _ :: _ =>
           Some (map (fun timer =>
                        {| ce_id := id timer; ce_label := label timer;
                           completedAt := endsAt timer |}) done)
       end |}.

End Builders.

End Builders.

(* ------------------------------------------------------------------ *)
(** ** src/index.ts: the handlers of the tools *)

Module Index.
Import TimerStore TimerToolset Builders.

Section Index.

Variable iso_text : ISO -> string.
Variable uuid_schema : string -> bool.

(** The [structuredContent] of [buildCallToolResult(message, structured)];
    the text of the result and the constant [app] are left out. *)
Definition buildCallToolResult (structured : TimerStructuredContent)
    : TimerStructuredContent :=
  {| inlineCard := inlineCard structured;
     inspect := inspect structured;
     fullscreen :=
       Some match fullscreen structured with
            | Some sheet => sheet
            | None => buildFullscreenSheet
            end;
     pictureInPicture := pictureInPicture structured;
     completed_entries := completed_entries structured |}.

(** The handlers.  Each calls the tool, then [getSnapshot], which reads
    the clock once more ([tSnap]). *)

Definition timer_start (tTick tOp tDec tSnap : Z) (uuid : string)
    (input : StartTimerArgs) : M TimerStructuredContent :=
  bind (startTimer tTick tOp tDec uuid input) (fun result s =>
    (s, Ok (buildCallToolResult (buildTimerStructuredContent iso_text
       {| primary := Some (timer result);
          content_timers := getSnapshot tSnap s;
          includeFullscreen := Some true;
          pipTimer := if is_running (timer result)
                      then Some (timer result) else None;
          content_completed := Some (completed_of result) |})))).

Definition timer_pause (tTick tOp tDec tSnap : Z) (key : string)
    : M TimerStructuredContent :=
  bind (pauseTimer tTick tOp tDec key) (fun result s =>
    (s, Ok (buildCallToolResult (buildTimerStructuredContent iso_text
       {| primary := Some (timer result);
          content_timers := getSnapshot tSnap s;
          includeFullscreen := None;
          pipTimer := None;
          content_completed := Some (completed_of result) |})))).

Definition timer_resume (tTick tOp tDec tSnap : Z) (key : string)
    : M TimerStructuredContent :=
  bind (resumeTimer tTick tOp tDec key) (fun result s =>
    (s, Ok (buildCallToolResult (buildTimerStructuredContent iso_text
       {| primary := Some (timer result);
          content_timers := getSnapshot tSnap s;
          includeFullscreen := None;
          pipTimer := Some (timer result);
          content_completed := Some (completed_of result) |})))).

Definition timer_cancel (tTick tDec tSnap : Z) (key : string)
    : M TimerStructuredContent :=
  bind (cancelTimer tTick tDec key) (fun result s =>
    (s, Ok (buildCallToolResult (buildTimerStructuredContent iso_text
       {| primary := Some (timer result);
          content_timers := getSnapshot tSnap s;
          includeFullscreen := None;
          pipTimer := None;
          content_completed := Some (completed_of result) |})))).

Definition timer_adjust (tTick tOp tDec tSnap : Z) (input : AdjustArgs)
    : M TimerStructuredContent :=
  bind (extendTimer uuid_schema tTick tOp tDec input) (fun result s =>
    (s, Ok (buildCallToolResult (buildTimerStructuredContent iso_text
       {| primary := Some (timer result);
          content_timers := getSnapshot tSnap s;
          includeFullscreen := None;
          pipTimer := None;
          content_completed := Some (completed_of result) |})))).

Definition timer_list (tTick tDec : Z) : M TimerStructuredContent :=
  bind (listTimers tTick tDec) (fun result s =>
    (s, Ok (buildCallToolResult (buildTimerStructuredContent iso_text
       {| primary := hd_error (fst result);
          content_timers := fst result;
          includeFullscreen :=
            Some (0 <? Z.of_nat (List.length (fst result)));
          pipTimer := None;
          content_completed := Some (snd result) |})))).

(** A call of a tool, with the clock readings that follow the one of the
    tick. *)
Inductive ToolCall : Set :=
| ToolStart (tOp tDec tSnap : Z) (uuid : string) (input : StartTimerArgs)
| ToolPause (tOp tDec tSnap : Z) (key : string)
| ToolResume (tOp tDec tSnap : Z) (key : string)
| ToolCancel (tDec tSnap : Z) (key : string)
| ToolAdjust (tOp tDec tSnap : Z) (input : AdjustArgs)
| ToolList (tDec : Z).

Definition handle (tTick : Z) (c : ToolCall) : M TimerStructuredContent :=
  match c with
  | ToolStart tOp tDec tSnap uuid input =>
      timer_start tTick tOp tDec tSnap uuid input
  | ToolPause tOp tDec tSnap key => timer_pause tTick tOp tDec tSnap key
  | ToolResume tOp tDec tSnap key => timer_resume tTick tOp tDec tSnap key
  | ToolCancel tDec tSnap key => timer_cancel tTick tDec tSnap key
  | ToolAdjust tOp tDec tSnap input => timer_adjust tTick tOp tDec tSnap input
  | ToolList tDec => timer_list tTick tDec
  end.

End Index.

End Index.

(* ------------------------------------------------------------------ *)
(** ** Notions for the further properties *)

Module Laws.
Import TimerStore History.

(** [a] is listed no later than [b]. *)
Definition by_start (a b : Timer) : Prop := startedAt_le a b = true.

(** The label [`${base} ${counter}`] that [suggestLabel] tries. *)
Definition candidate (counter : nat) : string :=
  ("Timer " ++ string_of_nat counter)%string.

(** The statuses a timer of status [a] can be found in later. *)
Definition may_become (a b : TimerStatus) : bool :=
  match a, b with
  | scheduled, (scheduled | cancelled) => true
  | scheduled, _ => false
  | (running | paused), scheduled => false
  | (running | paused), _ => true
  | completed, (completed | cancelled) => true
  | completed, _ => false
  | cancelled, cancelled => true
  | cancelled, _ => false
  end.

(** The call does not start a timer under [key]. *)
Definition starts_other (key : string) (o : Op) : Prop :=
  match o with
  | OpStart _ uuid _ => uuid <> key
  | _ => True
  end.

(** What stays of a timer [x] in a later version [y] of it. *)
Definition follows (x y : Timer) : Prop :=
  id y = id x /\ label y = label x /\ durationMs y = durationMs x /\
  repeat y = repeat x /\ category y = category x /\
  may_become (status x) (status y) = true /\
  (forall a, startedAt x = Some a -> startedAt y = Some a).

(** The options of a store that is made from a saved snapshot. *)
Definition reloaded (snapshot : list Timer) (s : t) : Options :=
  {| opt_maxConcurrent := Some (maxConcurrent s);
     opt_initialTimers := Some snapshot;
     opt_onChange := onChange s |}.

(** The error is a refusal of the call, not the failure of a save. *)
Definition refusal (e : Error) : Prop :=
  forall cause, e <> PersistenceFailure cause.

End Laws.

(** The same for the timer manager. *)

Module ManagerLaws.
Import TimerManager.

(** Whether the timer [key] is in the map. *)
Definition active (key : string) (m : t) : nat :=
  match get key m with
  | Some _ => 1
  | None => 0
  end.

Definition ends (key : string) (e : Event) : bool :=
  match e with
  | complete snapshot | stop snapshot => String.eqb (id snapshot) key
  | tick _ => false
  end.

(** The number of events that end the timer [key]: its [complete] and its
    [stop] events. *)
Definition ends_of (key : string) (events : list Event) : nat :=
  List.length (filter (ends key) events).

Definition starts (key : string) (c : Step) : bool :=
  match c with
  | DoStart _ _ uuid durationSeconds =>
      String.eqb uuid key && (0 <? durationSeconds)
  | _ => false
  end.

(** The number of calls of [start] that make the timer [key]. *)
Definition starts_of (key : string) (steps : list Step) : nat :=
  List.length (filter (starts key) steps).

(** The snapshot of an event says what the event says. *)
Definition event_ok (e : Event) : Prop :=
  match e with
  | tick snapshot => status snapshot = running /\ 0 < remainingMs snapshot
  | complete snapshot =>
      status snapshot = completed /\ remainingMs snapshot = 0
  | stop snapshot => status snapshot = stopped /\ remainingMs snapshot = 0
  end.

End ManagerLaws.

(* ================================================================== *)
(** * Properties *)

Import TimerStore History Spec Samples TimerToolset.

(** ** The map *)

Section MapFacts.

Lemma map_get_id key m x : map_get key m = Some x -> id x = key.
Proof.
  induction m as [|y m IH]; simpl; [discriminate|].
  destruct (String.eqb (id y) key) eqn:E.
  - intros [= <-]. now apply String.eqb_eq.
  - exact IH.
Qed.

Lemma map_get_In key m x : map_get key m = Some x -> In x m.
Proof.
  induction m as [|y m IH]; simpl; [discriminate|].
  destruct (String.eqb (id y) key).
  - intros [= <-]. now left.
  - intros H. right. now apply IH.
Qed.

Lemma map_get_set_same u m : map_get (id u) (map_set u m) = Some u.
Proof.
  induction m as [|y m IH]; simpl.
  - now rewrite String.eqb_refl.
  - destruct (String.eqb (id y) (id u)) eqn:E; simpl.
    + now rewrite String.eqb_refl.
    + now rewrite E.
Qed.

Lemma map_get_set_other key u m :
  id u <> key -> map_get key (map_set u m) = map_get key m.
Proof.
  intros Hne. apply String.eqb_neq in Hne.
  induction m as [|y m IH]; simpl.
  - now rewrite Hne.
  - destruct (String.eqb (id y) (id u)) eqn:E; simpl.
    + apply String.eqb_eq in E. rewrite E, Hne. reflexivity.
    + now rewrite IH.
Qed.

Lemma In_map_set x u m : In x (map_set u m) -> x = u \/ In x m.
Proof.
  induction m as [|y m IH]; simpl.
  - intros [<-|[]]. now left.
  - destruct (String.eqb (id y) (id u)); simpl.
    + intros [<-|H]; auto.
    + intros [<-|H]; auto. destruct (IH H); auto.
Qed.

Lemma map_set_ids u m :
  In (id u) (map id m) -> map id (map_set u m) = map id m.
Proof.
  induction m as [|y m IH]; simpl; [tauto|].
  destruct (String.eqb (id y) (id u)) eqn:E; simpl.
  - intros _. apply String.eqb_eq in E. now rewrite E.
  - intros [H|H].
    + apply String.eqb_neq in E. congruence.
    + now rewrite IH.
Qed.

Lemma NoDup_get x m :
  NoDup (map id m) -> In x m -> map_get (id x) m = Some x.
Proof.
  induction m as [|y m IH]; simpl; [tauto|].
  intros Hnd [->|Hin].
  - now rewrite String.eqb_refl.
  - inversion Hnd as [|? ? Hy Hm]; subst.
    destruct (String.eqb (id y) (id x)) eqn:E.
    + apply String.eqb_eq in E. exfalso. apply Hy. rewrite E.
      now apply in_map.
    + now apply IH.
Qed.

Lemma with_timers_same s : with_timers s (timers s) = s.
Proof. now destruct s. Qed.

Lemma timers_emitChange s : timers (emitChange s) = timers s.
Proof. unfold emitChange. now destruct (onChange s). Qed.

Lemma maxConcurrent_emitChange s :
  maxConcurrent (emitChange s) = maxConcurrent s.
Proof. unfold emitChange. now destruct (onChange s). Qed.

End MapFacts.

(** ** The sorted snapshot *)

Section Snapshot.

Lemma sort_insert_perm a l : Permutation (a :: l) (sort_insert a l).
Proof.
  induction l as [|x l IH]; simpl; [reflexivity|].
  destruct (startedAt_le a x); [reflexivity|].
  rewrite perm_swap. now constructor.
Qed.

Lemma sort_perm l : Permutation l (sort_by_startedAt l).
Proof.
  induction l as [|x l IH]; simpl; [constructor|].
  rewrite <- sort_insert_perm. now constructor.
Qed.

Lemma filter_length_perm (p : Timer -> bool) l l' :
  Permutation l l' ->
  List.length (filter p l) = List.length (filter p l').
Proof.
  induction 1; simpl; try congruence.
  - destruct (p x); simpl; congruence.
  - destruct (p x), (p y); reflexivity.
Qed.

Lemma getActive_length s : List.length (getActive s) = active_count s.
Proof.
  unfold getActive, getAll, active_count. symmetry.
  apply filter_length_perm, sort_perm.
Qed.

Lemma In_getAll x s : In x (getAll s) <-> In x (timers s).
Proof.
  unfold getAll. split; intros H.
  - eapply Permutation_in; [symmetry; apply sort_perm|exact H].
  - eapply Permutation_in; [apply sort_perm|exact H].
Qed.

End Snapshot.

(** ** Capacity *)

Section Capacity.

Variables (now : Z) (uuid : string) (input : StartInput) (s : t).




End Capacity.


(** ** The methods on a timer that is there *)

Section Methods.

Variables (key : string) (s : t) (timer : Timer).
Hypothesis Hfind : findById key s = Some timer.

Lemma findById_stored updated :
  id updated = id timer ->
  findById key (stored s updated) = Some updated /\
  (forall k, k <> key -> findById k (stored s updated) = findById k s) /\
  (forall x, In x (timers (stored s updated)) ->
             In x (timers s) \/ x = updated).
Proof.
  intros Hid. pose proof (map_get_id _ _ _ Hfind) as Hk.
  unfold stored, findById. rewrite timers_emitChange. simpl.
  repeat split.
  - rewrite <- Hk, <- Hid. apply map_get_set_same.
  - intros k Hne. apply map_get_set_other. congruence.
  - intros x Hx. destruct (In_map_set _ _ _ Hx); auto.
Qed.

Lemma pause_running now :
  status timer = running ->
  pause now key s = (stored s (paused_at now timer), Ok (paused_at now timer)).
Proof.
  intros Hst. unfold pause, bind, requireTimer.
  unfold findById in Hfind. rewrite Hfind, Hst. reflexivity.
Qed.

Lemma resume_paused now :
  status timer = paused ->
  resume now key s = (stored s (resumed_at now timer), Ok (resumed_at now timer)).
Proof.
  intros Hst. unfold resume, bind, requireTimer.
  unfold findById in Hfind. rewrite Hfind, Hst. reflexivity.
Qed.

Lemma cancel_found :
  cancel key s = (stored s (cancelled_of timer), Ok (cancelled_of timer)).
Proof.
  unfold cancel, bind, requireTimer.
  unfold findById in Hfind. rewrite Hfind. reflexivity.
Qed.

Lemma extend_active now extraMs :
  status timer = running \/ status timer = paused ->
  extend now key extraMs s =
  (stored s (extended_by now extraMs timer), Ok (extended_by now extraMs timer)).
Proof.
  intros Hst. unfold extend, bind, requireTimer.
  unfold findById in Hfind. rewrite Hfind.
  destruct Hst as [-> | ->]; reflexivity.
Qed.

End Methods.

Lemma id_extended_by now extraMs timer :
  id (extended_by now extraMs timer) = id timer.
Proof.
  unfold extended_by.
  destruct (_ =? 0); [reflexivity|]. now destruct (status timer).
Qed.

Lemma formatISO_bounds d : d - 1000 < formatISO d <= d.
Proof.
  unfold formatISO.
  pose proof (Z.mul_div_le d 1000). pose proof (Z.mod_pos_bound d 1000).
  pose proof (Z.div_mod d 1000). lia.
Qed.

(** ** Shortening a timer to nothing *)

(** C5.  Let a timer be running with [endsAt = e] or paused, and let [r] be
    its current remaining time: [max (e - now) 0] when running, the cached
    [remainingMs] when paused.  If [r + deltaMs <= 0], the call
    [extend(id, deltaMs)] at time [now] returns and stores the timer with
    status completed, [remainingMs = 0] and [endsAt] the ISO timestamp of
    [now]; the store after the call holds the timers it held before, with
    that one entry replaced, so no negative [remainingMs] is there to see. *)
Theorem C5_extend_to_completion :
  forall (now : Z) (key : string) (deltaMs : Z) (s : t) (timer : Timer) (r : Z),
    findById key s = Some timer ->
    (status timer = running /\
       exists e, endsAt timer = Some e /\ r = Z.max (e - now) 0) \/
    (status timer = paused /\ r = remainingMs timer) ->
    r + deltaMs <= 0 ->
    exists s' updated,
      extend now key deltaMs s = (s', Ok updated) /\
      status updated = completed /\
      remainingMs updated = 0 /\
      endsAt updated = Some (formatISO now) /\
      findById key s' = Some updated /\
      (forall k, k <> key -> findById k s' = findById k s) /\
      (forall x, In x (timers s') -> In x (timers s) \/ x = updated).
Proof.
  intros now key deltaMs s timer r Hfind Hst Hle.
  assert (Hact : status timer = running \/ status timer = paused)
    by (destruct Hst as [[H _]|[H _]]; auto).
  assert (Hr : current_remaining now timer = r).
  { unfold current_remaining, computeRemaining, differenceInMilliseconds.
    destruct Hst as [[H (e & He & ->)]|[H ->]]; rewrite H; [now rewrite He|reflexivity]. }
  assert (Hup : extended_by now deltaMs timer =
                spread timer completed 0 (startedAt timer) (Some (formatISO now))).
  { unfold extended_by. rewrite Hr.
    replace (Z.max (r + deltaMs) 0) with 0 by lia. reflexivity. }
  exists (stored s (extended_by now deltaMs timer)), (extended_by now deltaMs timer).
  split; [now apply extend_active|].
  destruct (findById_stored key s timer Hfind (extended_by now deltaMs timer))
    as (H1 & H2 & H3); [apply id_extended_by|].
  rewrite Hup in *. simpl. auto 10.
Qed.

(** ** Pause and resume *)

(** C6, as the code has it.  A running timer with [endsAt = e] that is
    paused at [t1] keeps [r = max (e - t1) 0] as its [remainingMs] and loses
    its [endsAt]; resumed at [t2] it is running again, with the same
    [remainingMs = r], with its [startedAt] unchanged when it had one, and
    with [endsAt] the ISO timestamp of [t2 + r], which is [t2 + r] cut down
    to the whole second: the time left right after the resume is at most
    [r] and more than [r - 1000]. *)
Theorem C6_pause_resume :
  forall (t1 t2 : Z) (key : string) (s : t) (timer : Timer) (e : Z),
    findById key s = Some timer ->
    status timer = running ->
    endsAt timer = Some e ->
    exists s1 p s2 q,
      pause t1 key s = (s1, Ok p) /\
      status p = paused /\ remainingMs p = Z.max (e - t1) 0 /\
      endsAt p = None /\
      resume t2 key s1 = (s2, Ok q) /\
      findById key s2 = Some q /\
      status q = running /\
      remainingMs q = Z.max (e - t1) 0 /\
      endsAt q = Some (formatISO (t2 + Z.max (e - t1) 0)) /\
      startedAt q = match startedAt timer with
                    | Some sa => Some sa
                    | None => Some (formatISO t2)
                    end /\
      Z.max (e - t1) 0 - 1000 < computeRemaining q t2 <= Z.max (e - t1) 0.
Proof.
  intros t1 t2 key s timer e Hfind Hst He.
  set (p := paused_at t1 timer). set (s1 := stored s p).
  destruct (findById_stored key s timer Hfind p eq_refl) as (Hp & _ & _).
  fold s1 in Hp.
  set (q := resumed_at t2 p). set (s2 := stored s1 q).
  destruct (findById_stored key s1 p Hp q eq_refl) as (Hq & _ & _).
  fold s2 in Hq.
  assert (Hr : remainingMs p = Z.max (e - t1) 0).
  { subst p. unfold paused_at, computeRemaining, differenceInMilliseconds.
    now rewrite He. }
  exists s1, p, s2, q.
  split; [now apply pause_running|].
  split; [reflexivity|]. split; [exact Hr|]. split; [reflexivity|].
  split; [now apply resume_paused|].
  split; [exact Hq|]. split; [reflexivity|].
  split; [exact Hr|].
  split; [now rewrite <- Hr|].
  split; [reflexivity|].
  assert (Hlive : computeRemaining q t2 =
                  Z.max (formatISO (t2 + remainingMs p) - t2) 0) by reflexivity.
  rewrite Hlive, Hr.
  pose proof (formatISO_bounds (t2 + Z.max (e - t1) 0)). lia.
Qed.

(** ** Reconciliation *)

Section Reconciliation.

Variable now : Z.

Lemma expired_spec x :
  expired now x = true <->
  status x = running /\ exists e, endsAt x = Some e /\ e <= now.
Proof.
  unfold expired. split.
  - destruct (status x); try discriminate.
    destruct (endsAt x) as [e|]; [|discriminate].
    intros H. apply Z.leb_le in H. eauto.
  - intros [-> (e & -> & He)]. now apply Z.leb_le.
Qed.

Lemma reconciled_not_expired x : expired now (reconciled now x) = false.
Proof.
  unfold reconciled. destruct (expired now x) eqn:E; [reflexivity|exact E].
Qed.

Lemma id_reconciled x : id (reconciled now x) = id x.
Proof. unfold reconciled. now destruct (expired now x). Qed.

(** The [completed] array collects the finished timers in the order of
    the map. *)
Lemma fold_complete_snd l m done :
  snd (fold_left (complete_step now) l (m, done)) =
  done ++ map (finish now) (filter (expired now) l).
Proof.
  revert m done. induction l as [|x l IH]; intros m done; simpl.
  - now rewrite app_nil_r.
  - unfold complete_step at 2. destruct (expired now x); simpl.
    + rewrite IH, <- app_assoc. reflexivity.
    + apply IH.
Qed.

Lemma map_set_middle u x pre post :
  id x = id u -> ~ In (id u) (map id pre) ->
  map_set u (pre ++ x :: post) = pre ++ u :: post.
Proof.
  intros Hid. induction pre as [|y pre IH]; simpl; intros Hnot.
  - apply String.eqb_eq in Hid. now rewrite Hid.
  - destruct (String.eqb (id y) (id u)) eqn:E.
    + apply String.eqb_eq in E. tauto.
    + rewrite IH; tauto.
Qed.

(** With one entry for a key, the loop rewrites the map entry by entry. *)
Lemma fold_complete_fst l pre done :
  NoDup (map id (pre ++ l)) ->
  fst (fold_left (complete_step now) l (pre ++ l, done)) =
  pre ++ map (reconciled now) l.
Proof.
  revert pre done. induction l as [|x l IH]; intros pre done Hnd; simpl.
  - reflexivity.
  - assert (Hx : ~ In (id x) (map id pre)).
    { rewrite map_app in Hnd. simpl in Hnd.
      apply NoDup_remove_2 in Hnd. rewrite in_app_iff in Hnd. tauto. }
    assert (Hnd' : NoDup (map id ((pre ++ [reconciled now x]) ++ l))).
    { rewrite <- app_assoc. simpl. rewrite map_app in *. simpl.
      now rewrite id_reconciled. }
    unfold complete_step at 2. unfold reconciled in *.
    destruct (expired now x); simpl.
    + rewrite (map_set_middle (finish now x) x pre l eq_refl Hx).
      change (pre ++ finish now x :: l) with (pre ++ [finish now x] ++ l).
      rewrite app_assoc, IH by exact Hnd'.
      now rewrite <- app_assoc.
    + change (pre ++ x :: l) with (pre ++ [x] ++ l).
      rewrite app_assoc, IH by exact Hnd'.
      now rewrite <- app_assoc.
Qed.

Lemma completeExpiringTimers_spec s :
  well_keyed s ->
  timers (fst (completeExpiringTimers now s)) =
    map (reconciled now) (timers s) /\
  snd (completeExpiringTimers now s) =
    Ok (map (finish now) (filter (expired now) (timers s))).
Proof.
  intros Hnd. unfold completeExpiringTimers.
  pose proof (fold_complete_fst (timers s) [] [] Hnd) as Hfst.
  pose proof (fold_complete_snd (timers s) (timers s) []) as Hsnd.
  simpl in Hfst, Hsnd.
  destruct (fold_left (complete_step now) (timers s) (timers s, []))
    as [m done]. simpl in *. subst m done.
  destruct (map (finish now) (filter (expired now) (timers s))); simpl.
  - auto.
  - rewrite timers_emitChange. auto.
Qed.

Lemma completeExpiringTimers_done s :
  snd (completeExpiringTimers now s) =
    Ok (map (finish now) (filter (expired now) (timers s))).
Proof.
  unfold completeExpiringTimers.
  pose proof (fold_complete_snd (timers s) (timers s) []) as Hsnd.
  simpl in Hsnd.
  destruct (fold_left (complete_step now) (timers s) (timers s, []))
    as [m done]. simpl in *. subst done.
  now destruct (map (finish now) (filter (expired now) (timers s))).
Qed.

(** Without an expired timer the call changes nothing. *)
Lemma completeExpiringTimers_idle s :
  (forall x, In x (timers s) -> expired now x = false) ->
  completeExpiringTimers now s = (s, Ok []).
Proof.
  intros Hno. unfold completeExpiringTimers.
  assert (H : forall l m, (forall x, In x l -> expired now x = false) ->
            fold_left (complete_step now) l (m, []) = (m, [])).
  { induction l as [|x l IH]; intros m Hl; simpl; [reflexivity|].
    unfold complete_step at 2. rewrite (Hl x) by now left.
    apply IH. intros y Hy. apply Hl. now right. }
  rewrite H by exact Hno. now rewrite with_timers_same.
Qed.

Lemma well_keyed_reconciled s :
  well_keyed s -> well_keyed (fst (completeExpiringTimers now s)).
Proof.
  intros Hnd. unfold well_keyed.
  rewrite (proj1 (completeExpiringTimers_spec s Hnd)), map_map.
  erewrite map_ext; [exact Hnd|]. intros x. apply id_reconciled.
Qed.

Lemma findById_reconciled s x :
  well_keyed s -> In x (timers s) ->
  findById (id x) (fst (completeExpiringTimers now s)) =
    Some (reconciled now x).
Proof.
  intros Hnd Hin. unfold findById.
  rewrite <- (id_reconciled x).
  apply NoDup_get.
  - now apply well_keyed_reconciled.
  - rewrite (proj1 (completeExpiringTimers_spec s Hnd)). now apply in_map.
Qed.

End Reconciliation.

(** Every store is well keyed: the constructor makes it so and every call
    keeps it so. *)
Section WellKeyed.

Lemma ids_map_set u m x :
  In x (map id (map_set u m)) -> x = id u \/ In x (map id m).
Proof.
  rewrite in_map_iff. intros (y & <- & Hy).
  destruct (In_map_set _ _ _ Hy) as [->|H]; [now left|].
  right. now apply in_map.
Qed.

Lemma map_set_NoDup u m :
  NoDup (map id m) -> NoDup (map id (map_set u m)).
Proof.
  induction m as [|y m IH]; simpl; intros Hnd.
  - repeat constructor. intros [].
  - inversion Hnd as [|? ? Hy Hm]; subst.
    destruct (String.eqb (id y) (id u)) eqn:E; simpl.
    + apply String.eqb_eq in E. rewrite <- E. now constructor.
    + apply String.eqb_neq in E. constructor; [|now apply IH].
      intros H. destruct (ids_map_set _ _ _ H); congruence.
Qed.

Lemma well_keyed_new now options : well_keyed (new now options).
Proof.
  unfold well_keyed, new. simpl.
  destruct (opt_initialTimers options) as [l|]; [|constructor].
  assert (H : forall m, NoDup (map id m) ->
            NoDup (map id (fold_left
                             (fun m x => map_set (normalizeTimer x now) m)
                             l m))).
  { induction l as [|x l IH]; intros m Hm; simpl; [exact Hm|].
    apply IH. now apply map_set_NoDup. }
  apply H. constructor.
Qed.

Lemma well_keyed_stored s u : well_keyed s -> well_keyed (stored s u).
Proof.
  unfold well_keyed, stored. rewrite timers_emitChange. simpl.
  apply map_set_NoDup.
Qed.

Lemma well_keyed_step o s : well_keyed s -> well_keyed (step s o).
Proof.
  intros Hs.
  destruct o as [now uuid input|now key|now key|key|now key extraMs|now];
    simpl.
  - unfold start.
    destruct (_ >=? _); simpl; [exact Hs|].
    now apply (well_keyed_stored s).
  - destruct (findById key s) as [x|] eqn:Hf.
    + destruct (status x) eqn:Hst;
        try (unfold pause, bind, requireTimer; unfold findById in Hf;
             rewrite Hf, Hst; exact Hs).
      rewrite (pause_running key s x Hf now Hst).
      now apply well_keyed_stored.
    + unfold pause, bind, requireTimer. unfold findById in Hf.
      rewrite Hf. exact Hs.
  - destruct (findById key s) as [x|] eqn:Hf.
    + destruct (status x) eqn:Hst;
        try (unfold resume, bind, requireTimer; unfold findById in Hf;
             rewrite Hf, Hst; exact Hs).
      rewrite (resume_paused key s x Hf now Hst).
      now apply well_keyed_stored.
    + unfold resume, bind, requireTimer. unfold findById in Hf.
      rewrite Hf. exact Hs.
  - destruct (findById key s) as [x|] eqn:Hf.
    + rewrite (cancel_found key s x Hf). now apply well_keyed_stored.
    + unfold cancel, bind, requireTimer. unfold findById in Hf.
      rewrite Hf. exact Hs.
  - destruct (findById key s) as [x|] eqn:Hf.
    + destruct (status x) eqn:Hst;
        try (unfold extend, bind, requireTimer; unfold findById in Hf;
             rewrite Hf, Hst; exact Hs).
      * rewrite (extend_active key s x Hf now extraMs (or_introl Hst)).
        now apply well_keyed_stored.
      * rewrite (extend_active key s x Hf now extraMs (or_intror Hst)).
        now apply well_keyed_stored.
    + unfold extend, bind, requireTimer. unfold findById in Hf.
      rewrite Hf. exact Hs.
  - now apply well_keyed_reconciled.
Qed.

Lemma well_keyed_run ops now options :
  well_keyed (run ops (new now options)).
Proof.
  unfold run. generalize (well_keyed_new now options).
  generalize (new now options).
  induction ops as [|o ops IH]; intros s Hs; simpl; [exact Hs|].
  apply IH. now apply well_keyed_step.
Qed.

End WellKeyed.

(** C10.  In a store whose map holds one entry for a key, a second
    [completeExpiringTimers(now)] right after a first one with the same
    [now] returns the empty list and leaves the store, every timer of it,
    as the first call left it. *)
Theorem C10_reconciliation_idempotent :
  forall (now : Z) (s : t),
    well_keyed s ->
    completeExpiringTimers now (fst (completeExpiringTimers now s)) =
    (fst (completeExpiringTimers now s), Ok []).
Proof.
  intros now s Hnd. apply completeExpiringTimers_idle.
  intros x. rewrite (proj1 (completeExpiringTimers_spec now s Hnd)).
  rewrite in_map_iff. intros (y & <- & _). apply reconciled_not_expired.
Qed.

(** ** The [completed] list of a call *)

Section Completed.

Lemma bind_Ok {A B} (m : M A) (k : A -> M B) s s' b :
  bind m k s = (s', Ok b) ->
  exists s1 a, m s = (s1, Ok a) /\ k a s1 = (s', Ok b).
Proof.
  unfold bind. destruct (m s) as [s1 [a|e]]; [eauto|discriminate].
Qed.

Lemma ret_Ok {A} (a b : A) s s' : ret a s = (s', Ok b) -> a = b.
Proof. unfold ret. now intros [= _ ->]. Qed.

Lemma decorate_finished tDec now l :
  map (decorateTimer tDec) (map (finish now) l) = map (finish now) l.
Proof. rewrite map_map. now apply map_ext. Qed.

Lemma handleTick_Ok now tDec s s' done :
  handleTick now tDec s = (s', Ok done) ->
  done = map (finish now) (filter (expired now) (timers s)).
Proof.
  unfold handleTick. intros H.
  apply bind_Ok in H as (s1 & l & Hc & H).
  pose proof (completeExpiringTimers_done now s) as Hd.
  rewrite Hc in Hd. simpl in Hd. injection Hd as ->.
  rewrite decorate_finished in H.
  destruct (map (finish now) (filter (expired now) (timers s))) eqn:E.
  - now apply ret_Ok in H.
  - apply bind_Ok in H as (s2 & u & _ & H). now apply ret_Ok in H.
Qed.

Lemma In_mergeCompleted y done candidate :
  In y done -> In y (mergeCompleted done candidate).
Proof.
  unfold mergeCompleted. intros H.
  destruct (status candidate); auto.
  destruct (existsb _ done); auto. apply in_or_app. now left.
Qed.

Lemma completed_list_Ok uuid_schema tTick c s s' done :
  completed_list uuid_schema tTick c s = (s', Ok done) ->
  forall x, In x (timers s) -> expired tTick x = true ->
            In (finish tTick x) done.
Proof.
  intros H x Hin Hex.
  assert (Hx : In (finish tTick x)
                 (map (finish tTick) (filter (expired tTick) (timers s)))).
  { apply in_map, filter_In. auto. }
  destruct c; simpl in H;
    apply bind_Ok in H as (s1 & r & H & Hr); apply ret_Ok in Hr; subst done.
  - unfold listTimers in H. apply bind_Ok in H as (s2 & d & Ht & H).
    apply handleTick_Ok in Ht. injection H as _ <-. simpl. now subst d.
  - unfold startTimer in H. apply bind_Ok in H as (s2 & d & Ht & H).
    apply handleTick_Ok in Ht. subst d.
    apply bind_Ok in H as (s3 & parsed & _ & H).
    apply bind_Ok in H as (s4 & res & _ & H).
    apply bind_Ok in H as (s5 & u & _ & H).
    apply ret_Ok in H. subst r. simpl. now apply In_mergeCompleted.
  - unfold pauseTimer in H. apply bind_Ok in H as (s2 & d & Ht & H).
    apply handleTick_Ok in Ht. subst d.
    apply bind_Ok in H as (s4 & res & _ & H).
    apply bind_Ok in H as (s5 & u & _ & H).
    apply ret_Ok in H. subst r. exact Hx.
  - unfold resumeTimer in H. apply bind_Ok in H as (s2 & d & Ht & H).
    apply handleTick_Ok in Ht. subst d.
    apply bind_Ok in H as (s4 & res & _ & H).
    apply bind_Ok in H as (s5 & u & _ & H).
    apply ret_Ok in H. subst r. exact Hx.
  - unfold cancelTimer in H. apply bind_Ok in H as (s2 & d & Ht & H).
    apply handleTick_Ok in Ht. subst d.
    apply bind_Ok in H as (s4 & res & _ & H).
    apply bind_Ok in H as (s5 & u & _ & H).
    apply ret_Ok in H. subst r. exact Hx.
  - unfold extendTimer in H. apply bind_Ok in H as (s2 & d & Ht & H).
    apply handleTick_Ok in Ht. subst d.
    apply bind_Ok in H as (s3 & parsed & _ & H).
    apply bind_Ok in H as (s4 & res & _ & H).
    apply bind_Ok in H as (s5 & u & _ & H).
    apply ret_Ok in H. subst r. simpl. now apply In_mergeCompleted.
Qed.

Lemma wait_after_emitChange s :
  saves_succeed s ->
  waitForPersistence (emitChange s) = (emitChange s, Ok tt).
Proof.
  intros (He & Hp & Hs). unfold waitForPersistence, emitChange.
  destruct (onChange s) as [save|] eqn:E; simpl.
  - rewrite (Hs save _ eq_refl). reflexivity.
  - now rewrite Hp, He.
Qed.

(** [handleTick] returns when no save is rejected. *)
Lemma handleTick_returns now tDec s :
  saves_succeed s ->
  exists s', handleTick now tDec s =
             (s', Ok (map (finish now) (filter (expired now) (timers s)))).
Proof.
  intros Hp. unfold handleTick, bind.
  pose proof (completeExpiringTimers_done now s) as Hd.
  unfold completeExpiringTimers in *.
  destruct (fold_left (complete_step now) (timers s) (timers s, []))
    as [m done].
  destruct done as [|d done]; simpl in Hd; injection Hd as Hd.
  - rewrite <- Hd. eexists. reflexivity.
  - rewrite wait_after_emitChange by exact Hp.
    unfold ret. rewrite Hd, decorate_finished. eauto.
Qed.

End Completed.

(** What the reconciliation does.  Let the map hold one entry for a key
    and let [s'] be the store after [completeExpiringTimers(now)].  Every
    timer that was running with [endsAt <= now] is in [s'] with status
    completed, [remainingMs = 0] and [endsAt] the ISO timestamp of [now],
    its other fields as they were; every other timer is in [s'] as it was,
    and [s'] has the entries of [s] in the same order.  [handleTick]
    returns these completed timers when no save is rejected, and a call of
    the facade whose tick reads [now] has every one of them in the
    [completed] list of its result, when it returns a result. *)
Lemma reconciliation_reported :
  forall (now : Z) (s : t),
    well_keyed s ->
    (forall x e,
        In x (timers s) -> status x = running -> endsAt x = Some e ->
        e <= now ->
        exists y,
          findById (id x) (fst (completeExpiringTimers now s)) = Some y /\
          y = finish now x /\
          status y = completed /\ remainingMs y = 0 /\
          endsAt y = Some (formatISO now)) /\
    (forall x,
        In x (timers s) ->
        ~ (status x = running /\ exists e, endsAt x = Some e /\ e <= now) ->
        findById (id x) (fst (completeExpiringTimers now s)) = Some x) /\
    map id (timers (fst (completeExpiringTimers now s))) = map id (timers s) /\
    (forall tDec, saves_succeed s ->
        exists s', handleTick now tDec s =
          (s', Ok (map (finish now) (filter (expired now) (timers s))))) /\
    (forall uuid_schema call s' done x e,
        completed_list uuid_schema now call s = (s', Ok done) ->
        In x (timers s) -> status x = running -> endsAt x = Some e ->
        e <= now ->
        In (finish now x) done).
Proof.
  intros now s Hnd. repeat split.
  - intros x e Hin Hst He Hle. exists (finish now x).
    rewrite (findById_reconciled now s x Hnd Hin). unfold reconciled.
    assert (Hex : expired now x = true) by (apply expired_spec; eauto).
    rewrite Hex. auto.
  - intros x Hin Hno.
    rewrite (findById_reconciled now s x Hnd Hin). unfold reconciled.
    destruct (expired now x) eqn:Hex; [|reflexivity].
    apply expired_spec in Hex. tauto.
  - rewrite (proj1 (completeExpiringTimers_spec now s Hnd)), map_map.
    apply map_ext. intros x. apply id_reconciled.
  - intros tDec Hp. now apply handleTick_returns.
  - intros uuid_schema call s' done x e Hc Hin Hst He Hle.
    eapply completed_list_Ok; eauto. apply expired_spec. eauto.
Qed.

(** C3, against the code.  The store part of the claim holds
    ([reconciliation_reported]); the report does not reach the caller of a
    call that throws.  Every method of the facade runs [handleTick] first
    and puts its list into the result it returns, but the list is a local
    value: when the argument is refused by the schema or the store method
    throws, the call ends without a result.  Timer "a" of one second and
    timer "b" of a minute are started at 0.  At 5000 "a" is still stored as
    running with [endsAt] 1000.  [resumeTimer("b")] at 5000 throws, "b"
    being not paused: its tick has completed "a" in the store by then.  The
    next call, [listTimers()] at 6000, finds nothing to complete and has an
    empty [completed] list: no call reports that "a" has finished.
    [pauseTimer("b")] at 5000 in place of the resume returns a result, and
    "a" is in its [completed] list. *)
Theorem C3_completion_lost :
  exists s' s'' listed,
    (exists x, findById "a" (run two_timers fresh) = Some x /\
               status x = running /\ endsAt x = Some 1000) /\
    resumeTimer 5000 5000 5000 "b" (run two_timers fresh) =
      (s', Throw OnlyPausedResumed) /\
    (exists y, findById "a" s' = Some y /\ status y = completed /\
               remainingMs y = 0 /\ endsAt y = Some (formatISO 5000)) /\
    listTimers 6000 6000 s' = (s'', Ok (listed, [])) /\
    (exists s1 r,
        pauseTimer 5000 5000 5000 "b" (run two_timers fresh) = (s1, Ok r) /\
        map id (completed_of r) = ["a"%string]).
Proof.
  eexists _, _, _.
  split; [eexists; split; [vm_compute; reflexivity|]; split; reflexivity|].
  split; [vm_compute; reflexivity|].
  split; [eexists; split; [vm_compute; reflexivity|];
          repeat split; reflexivity|].
  split; [vm_compute; reflexivity|].
  eexists _, _. split; [vm_compute; reflexivity|]. reflexivity.
Qed.

(** ** Properties of the timers that every call preserves *)

Section Preservation.

Variable P : Timer -> Prop.

Lemma Forall_map_set u m : P u -> Forall P m -> Forall P (map_set u m).
Proof.
  intros Hu Hm. apply Forall_forall. intros x Hx.
  destruct (In_map_set _ _ _ Hx) as [->|Hin]; [exact Hu|].
  now apply (proj1 (Forall_forall P m) Hm).
Qed.

Lemma Forall_stored s u : P u -> Forall P (timers s) -> Forall P (timers (stored s u)).
Proof.
  intros Hu Hs. unfold stored. rewrite timers_emitChange. simpl.
  now apply Forall_map_set.
Qed.

Lemma Forall_fold_complete_expired now l m done :
  (forall x, In x l -> expired now x = true -> P (finish now x)) ->
  Forall P m ->
  Forall P (fst (fold_left (complete_step now) l (m, done))).
Proof.
  revert m done. induction l as [|x l IH]; intros m done Hl Hm; simpl.
  - exact Hm.
  - unfold complete_step at 2. destruct (expired now x) eqn:E; simpl.
    + apply IH; [intros y Hy; apply Hl; now right|].
      apply Forall_map_set; [apply Hl; [now left|exact E]|exact Hm].
    + apply IH; [intros y Hy; apply Hl; now right|exact Hm].
Qed.

(** A property that the timer of every update has, given that the timer
    updated had it, holds of all timers after a call when it held of all
    timers before. *)
Lemma Forall_step o s :
  Forall P (timers s) ->
  (forall now uuid input fallback,
      o = OpStart now uuid input -> P (started now uuid input fallback)) ->
  (forall now key x,
      o = OpPause now key -> P x -> status x = running ->
      P (paused_at now x)) ->
  (forall now key x,
      o = OpResume now key -> P x -> status x = paused ->
      P (resumed_at now x)) ->
  (forall key x, o = OpCancel key -> P x -> P (cancelled_of x)) ->
  (forall now key extraMs x,
      o = OpExtend now key extraMs -> P x ->
      status x = running \/ status x = paused ->
      P (extended_by now extraMs x)) ->
  (forall now x,
      o = OpTick now -> P x -> expired now x = true -> P (finish now x)) ->
  Forall P (timers (step s o)).
Proof.
  intros Hs Hstart Hpause Hresume Hcancel Hextend Htick.
  pose proof (proj1 (Forall_forall P (timers s)) Hs) as Hin.
  destruct o as [now uuid input|now key|now key|key|now key extraMs|now];
    simpl.
  - unfold start.
    destruct (Z.of_nat (List.length (getActive s)) >=? maxConcurrent s);
      simpl; [exact Hs|].
    rewrite timers_emitChange. simpl.
    apply Forall_map_set; [|exact Hs]. eapply Hstart. reflexivity.
  - destruct (findById key s) as [x|] eqn:Hf.
    + destruct (status x) eqn:Hst;
        try (unfold pause, bind, requireTimer; unfold findById in Hf;
             rewrite Hf, Hst; exact Hs).
      rewrite (pause_running key s x Hf now Hst). simpl.
      apply Forall_stored; [|exact Hs].
      eapply Hpause; eauto. apply Hin. eapply map_get_In, Hf.
    + unfold pause, bind, requireTimer. unfold findById in Hf.
      rewrite Hf. exact Hs.
  - destruct (findById key s) as [x|] eqn:Hf.
    + destruct (status x) eqn:Hst;
        try (unfold resume, bind, requireTimer; unfold findById in Hf;
             rewrite Hf, Hst; exact Hs).
      rewrite (resume_paused key s x Hf now Hst). simpl.
      apply Forall_stored; [|exact Hs].
      eapply Hresume; eauto. apply Hin. eapply map_get_In, Hf.
    + unfold resume, bind, requireTimer. unfold findById in Hf.
      rewrite Hf. exact Hs.
  - destruct (findById key s) as [x|] eqn:Hf.
    + rewrite (cancel_found key s x Hf). simpl.
      apply Forall_stored; [|exact Hs].
      eapply Hcancel; eauto. apply Hin. eapply map_get_In, Hf.
    + unfold cancel, bind, requireTimer. unfold findById in Hf.
      rewrite Hf. exact Hs.
  - destruct (findById key s) as [x|] eqn:Hf.
    + destruct (status x) eqn:Hst;
        try (unfold extend, bind, requireTimer; unfold findById in Hf;
             rewrite Hf, Hst; exact Hs).
      * rewrite (extend_active key s x Hf now extraMs (or_introl Hst)).
        simpl. apply Forall_stored; [|exact Hs].
        eapply Hextend; eauto. apply Hin. eapply map_get_In, Hf.
      * rewrite (extend_active key s x Hf now extraMs (or_intror Hst)).
        simpl. apply Forall_stored; [|exact Hs].
        eapply Hextend; eauto. apply Hin. eapply map_get_In, Hf.
    + unfold extend, bind, requireTimer. unfold findById in Hf.
      rewrite Hf. exact Hs.
  - unfold completeExpiringTimers.
    pose proof (Forall_fold_complete_expired now (timers s) (timers s) []) as H.
    destruct (fold_left (complete_step now) (timers s) (timers s, []))
      as [m done]. simpl in H.
    assert (Hm : Forall P m).
    { apply H; [|exact Hs]. intros x Hx Hex. eapply Htick; eauto. }
    destruct done; simpl; [exact Hm|]. rewrite timers_emitChange. exact Hm.
Qed.

(** The same, where the timer that a call updates is known to be the one
    under the key of the call. *)
Lemma Forall_step_keyed o s :
  Forall P (timers s) ->
  (forall now uuid input fallback,
      o = OpStart now uuid input -> P (started now uuid input fallback)) ->
  (forall now key x,
      o = OpPause now key -> id x = key -> P x -> status x = running ->
      P (paused_at now x)) ->
  (forall now key x,
      o = OpResume now key -> id x = key -> P x -> status x = paused ->
      P (resumed_at now x)) ->
  (forall key x,
      o = OpCancel key -> id x = key -> P x -> P (cancelled_of x)) ->
  (forall now key extraMs x,
      o = OpExtend now key extraMs -> id x = key -> P x ->
      status x = running \/ status x = paused ->
      P (extended_by now extraMs x)) ->
  (forall now x,
      o = OpTick now -> P x -> expired now x = true -> P (finish now x)) ->
  Forall P (timers (step s o)).
Proof.
  intros Hs Hstart Hpause Hresume Hcancel Hextend Htick.
  pose proof (proj1 (Forall_forall P (timers s)) Hs) as Hin.
  destruct o as [now uuid input|now key|now key|key|now key extraMs|now];
    simpl.
  - apply (Forall_step (OpStart now uuid input) s); auto;
      intros; discriminate.
  - destruct (findById key s) as [x|] eqn:Hf.
    + destruct (status x) eqn:Hst;
        try (unfold pause, bind, requireTimer; unfold findById in Hf;
             rewrite Hf, Hst; exact Hs).
      rewrite (pause_running key s x Hf now Hst). simpl.
      apply Forall_stored; [|exact Hs].
      eapply Hpause; eauto; [eapply map_get_id, Hf|].
      apply Hin. eapply map_get_In, Hf.
    + unfold pause, bind, requireTimer. unfold findById in Hf.
      rewrite Hf. exact Hs.
  - destruct (findById key s) as [x|] eqn:Hf.
    + destruct (status x) eqn:Hst;
        try (unfold resume, bind, requireTimer; unfold findById in Hf;
             rewrite Hf, Hst; exact Hs).
      rewrite (resume_paused key s x Hf now Hst). simpl.
      apply Forall_stored; [|exact Hs].
      eapply Hresume; eauto; [eapply map_get_id, Hf|].
      apply Hin. eapply map_get_In, Hf.
    + unfold resume, bind, requireTimer. unfold findById in Hf.
      rewrite Hf. exact Hs.
  - destruct (findById key s) as [x|] eqn:Hf.
    + rewrite (cancel_found key s x Hf). simpl.
      apply Forall_stored; [|exact Hs].
      eapply Hcancel; eauto; [eapply map_get_id, Hf|].
      apply Hin. eapply map_get_In, Hf.
    + unfold cancel, bind, requireTimer. unfold findById in Hf.
      rewrite Hf. exact Hs.
  - destruct (findById key s) as [x|] eqn:Hf.
    + destruct (status x) eqn:Hst;
        try (unfold extend, bind, requireTimer; unfold findById in Hf;
             rewrite Hf, Hst; exact Hs).
      * rewrite (extend_active key s x Hf now extraMs (or_introl Hst)).
        simpl. apply Forall_stored; [|exact Hs].
        eapply Hextend; eauto; [eapply map_get_id, Hf|].
        apply Hin. eapply map_get_In, Hf.
      * rewrite (extend_active key s x Hf now extraMs (or_intror Hst)).
        simpl. apply Forall_stored; [|exact Hs].
        eapply Hextend; eauto; [eapply map_get_id, Hf|].
        apply Hin. eapply map_get_In, Hf.
    + unfold extend, bind, requireTimer. unfold findById in Hf.
      rewrite Hf. exact Hs.
  - apply (Forall_step (OpTick now) s); auto; intros; discriminate.
Qed.

End Preservation.

(** ** Histories *)

Section Histories.

Lemma Forall_run (P : Timer -> Prop) (Q : Op -> Prop) :
  (forall o s, Q o -> Forall P (timers s) -> Forall P (timers (step s o))) ->
  forall ops s,
    Forall Q ops -> Forall P (timers s) -> Forall P (timers (run ops s)).
Proof.
  intros Hstep. induction ops as [|o ops IH]; intros s Hq Hs; simpl.
  - exact Hs.
  - inversion Hq; subst. apply IH; auto.
Qed.

Lemma endsAt_rule_step o s :
  Forall endsAt_rule (timers s) -> Forall endsAt_rule (timers (step s o)).
Proof.
  intros Hs. apply Forall_step; try exact Hs; unfold endsAt_rule.
  - intros. simpl. split; [auto|congruence].
  - intros. simpl. split; [congruence|intros [|]; discriminate].
  - intros. simpl. split; [auto|congruence].
  - intros. simpl. split; [congruence|intros [|]; discriminate].
  - intros now key extraMs x _ Hx Hst. unfold extended_by.
    destruct (_ =? 0); simpl; [split; [auto|congruence]|].
    destruct Hst as [Hst|Hst]; rewrite Hst; simpl.
    + split; [auto|congruence].
    + rewrite Hst in Hx. split; [|intros [|]; discriminate].
      intros H. apply Hx in H. destruct H; discriminate.
  - intros. simpl. split; [auto|congruence].
Qed.

Lemma remaining_rule_step o s :
  positive_start o ->
  Forall remaining_rule (timers s) ->
  Forall remaining_rule (timers (step s o)).
Proof.
  intros Hpos Hs. apply Forall_step; try exact Hs; unfold remaining_rule.
  - intros now uuid input fallback ->. simpl in *.
    split; [lia|intros [|]; discriminate].
  - intros now key x _ [Hx _] _. simpl.
    split; [|intros [|]; discriminate].
    unfold computeRemaining. destruct (endsAt x); lia.
  - intros now key x _ [Hx _] _. simpl.
    split; [exact Hx|intros [|]; discriminate].
  - intros. simpl. split; [lia|reflexivity].
  - intros now key extraMs x _ [Hx _] Hst. unfold extended_by.
    destruct (Z.eqb_spec (Z.max (current_remaining now x + extraMs) 0) 0);
      simpl; [split; [lia|reflexivity]|].
    destruct Hst as [Hst|Hst]; rewrite Hst; simpl;
      (split; [lia|intros [|]; discriminate]).
  - intros. simpl. split; [lia|reflexivity].
Qed.

Lemma within_duration_later c c' x :
  c <= c' -> within_duration c x -> within_duration c' x.
Proof.
  intros Hle (H0 & H1 & H2). repeat split; auto.
  intros Hst. destruct (H2 Hst) as (e & He & Hb). exists e. split; [auto|lia].
Qed.

(** The timer under one key stays within its duration, whatever is done to
    the other timers. *)
Lemma within_duration_step_of k now o s :
  op_time o = Some now \/ op_time o = None ->
  positive_start_of k o -> never_lengthens_of k o ->
  Forall (fun y => id y = k -> within_duration now y) (timers s) ->
  Forall (fun y => id y = k -> within_duration now y) (timers (step s o)).
Proof.
  intros Hnow Hpos Hshort Hs.
  apply Forall_step_keyed; try exact Hs; unfold within_duration.
  - intros t0 uuid input fallback -> Hid. simpl in *.
    specialize (Hpos Hid).
    destruct Hnow as [[= ->]|[=]].
    repeat split; try lia. intros _. eexists. split; [reflexivity|].
    unfold addMilliseconds.
    pose proof (formatISO_bounds (now + in_durationMs input)). lia.
  - intros t0 key x -> _ Hx Hst Hid. simpl in *.
    destruct (Hx Hid) as (H0 & H1 & H2).
    destruct Hnow as [[= ->]|[=]].
    repeat split; try lia; [|discriminate].
    unfold computeRemaining, differenceInMilliseconds.
    destruct (H2 Hst) as (e & -> & He). lia.
  - intros t0 key x -> _ Hx Hst Hid. simpl in *.
    destruct (Hx Hid) as (H0 & H1 & H2).
    destruct Hnow as [[= ->]|[=]].
    repeat split; try lia. intros _. eexists. split; [reflexivity|].
    unfold addMilliseconds.
    pose proof (formatISO_bounds (now + remainingMs x)). lia.
  - intros key x _ _ Hx Hid. simpl in *.
    destruct (Hx Hid) as (H0 & H1 & H2).
    repeat split; try lia. discriminate.
  - intros t0 key extraMs x -> Hkey Hx Hst Hid.
    rewrite id_extended_by in Hid.
    destruct (Hx Hid) as (H0 & H1 & H2). simpl in *.
    assert (Hle : extraMs <= 0) by (apply Hshort; congruence).
    destruct Hnow as [[= ->]|[=]].
    assert (Hcur : current_remaining now x <= durationMs x).
    { unfold current_remaining, computeRemaining, differenceInMilliseconds.
      destruct Hst as [Hst|Hst]; rewrite Hst; [|exact H1].
      destruct (H2 Hst) as (e & -> & He). lia. }
    unfold extended_by.
    destruct (Z.eqb_spec (Z.max (current_remaining now x + extraMs) 0) 0);
      simpl; [repeat split; try lia; discriminate|].
    destruct Hst as [Hst|Hst]; rewrite Hst; simpl.
    + repeat split; try lia. intros _. eexists. split; [reflexivity|].
      unfold addMilliseconds.
      pose proof (formatISO_bounds
                    (now + Z.max (current_remaining now x + extraMs) 0)).
      lia.
    + repeat split; try lia. discriminate.
  - intros t0 x _ Hx _ Hid. simpl in *.
    destruct (Hx Hid) as (H0 & H1 & H2).
    repeat split; try lia. discriminate.
Qed.

Lemma within_duration_run_of k ops :
  forall c s,
    chronological c ops ->
    Forall (positive_start_of k) ops -> Forall (never_lengthens_of k) ops ->
    Forall (fun y => id y = k -> within_duration c y) (timers s) ->
    Forall (fun y => id y = k -> within_duration (last_time c ops) y)
      (timers (run ops s)).
Proof.
  induction ops as [|o ops IH]; intros c s Hch Hpos Hshort Hs; simpl.
  - exact Hs.
  - inversion Hpos; subst. inversion Hshort; subst. simpl in Hch.
    unfold last_time. simpl. fold (last_time (match op_time o with
                                              | Some now => now
                                              | None => c end) ops).
    destruct (op_time o) as [now|] eqn:Ht.
    + destruct Hch as [Hle Hch]. apply IH; auto.
      apply within_duration_step_of; auto.
      eapply Forall_impl; [|exact Hs].
      intros x Hx Hid. eapply within_duration_later; [exact Hle|auto].
    + apply IH; auto. apply within_duration_step_of; auto.
Qed.

End Histories.

(** ** The rules of the timers of a store *)

Lemma endsAt_rule_run ops s0 :
  Forall endsAt_rule (timers s0) -> Forall endsAt_rule (timers (run ops s0)).
Proof.
  intros H0. apply (Forall_run endsAt_rule (fun _ => True)).
  - intros o s _. apply endsAt_rule_step.
  - apply Forall_forall. auto.
  - exact H0.
Qed.

Lemma remaining_rule_run ops s0 :
  Forall remaining_rule (timers s0) -> Forall positive_start ops ->
  Forall remaining_rule (timers (run ops s0)).
Proof.
  intros H0 Hpos. apply (Forall_run remaining_rule positive_start).
  - intros o s. apply remaining_rule_step.
  - exact Hpos.
  - exact H0.
Qed.

(** The constructor keeps both rules when the timers it is given obey
    them. *)
Lemma Forall_new (P : Timer -> Prop) now options :
  (forall x, P x -> P (normalizeTimer x now)) ->
  (forall l, opt_initialTimers options = Some l -> Forall P l) ->
  Forall P (timers (new now options)).
Proof.
  intros Hn Hl. unfold new. simpl.
  destruct (opt_initialTimers options) as [l|]; [|constructor].
  specialize (Hl l eq_refl).
  assert (H : forall m, Forall P m ->
            Forall P (fold_left (fun m x => map_set (normalizeTimer x now) m) l m)).
  { induction l as [|x l IH]; intros m Hm; simpl; [exact Hm|].
    inversion Hl; subst. apply IH; [assumption|].
    apply Forall_map_set; auto. }
  apply H. constructor.
Qed.

Lemma endsAt_rule_normalize now x :
  endsAt_rule x -> endsAt_rule (normalizeTimer x now).
Proof.
  unfold endsAt_rule, normalizeTimer. intros H.
  destruct (status x) eqn:Hst; try (rewrite Hst; exact H).
  - destruct (endsAt x) as [e|] eqn:He; [|rewrite Hst, He; exact H].
    destruct (_ <=? 0); simpl; (split; [auto|congruence]).
  - simpl. split; [congruence|intros [|]; discriminate].
Qed.

Lemma remaining_rule_normalize now x :
  remaining_rule x -> remaining_rule (normalizeTimer x now).
Proof.
  unfold remaining_rule, normalizeTimer. intros [H0 H1].
  destruct (status x) eqn:Hst; try (rewrite Hst; split; assumption).
  - destruct (endsAt x) as [e|] eqn:He; [|rewrite Hst; split; assumption].
    destruct (Z.leb_spec (computeRemaining x now) 0); simpl.
    + split; [lia|reflexivity].
    + split; [lia|intros [|]; discriminate].
  - simpl. split; [exact H0|intros [|]; discriminate].
Qed.

(** C1, as the code has it.  In a store whose timers have an [endsAt]
    exactly when they are running or completed, as in one that begins
    without timers, that is so of every timer after any sequence of start,
    pause, resume, cancel, extend and completeExpiringTimers: a completed
    timer keeps the time it was completed at. *)
Theorem C1_endsAt_rule :
  forall (ops : list Op) (s0 : t) (x : Timer),
    Forall endsAt_rule (timers s0) ->
    In x (timers (run ops s0)) ->
    (endsAt x <> None <-> status x = running \/ status x = completed).
Proof.
  intros ops s0 x H0 Hin.
  exact (proj1 (Forall_forall _ _) (endsAt_rule_run ops s0 H0) x Hin).
Qed.

Lemma C1_endsAt_rule_witness :
  exists x, In x (timers (run expiry fresh)) /\
            (endsAt x <> None <-> status x = running \/ status x = completed).
Proof.
  eexists. split.
  - vm_compute. left. reflexivity.
  - apply (C1_endsAt_rule expiry fresh); [constructor|].
    vm_compute. left. reflexivity.
Defined.

(** C1 as stated fails: the timer that the reconciliation completed has an
    [endsAt] and is not running. *)
Lemma C1_completed_has_endsAt :
  exists x, In x (timers (run expiry fresh)) /\
            ~ (endsAt x <> None <-> status x = running).
Proof.
  eexists. split.
  - vm_compute. left. reflexivity.
  - simpl. intros [H _]. assert (Hc : completed = running) by (apply H; discriminate).
    discriminate.
Qed.

(** The half of the rule of [remainingMs] that every call keeps: in a
    store whose timers have [remainingMs >= 0], and [remainingMs = 0] when
    completed or cancelled, as in one that begins without timers, that is
    so of every timer after any sequence of calls whose starts have
    positive durations. *)
Lemma remaining_rule_holds :
  forall (ops : list Op) (s0 : t) (x : Timer),
    Forall remaining_rule (timers s0) ->
    Forall positive_start ops ->
    In x (timers (run ops s0)) ->
    0 <= remainingMs x /\
    (status x = completed \/ status x = cancelled -> remainingMs x = 0).
Proof.
  intros ops s0 x H0 Hpos Hin.
  exact (proj1 (Forall_forall _ _) (remaining_rule_run ops s0 H0 Hpos) x Hin).
Qed.

(** The other half holds of what [extend] leaves: a timer it leaves with
    [remainingMs = 0] is completed. *)
Lemma extend_zero_is_completed now extraMs x :
  status x = running \/ status x = paused ->
  remainingMs (extended_by now extraMs x) = 0 ->
  status (extended_by now extraMs x) = completed.
Proof.
  intros Hst. unfold extended_by.
  destruct (Z.eqb_spec (Z.max (current_remaining now x + extraMs) 0) 0)
    as [E|E]; [reflexivity|].
  destruct Hst as [Hst|Hst]; rewrite Hst; simpl; intros H; congruence.
Qed.

(** C4, against the code.  A timer of one second that is paused at the
    moment it ends, before a reconciliation has seen it, is paused with
    [remainingMs = 0]: [pause] keeps the remaining time that
    [computeRemaining] cut off at 0 and does not complete the timer, as
    [extend] and [normalizeTimer] do.  Through the facade this takes a
    clock that moves on between the tick of [pauseTimer] and its pause;
    with one reading for both, the tick completes the timer and the pause
    is refused. *)
Theorem C4_paused_with_nothing_left :
  (exists x, In x (timers (run late_pause fresh)) /\
             status x = paused /\ remainingMs x = 0 /\
             ~ (remainingMs x = 0 <->
                status x = completed \/ status x = cancelled)) /\
  (exists s' r,
      pauseTimer 999 1000 1000 "a" (run one_second fresh) = (s', Ok r) /\
      status (timer r) = paused /\ remainingMs (timer r) = 0) /\
  (exists s',
      pauseTimer 1000 1000 1000 "a" (run one_second fresh) =
        (s', Throw OnlyRunningPaused) /\
      exists x, findById "a" s' = Some x /\
                status x = completed /\ remainingMs x = 0).
Proof.
  split; [|split].
  - eexists. split; [vm_compute; left; reflexivity|].
    split; [reflexivity|]. split; [reflexivity|].
    simpl. intros [H _]. destruct (H eq_refl); discriminate.
  - eexists _, _. split; [vm_compute; reflexivity|]. split; reflexivity.
  - eexists. split; [vm_compute; reflexivity|].
    eexists. split; [vm_compute; reflexivity|]. split; reflexivity.
Qed.

(** ** The remaining time the facade reports *)

Section Decoration.

Lemma decorateTimer_fields now x :
  status (decorateTimer now x) = status x /\
  endsAt (decorateTimer now x) = endsAt x /\
  durationMs (decorateTimer now x) = durationMs x /\
  id (decorateTimer now x) = id x.
Proof.
  unfold decorateTimer.
  destruct (status x) eqn:E; simpl; auto.
  destruct (endsAt x) eqn:E'; simpl; auto.
Qed.

Lemma decorateTimer_running now x e :
  status x = running -> endsAt x = Some e ->
  remainingMs (decorateTimer now x) = Z.max (e - now) 0.
Proof.
  intros Hst He. unfold decorateTimer. rewrite Hst, He. reflexivity.
Qed.

Lemma In_getSnapshot now s x :
  In x (getSnapshot now s) <->
  exists x0, In x0 (timers s) /\ x = decorateTimer now x0.
Proof.
  unfold getSnapshot. rewrite in_map_iff. split.
  - intros (x0 & <- & H). exists x0. split; [now apply In_getAll|reflexivity].
  - intros (x0 & H & ->). exists x0. split; [reflexivity|now apply In_getAll].
Qed.

(** What the facade reports of a stored timer that is running. *)
Lemma reported_running ops s0 now x0 :
  Forall endsAt_rule (timers s0) ->
  In x0 (timers (run ops s0)) ->
  status x0 = running ->
  (exists e, endsAt x0 = Some e /\
             remainingMs (decorateTimer now x0) = Z.max (e - now) 0) /\
  0 <= remainingMs (decorateTimer now x0) /\
  (forall from,
      chronological from ops -> last_time from ops <= now ->
      Forall (positive_start_of (id x0)) ops ->
      Forall (never_lengthens_of (id x0)) ops ->
      Forall (fun y => id y = id x0 -> within_duration from y) (timers s0) ->
      remainingMs (decorateTimer now x0) <= durationMs x0).
Proof.
  intros H0 Hin Hst.
  destruct (endsAt x0) as [e|] eqn:He.
  2:{ pose proof (proj1 (Forall_forall _ _) (endsAt_rule_run ops s0 H0)
                    x0 Hin) as H.
      unfold endsAt_rule in H. rewrite He in H.
      destruct H as [_ H]. exfalso. apply H; auto. }
  rewrite (decorateTimer_running now x0 e Hst He).
  split; [eauto|]. split; [lia|].
  intros from Hch Hlast Hpos Hshort Hfrom.
  pose proof (within_duration_run_of (id x0) ops from s0 Hch Hpos Hshort
                Hfrom) as H.
  destruct (proj1 (Forall_forall _ _) H x0 Hin eq_refl) as (Hd & _ & Hr).
  destruct (Hr Hst) as (e' & He' & Hb).
  rewrite He in He'. injection He' as <-. lia.
Qed.

End Decoration.

(** The schema of the facade lets only positive durations through. *)
Lemma startTimerInput_positive a input :
  startTimerInput a = Ok input -> 0 < in_durationMs input.
Proof.
  unfold startTimerInput, durationSchema.
  set (m := match minutes (arg_duration a) with Some m => m | None => 0 end).
  set (sec := match seconds (arg_duration a) with Some x => x | None => 0 end).
  destruct ((0 <=? m) && (0 <=? sec) && (sec <=? 59) && ((0 <? m) || (0 <? sec)))
    eqn:E; [|discriminate].
  destruct (labelSchema (arg_label a) && _); [|discriminate].
  intros [= <-]. simpl. unfold toDurationMs. simpl.
  repeat rewrite andb_true_iff in E. rewrite orb_true_iff in E.
  destruct E as [[[H1 H2] H3] H4].
  apply Z.leb_le in H1, H2, H3.
  destruct H4 as [H4|H4]; apply Z.ltb_lt in H4; lia.
Qed.

(** The timer in the result of a call of the facade is a timer of the
    store after the call, decorated at the time [tDec]; the map after the
    call is the one that the tick and the method of the store leave. *)
Section FacadeResults.

(** A start that returns has stored the timer it returns, whatever the
    save does. *)
Lemma start_stored now uuid input s timer s' :
  start now uuid input s = (s', Ok timer) ->
  findById uuid s' = Some timer.
Proof.
  unfold start.
  destruct (Z.of_nat (List.length (getActive s)) >=? maxConcurrent s);
    [discriminate|].
  intros [= <- <-]. unfold findById. rewrite timers_emitChange. simpl.
  apply (map_get_set_same (started now uuid input (suggestLabel s))).
Qed.

(** The map after a call depends on the map and the limit only. *)
Lemma step_timers_only o s1 s2 :
  timers s1 = timers s2 -> maxConcurrent s1 = maxConcurrent s2 ->
  timers (step s1 o) = timers (step s2 o).
Proof.
  intros Ht Hm.
  destruct o as [now uuid input|now key|now key|key|now key extraMs|now];
    simpl.
  - unfold start, getActive, getAll, suggestLabel. rewrite Ht, Hm.
    destruct (_ >=? _); simpl; [exact Ht|].
    rewrite !timers_emitChange. simpl. rewrite ?Ht. reflexivity.
  - unfold pause, bind, requireTimer. rewrite Ht.
    destruct (map_get key (timers s2)) as [x|]; simpl; [|exact Ht].
    destruct (status x); simpl; try exact Ht.
    rewrite !timers_emitChange. simpl. rewrite ?Ht. reflexivity.
  - unfold resume, bind, requireTimer. rewrite Ht.
    destruct (map_get key (timers s2)) as [x|]; simpl; [|exact Ht].
    destruct (status x); simpl; try exact Ht.
    rewrite !timers_emitChange. simpl. rewrite ?Ht. reflexivity.
  - unfold cancel, bind, requireTimer. rewrite Ht.
    destruct (map_get key (timers s2)) as [x|]; simpl; [|exact Ht].
    rewrite !timers_emitChange. simpl. rewrite ?Ht. reflexivity.
  - unfold extend, bind, requireTimer. rewrite Ht.
    destruct (map_get key (timers s2)) as [x|]; simpl; [|exact Ht].
    destruct (status x); simpl; try exact Ht;
      rewrite !timers_emitChange; simpl; rewrite ?Ht; reflexivity.
  - unfold completeExpiringTimers. rewrite Ht.
    destruct (fold_left (complete_step now) (timers s2) (timers s2, []))
      as [m done].
    destruct done; simpl; [reflexivity|].
    now rewrite !timers_emitChange.
Qed.

Lemma maxConcurrent_waitForPersistence s s' r :
  waitForPersistence s = (s', r) -> maxConcurrent s' = maxConcurrent s.
Proof.
  unfold waitForPersistence.
  destruct (pendingPersist s); destruct (lastPersistError s) eqn:He; simpl;
    rewrite ?He; intros [= <- _]; reflexivity.
Qed.

Lemma maxConcurrent_tick now s :
  maxConcurrent (step s (OpTick now)) = maxConcurrent s.
Proof.
  simpl. unfold completeExpiringTimers.
  destruct (fold_left (complete_step now) (timers s) (timers s, []))
    as [m done].
  destruct done; simpl; [reflexivity|]. now rewrite maxConcurrent_emitChange.
Qed.

Lemma maxConcurrent_handleTick now tDec s s' r :
  handleTick now tDec s = (s', r) -> maxConcurrent s' = maxConcurrent s.
Proof.
  unfold handleTick, bind, completeExpiringTimers.
  destruct (fold_left (complete_step now) (timers s) (timers s, []))
    as [m done].
  destruct done; simpl.
  - now intros [= <- _].
  - destruct (waitForPersistence _) as [s2 [u|e]] eqn:Hw;
      intros [= <- _];
      rewrite (maxConcurrent_waitForPersistence _ _ _ Hw);
      now rewrite maxConcurrent_emitChange.
Qed.

Lemma timers_waitForPersistence s s' r :
  waitForPersistence s = (s', r) -> timers s' = timers s.
Proof.
  unfold waitForPersistence.
  destruct (pendingPersist s); destruct (lastPersistError s) eqn:He; simpl;
    rewrite ?He; intros [= <- _]; reflexivity.
Qed.

Lemma timers_handleTick now tDec s s' r :
  handleTick now tDec s = (s', r) -> timers s' = timers (step s (OpTick now)).
Proof.
  unfold handleTick, bind. simpl.
  destruct (completeExpiringTimers now s) as [s1 [done|e]]; simpl.
  - destruct done.
    + now intros [= <- _].
    + destruct (waitForPersistence s1) as [s2 [u|e]] eqn:Hw;
        intros [= <- _]; eapply timers_waitForPersistence; eauto.
  - now intros [= <- _].
Qed.

Lemma stored_result key s x res :
  findById key s = Some x -> id res = id x ->
  In res (timers (stored s res)).
Proof.
  intros Hf Hid.
  destruct (findById_stored key s x Hf res Hid) as (H & _).
  eapply map_get_In. exact H.
Qed.

Lemma pause_result now key s s' res :
  pause now key s = (s', Ok res) ->
  s' = step s (OpPause now key) /\ In res (timers s').
Proof.
  intros H. split; [simpl; now rewrite H|].
  destruct (findById key s) as [x|] eqn:Hf.
  - destruct (status x) eqn:Hst;
      try (unfold pause, bind, requireTimer in H; unfold findById in Hf;
           rewrite Hf, Hst in H; discriminate).
    rewrite (pause_running key s x Hf now Hst) in H.
    injection H as <- <-. now apply (stored_result key s x).
  - unfold pause, bind, requireTimer in H. unfold findById in Hf.
    rewrite Hf in H. discriminate.
Qed.

Lemma resume_result now key s s' res :
  resume now key s = (s', Ok res) ->
  s' = step s (OpResume now key) /\ In res (timers s').
Proof.
  intros H. split; [simpl; now rewrite H|].
  destruct (findById key s) as [x|] eqn:Hf.
  - destruct (status x) eqn:Hst;
      try (unfold resume, bind, requireTimer in H; unfold findById in Hf;
           rewrite Hf, Hst in H; discriminate).
    rewrite (resume_paused key s x Hf now Hst) in H.
    injection H as <- <-. now apply (stored_result key s x).
  - unfold resume, bind, requireTimer in H. unfold findById in Hf.
    rewrite Hf in H. discriminate.
Qed.

Lemma cancel_result key s s' res :
  cancel key s = (s', Ok res) ->
  s' = step s (OpCancel key) /\ In res (timers s').
Proof.
  intros H. split; [simpl; now rewrite H|].
  destruct (findById key s) as [x|] eqn:Hf.
  - rewrite (cancel_found key s x Hf) in H.
    injection H as <- <-. now apply (stored_result key s x).
  - unfold cancel, bind, requireTimer in H. unfold findById in Hf.
    rewrite Hf in H. discriminate.
Qed.

Lemma extend_result now key extraMs s s' res :
  extend now key extraMs s = (s', Ok res) ->
  s' = step s (OpExtend now key extraMs) /\ In res (timers s').
Proof.
  intros H. split; [simpl; now rewrite H|].
  destruct (findById key s) as [x|] eqn:Hf.
  - destruct (status x) eqn:Hst;
      try (unfold extend, bind, requireTimer in H; unfold findById in Hf;
           rewrite Hf, Hst in H; discriminate).
    + rewrite (extend_active key s x Hf now extraMs (or_introl Hst)) in H.
      injection H as <- <-.
      apply (stored_result key s x); [exact Hf|apply id_extended_by].
    + rewrite (extend_active key s x Hf now extraMs (or_intror Hst)) in H.
      injection H as <- <-.
      apply (stored_result key s x); [exact Hf|apply id_extended_by].
  - unfold extend, bind, requireTimer in H. unfold findById in Hf.
    rewrite Hf in H. discriminate.
Qed.

Lemma start_result now uuid input s s' res :
  start now uuid input s = (s', Ok res) ->
  s' = step s (OpStart now uuid input) /\ In res (timers s').
Proof.
  intros H. split; [simpl; now rewrite H|].
  eapply map_get_In. eapply (start_stored now uuid input s). exact H.
Qed.

Lemma pauseTimer_result tTick tOp tDec key s s' r :
  pauseTimer tTick tOp tDec key s = (s', Ok r) ->
  timers s' = timers (run [OpTick tTick; OpPause tOp key] s) /\
  exists x0, In x0 (timers s') /\ timer r = decorateTimer tDec x0.
Proof.
  unfold pauseTimer. intros H.
  apply bind_Ok in H as (s1 & done & Ht & H).
  apply bind_Ok in H as (s2 & res & Hp & H).
  apply bind_Ok in H as (s3 & u & Hw & H).
  injection H as <- <-. simpl.
  pose proof (maxConcurrent_handleTick _ _ _ _ _ Ht) as Hm.
  apply timers_handleTick in Ht. apply timers_waitForPersistence in Hw.
  apply pause_result in Hp as [-> Hin]. rewrite Hw.
  split; [|now exists res].
  apply (step_timers_only (OpPause tOp key) _ (step s (OpTick tTick)));
    [exact Ht|rewrite Hm; symmetry; apply maxConcurrent_tick].
Qed.

Lemma resumeTimer_result tTick tOp tDec key s s' r :
  resumeTimer tTick tOp tDec key s = (s', Ok r) ->
  timers s' = timers (run [OpTick tTick; OpResume tOp key] s) /\
  exists x0, In x0 (timers s') /\ timer r = decorateTimer tDec x0.
Proof.
  unfold resumeTimer. intros H.
  apply bind_Ok in H as (s1 & done & Ht & H).
  apply bind_Ok in H as (s2 & res & Hp & H).
  apply bind_Ok in H as (s3 & u & Hw & H).
  injection H as <- <-. simpl.
  pose proof (maxConcurrent_handleTick _ _ _ _ _ Ht) as Hm.
  apply timers_handleTick in Ht. apply timers_waitForPersistence in Hw.
  apply resume_result in Hp as [-> Hin]. rewrite Hw.
  split; [|now exists res].
  apply (step_timers_only (OpResume tOp key) _ (step s (OpTick tTick)));
    [exact Ht|rewrite Hm; symmetry; apply maxConcurrent_tick].
Qed.

Lemma cancelTimer_result tTick tDec key s s' r :
  cancelTimer tTick tDec key s = (s', Ok r) ->
  timers s' = timers (run [OpTick tTick; OpCancel key] s) /\
  exists x0, In x0 (timers s') /\ timer r = decorateTimer tDec x0.
Proof.
  unfold cancelTimer. intros H.
  apply bind_Ok in H as (s1 & done & Ht & H).
  apply bind_Ok in H as (s2 & res & Hp & H).
  apply bind_Ok in H as (s3 & u & Hw & H).
  injection H as <- <-. simpl.
  pose proof (maxConcurrent_handleTick _ _ _ _ _ Ht) as Hm.
  apply timers_handleTick in Ht. apply timers_waitForPersistence in Hw.
  apply cancel_result in Hp as [-> Hin]. rewrite Hw.
  split; [|now exists res].
  apply (step_timers_only (OpCancel key) _ (step s (OpTick tTick)));
    [exact Ht|rewrite Hm; symmetry; apply maxConcurrent_tick].
Qed.

Lemma extendTimer_result uuid_schema tTick tOp tDec a s s' r :
  extendTimer uuid_schema tTick tOp tDec a s = (s', Ok r) ->
  exists key extraMs,
    adjustTimerInput uuid_schema a = Ok (key, extraMs) /\
    timers s' = timers (run [OpTick tTick; OpExtend tOp key extraMs] s) /\
    exists x0, In x0 (timers s') /\ timer r = decorateTimer tDec x0.
Proof.
  unfold extendTimer. intros H.
  apply bind_Ok in H as (s1 & done & Ht & H).
  apply bind_Ok in H as (s1' & [key extraMs] & Ha & H).
  unfold lift in Ha. injection Ha as <- Ha.
  apply bind_Ok in H as (s2 & res & Hp & H).
  apply bind_Ok in H as (s3 & u & Hw & H).
  injection H as <- <-. simpl.
  pose proof (maxConcurrent_handleTick _ _ _ _ _ Ht) as Hm.
  apply timers_handleTick in Ht. apply timers_waitForPersistence in Hw.
  apply extend_result in Hp as [-> Hin]. rewrite Hw.
  exists key, extraMs. split; [exact Ha|].
  split; [|now exists res].
  apply (step_timers_only (OpExtend tOp key extraMs) _ (step s (OpTick tTick)));
    [exact Ht|rewrite Hm; symmetry; apply maxConcurrent_tick].
Qed.

Lemma startTimer_result tTick tOp tDec uuid a s s' r :
  startTimer tTick tOp tDec uuid a s = (s', Ok r) ->
  exists input,
    startTimerInput a = Ok input /\ 0 < in_durationMs input /\
    timers s' = timers (run [OpTick tTick; OpStart tOp uuid input] s) /\
    exists x0, In x0 (timers s') /\ timer r = decorateTimer tDec x0.
Proof.
  unfold startTimer. intros H.
  apply bind_Ok in H as (s1 & done & Ht & H).
  apply bind_Ok in H as (s1' & input & Ha & H).
  unfold lift in Ha. injection Ha as <- Ha.
  apply bind_Ok in H as (s2 & res & Hp & H).
  apply bind_Ok in H as (s3 & u & Hw & H).
  injection H as <- <-. simpl.
  pose proof (maxConcurrent_handleTick _ _ _ _ _ Ht) as Hm.
  apply timers_handleTick in Ht. apply timers_waitForPersistence in Hw.
  apply start_result in Hp as [-> Hin]. rewrite Hw.
  exists input. split; [exact Ha|].
  split; [now apply startTimerInput_positive with a|].
  split; [|now exists res].
  apply (step_timers_only (OpStart tOp uuid input) _ (step s (OpTick tTick)));
    [exact Ht|rewrite Hm; symmetry; apply maxConcurrent_tick].
Qed.

End FacadeResults.

(** C2, as the code has it.  Take a store whose timers had an [endsAt]
    exactly when running or completed at the outset (an empty store, or one
    that was made from a snapshot that a store saved), after any sequence of
    calls through which every timestamp in the store has been a date from
    1970 to the year 9999, the dates that [formatISO] writes and [new Date]
    reads back.  Take a timer [x] with status running as the facade reports
    it at time [now]: an entry of [getSnapshot()], or a stored timer as
    [decorateTimer] returns it in the result of a call.  Its [remainingMs]
    is [max (endsAt - now) 0] and is not negative.  It is at most its
    [durationMs] when the clock did not run backwards up to [now], this
    timer was started with a positive duration (or, being there at the
    outset, had no more than its [durationMs] left), and no [extend] of
    this timer had a positive delta, whatever was done to the other timers;
    an [extend] by a positive delta can lift it above [durationMs]. *)
Theorem C2_reported_remaining :
  forall (ops : list Op) (s0 : t) (now : Z) (x : Timer),
    Forall endsAt_rule (timers s0) ->
    dated_history ops s0 = true ->
    In x (getSnapshot now (run ops s0)) \/
      (exists x0, In x0 (timers (run ops s0)) /\ x = decorateTimer now x0) ->
    status x = running ->
    (exists e, endsAt x = Some e /\ remainingMs x = Z.max (e - now) 0) /\
    0 <= remainingMs x /\
    (forall from,
        chronological from ops -> last_time from ops <= now ->
        Forall (positive_start_of (id x)) ops ->
        Forall (never_lengthens_of (id x)) ops ->
        Forall (fun y => id y = id x -> within_duration from y) (timers s0) ->
        remainingMs x <= durationMs x).
Proof.
  intros ops s0 now x H0 _ Hx Hst.
  assert (Hx0 : exists x0, In x0 (timers (run ops s0)) /\ x = decorateTimer now x0).
  { destruct Hx as [Hx|Hx]; [now apply In_getSnapshot|exact Hx]. }
  destruct Hx0 as (x0 & Hin & ->).
  destruct (decorateTimer_fields now x0) as (Hs & He & Hd & Hi).
  rewrite Hs in Hst. rewrite He, Hd, Hi.
  now apply (reported_running ops s0 now x0).
Qed.

(** A timer of a minute, paused and resumed, while a second timer is
    given a minute more: the first is reported with no more than its
    minute. *)
Lemma C2_reported_remaining_witness :
  exists x,
    In x (getSnapshot 20000
            (run (paused_and_resumed ++
                  [OpStart 20000 "b" (for_ms 10000);
                   OpExtend 20000 "b" 60000]) fresh)) /\
    id x = "a"%string /\ status x = running /\
    (exists e, endsAt x = Some e /\ remainingMs x = Z.max (e - 20000) 0) /\
    0 <= remainingMs x /\
    remainingMs x <= durationMs x.
Proof.
  eexists. split; [vm_compute; left; reflexivity|].
  split; [reflexivity|]. split; [reflexivity|].
  destruct (C2_reported_remaining
              (paused_and_resumed ++
               [OpStart 20000 "b" (for_ms 10000); OpExtend 20000 "b" 60000])
              fresh 20000
              (mkTimer "a" "Timer 1" 60000 54000 running (Some 0) (Some 74000)
                 None (Some custom)))
    as (H1 & H2 & H3).
  - constructor.
  - vm_compute. reflexivity.
  - left. vm_compute. left. reflexivity.
  - reflexivity.
  - split; [exact H1|]. split; [exact H2|].
    apply (H3 0).
    + simpl. lia.
    + vm_compute. discriminate.
    + repeat constructor; simpl; (lia || discriminate || (intros; lia)).
    + repeat constructor; simpl; (lia || discriminate).
    + constructor.
Defined.

(** C2 as stated fails: a timer of ten seconds that was given a minute
    more is reported with 69 seconds left. *)
Lemma C2_lengthened_exceeds_duration :
  chronological 0 lengthened /\ last_time 0 lengthened <= 1000 /\
  exists x, In x (getSnapshot 1000 (run lengthened fresh)) /\
            status x = running /\
            ~ (remainingMs x <= durationMs x).
Proof.
  split; [simpl; lia|]. split; [vm_compute; discriminate|].
  eexists. split; [vm_compute; left; reflexivity|].
  split; [reflexivity|]. simpl. lia.
Qed.

(** ** Instances *)


Lemma C5_extend_to_completion_witness :
  exists s' updated,
    extend 2000 "a" (-10000) (run ten_seconds fresh) = (s', Ok updated) /\
    status updated = completed /\ remainingMs updated = 0 /\
    endsAt updated = Some 2000.
Proof.
  destruct (C5_extend_to_completion 2000 "a" (-10000) (run ten_seconds fresh)
              (mkTimer "a" "Timer 1" 10000 10000 running (Some 0) (Some 10000)
                 None (Some custom)) 8000)
    as (s' & updated & H & Hst & Hr & He & _).
  - reflexivity.
  - left. split; [reflexivity|]. exists 10000. split; reflexivity.
  - lia.
  - exists s', updated. auto.
Defined.

Lemma C6_pause_resume_witness :
  exists s1 p s2 q,
    pause 5300 "a" (run one_minute fresh) = (s1, Ok p) /\
    resume 20000 "a" s1 = (s2, Ok q) /\
    status q = running /\ remainingMs q = 54700 /\
    endsAt q = Some (formatISO 74700) /\
    53700 < computeRemaining q 20000 <= 54700.
Proof.
  destruct (C6_pause_resume 5300 20000 "a" (run one_minute fresh)
              (mkTimer "a" "Timer 1" 60000 60000 running (Some 0) (Some 60000)
                 None (Some custom)) 60000)
    as (s1 & p & s2 & q & H1 & _ & _ & _ & H2 & _ & H3 & H4 & H5 & _ & H6);
    try reflexivity.
  exists s1, p, s2, q. auto 10.
Defined.

(** C6 as stated fails: of the 54.7 seconds that the pause kept, 54 are
    left right after the resume, by the store's own reckoning and in what
    the facade reports. *)
Lemma C6_resume_loses_time :
  exists timer e s1 p s2 q,
    findById "a" (run one_minute fresh) = Some timer /\
    status timer = running /\ endsAt timer = Some e /\
    pause 5300 "a" (run one_minute fresh) = (s1, Ok p) /\
    resume 20000 "a" s1 = (s2, Ok q) /\
    Z.max (e - 5300) 0 = 54700 /\
    computeRemaining q 20000 = 54000 /\
    remainingMs (decorateTimer 20000 q) = 54000 /\
    ~ (computeRemaining q 20000 = Z.max (e - 5300) 0).
Proof.
  eexists _, _, _, _, _, _.
  split; [vm_compute; reflexivity|].
  split; [reflexivity|]. split; [reflexivity|].
  split; [vm_compute; reflexivity|].
  split; [vm_compute; reflexivity|].
  split; [reflexivity|]. split; [reflexivity|]. split; [reflexivity|].
  vm_compute. discriminate.
Qed.

Lemma reconciliation_reported_example :
  exists s' done x,
    completed_list (fun _ => true) 5000 (CallPause 5000 5000 "b")
      (run two_timers fresh) = (s', Ok done) /\
    In x (timers (run two_timers fresh)) /\ id x = "a"%string /\
    In (finish 5000 x) done.
Proof.
  eexists _, _, _.
  split; [vm_compute; reflexivity|].
  split; [vm_compute; left; reflexivity|].
  split; [reflexivity|].
  assert (Hwk : well_keyed (run two_timers fresh)).
  { unfold well_keyed. vm_compute.
    repeat constructor; simpl; intuition discriminate. }
  destruct (reconciliation_reported 5000 (run two_timers fresh) Hwk)
    as (_ & _ & _ & _ & H).
  eapply (H (fun _ => true) (CallPause 5000 5000 "b")).
  - vm_compute. reflexivity.
  - vm_compute. left. reflexivity.
  - reflexivity.
  - reflexivity.
  - lia.
Defined.

Lemma C10_reconciliation_idempotent_witness :
  completeExpiringTimers 5000
    (fst (completeExpiringTimers 5000 (run two_timers fresh))) =
  (fst (completeExpiringTimers 5000 (run two_timers fresh)), Ok []).
Proof.
  apply (C10_reconciliation_idempotent 5000 (run two_timers fresh)).
  unfold well_keyed. vm_compute.
  repeat constructor; simpl; intuition discriminate.
Defined.

(** ** Persistence failures *)

Section PersistenceFailures.

(** After a save that was rejected, the next wait throws the cause and
    empties the error slot. *)
Lemma wait_after_rejected_save s save cause :
  onChange s = Some save -> save (getAll s) = Some cause ->
  waitForPersistence (emitChange s) =
  (with_lastPersistError (emitChange s) None,
   Throw (PersistenceFailure cause)).
Proof.
  intros Hc Hs. unfold waitForPersistence, emitChange.
  rewrite Hc. simpl. rewrite Hs. reflexivity.
Qed.

(** After a save that was fulfilled, a wait returns. *)
Lemma wait_after_fulfilled_save s save :
  onChange s = Some save -> save (getAll s) = None ->
  waitForPersistence (emitChange s) = (emitChange s, Ok tt).
Proof.
  intros Hc Hs. unfold waitForPersistence, emitChange.
  rewrite Hc. simpl. rewrite Hs. reflexivity.
Qed.

(** As long as the latest save is a rejected one, every wait throws: the
    rejected promise fills the emptied error slot again. *)
Lemma wait_throws_again s cause :
  pendingPersist s = Some cause ->
  exists c,
    snd (waitForPersistence s) = Throw (PersistenceFailure c) /\
    pendingPersist (fst (waitForPersistence s)) = Some cause /\
    lastPersistError (fst (waitForPersistence s)) = None /\
    snd (waitForPersistence (fst (waitForPersistence s))) =
      Throw (PersistenceFailure cause).
Proof.
  intros Hp. unfold waitForPersistence. rewrite Hp.
  destruct (lastPersistError s) as [c0|] eqn:He; simpl.
  - rewrite He. simpl. rewrite Hp. simpl. eauto.
  - rewrite Hp. simpl. eauto.
Qed.

End PersistenceFailures.

(** C7, against the code.  In a store whose save is rejected, a start
    stores its timer all the same and the first [waitForPersistence] throws
    the error and empties the error slot; but a second
    [waitForPersistence], with no save in between, throws the same error
    again. *)
Theorem C7_error_delivered_twice :
  exists s1 timer s2 s3,
    start 0 "a" (for_ms 60000) failing = (s1, Ok timer) /\
    findById "a" s1 = Some timer /\ status timer = running /\
    waitForPersistence s1 = (s2, Throw (PersistenceFailure "EIO")) /\
    lastPersistError s2 = None /\
    waitForPersistence s2 = (s3, Throw (PersistenceFailure "EIO")).
Proof.
  eexists _, _, _, _.
  split; [vm_compute; reflexivity|].
  split; [reflexivity|]. split; [reflexivity|].
  split; [vm_compute; reflexivity|].
  split; [reflexivity|].
  vm_compute. reflexivity.
Qed.

(** ** The duration parser *)

Import Duration.

Section Parser.

(** Empty input, and input of white space only, is refused. *)
Lemma parse_empty input :
  trim (list_ascii_of_string input) = [] ->
  parseDurationSeconds input = Fails EmptyDuration.
Proof. intros H. unfold parseDurationSeconds. now rewrite H. Qed.

(** The [mm:ss] form. *)
Example parse_mmss :
  map parseDurationSeconds ["12:30"; " 1:05 "; "0:7"; "99:59"; "0:00"]%string
  = [Seconds 750; Seconds 65; Seconds 7; Seconds 5999; Fails NotPositive].
Proof. vm_compute. reflexivity. Qed.

(** Unit phrases add up; [and], commas and other text without digits may
    stand between them; a number without a unit is refused. *)
Example parse_units :
  map parseDurationSeconds
    ["1h 30m"; "1 hour and 30 minutes, 5 s"; "2 HRS"; "90 secs";
     "1.5 min"; "1h30m"; "5 m 3"; "0 minutes"]%string
  = [Seconds 5400; Seconds 5405; Seconds 7200; Seconds 90;
     Seconds 90; Fails CouldNotParse; Fails CouldNotParse;
     Fails NotPositive].
Proof. vm_compute. reflexivity. Qed.

Lemma parsed_eqb_eq a b : parsed_eqb a b = true -> a = b.
Proof.
  destruct a as [x|[]], b as [y|[]]; simpl; try discriminate; try reflexivity.
  intros H. apply Z.eqb_eq in H. now subst.
Qed.

Lemma mmss_checked :
  forallb (fun m => forallb (mmss_check m) (seq 0 60)) (seq 0 100) = true.
Proof. vm_compute. reflexivity. Qed.

(** Every input of the [mm:ss] form, minutes below 100 and seconds below
    60, parses as [mm * 60 + ss] seconds when that is positive, and is
    refused when it is zero. *)
Lemma parse_mmss_all m sec input :
  (m < 100)%nat -> (sec < 60)%nat -> In input (mmss_forms m sec) ->
  parseDurationSeconds input = mmss_expected m sec.
Proof.
  intros Hm Hs Hin. pose proof mmss_checked as H.
  rewrite forallb_forall in H.
  assert (Hm' : In m (seq 0 100)) by (apply in_seq; lia).
  specialize (H m Hm'). rewrite forallb_forall in H.
  assert (Hs' : In sec (seq 0 60)) by (apply in_seq; lia).
  specialize (H sec Hs'). unfold mmss_check in H.
  rewrite forallb_forall in H. now apply parsed_eqb_eq, H.
Qed.

(** *** Bare integers *)

Lemma digit_facts c :
  is_digit c = true ->
  is_space c = false /\ lower c = c /\ Ascii.eqb c colon = false /\
  Ascii.eqb c "."%char = false /\ Ascii.eqb c "-"%char = false /\
  Ascii.eqb c "+"%char = false /\ Ascii.eqb c "x"%char = false /\
  Ascii.eqb c "o"%char = false /\ Ascii.eqb c "b"%char = false /\
  0 <= digit_value c <= 9.
Proof.
  destruct c as [[] [] [] [] [] [] [] []]; try discriminate;
    intros _; vm_compute; intuition discriminate.
Qed.

Lemma drop_while_digits ds :
  forallb is_digit ds = true -> drop_while is_space ds = ds.
Proof.
  destruct ds as [|c ds]; simpl; [reflexivity|].
  intros H. apply andb_true_iff in H as [Hc _].
  now rewrite (proj1 (digit_facts c Hc)).
Qed.

Lemma forallb_rev (p : ascii -> bool) l :
  forallb p (rev l) = forallb p l.
Proof.
  induction l as [|c l IH]; simpl; [reflexivity|].
  rewrite forallb_app, IH. simpl. rewrite andb_true_r. apply andb_comm.
Qed.

Lemma normalize_digits ds :
  forallb is_digit ds = true -> toLowerCase (trim ds) = ds.
Proof.
  intros H. unfold trim.
  rewrite (drop_while_digits ds H).
  rewrite drop_while_digits by now rewrite forallb_rev.
  rewrite rev_involutive. unfold toLowerCase.
  induction ds as [|c ds IH]; simpl; [reflexivity|].
  simpl in H. apply andb_true_iff in H as [Hc Hds].
  destruct (digit_facts c Hc) as (_ & -> & _). now rewrite IH.
Qed.

Lemma match_mmss_digits ds :
  forallb is_digit ds = true -> match_mmss ds = None.
Proof.
  intros H. unfold match_mmss.
  destruct ds as [|d1 [|d2 [|c rest]]]; try reflexivity.
  - simpl in H. rewrite !andb_true_iff in H. destruct H as (_ & H2 & _).
    destruct (digit_facts d2 H2) as (_ & _ & -> & _).
    now rewrite andb_false_r.
  - simpl in H. rewrite !andb_true_iff in H. destruct H as (_ & H2 & H3 & _).
    destruct (digit_facts c H3) as (_ & _ & -> & _).
    destruct (digit_facts d2 H2) as (_ & _ & -> & _).
    now rewrite !andb_false_r.
Qed.

Lemma span_digits ds :
  forallb is_digit ds = true -> span is_digit ds = (ds, []).
Proof.
  induction ds as [|c ds IH]; simpl; [reflexivity|].
  intros H. apply andb_true_iff in H as [-> Hds]. now rewrite IH.
Qed.

Lemma exec_all_digits ds :
  forallb is_digit ds = true -> exec_all 0 ds = [].
Proof.
  induction ds as [|c ds IH]; [reflexivity|].
  intros H. simpl exec_all.
  assert (Hm : match_here (c :: ds) = None).
  { unfold match_here. rewrite (span_digits _ H). reflexivity. }
  rewrite Hm. apply IH. simpl in H. now apply andb_true_iff in H.
Qed.

Lemma non_decimal_digits ds :
  forallb is_digit ds = true -> non_decimal ds = None.
Proof.
  intros H. unfold non_decimal.
  destruct ds as [|z [|x [|y body]]]; try reflexivity.
  simpl in H. rewrite !andb_true_iff in H. destruct H as (_ & Hx & _).
  destruct (digit_facts x Hx) as (_ & -> & _ & _ & _ & _ & -> & -> & -> & _).
  now destruct (Ascii.eqb z "0").
Qed.

Lemma Math_round_integer v : Math_round (inject_Z v) = v.
Proof.
  unfold Math_round, Qfloor, inject_Z, Qplus. simpl.
  symmetry. apply Z.div_unique with (r := 1); lia.
Qed.

(** A run of decimal digits whose value [v] is positive and below [2^53],
    the range in which every integer is a double, parses as [v] seconds. *)
Lemma parse_bare_integer ds :
  ds <> [] -> forallb is_digit ds = true ->
  0 < digits_value ds < 2 ^ 53 ->
  parseDurationSeconds (string_of_list_ascii ds) = Seconds (digits_value ds).
Proof.
  intros Hne H Hv. unfold parseDurationSeconds.
  rewrite list_ascii_of_string_of_list_ascii, (normalize_digits ds H).
  destruct ds as [|c ds]; [congruence|].
  rewrite (match_mmss_digits _ H), (exec_all_digits _ H).
  assert (Hc : is_digit c = true) by (simpl in H; now apply andb_true_iff in H).
  destruct (digit_facts c Hc) as (_ & _ & _ & _ & Hminus & Hplus & _).
  unfold Number. rewrite (non_decimal_digits _ H), Hminus, Hplus.
  unfold unsigned_decimal. rewrite (span_digits _ H). cbv iota beta.
  unfold decimal_value. rewrite app_nil_r.
  change (0 - Z.of_nat (List.length (@nil ascii))) with 0.
  cbv iota beta. change (0 <=? 0) with true. cbv iota.
  rewrite Z.pow_0_r, Z.mul_1_r.
  set (v := digits_value (c :: ds)) in *.
  assert (Hover : overflows (inject_Z v) = false).
  { unfold overflows. destruct (Qle_bool _ _) eqn:E; [|reflexivity].
    apply Qle_bool_iff in E. rewrite <- Zle_Qle in E.
    assert (2 ^ 53 < 2 ^ 1024 - 2 ^ 970) by (vm_compute; reflexivity). lia. }
  assert (Hunder : underflows (inject_Z v) = false).
  { unfold underflows. destruct (Qle_bool _ _) eqn:E; [|reflexivity].
    apply Qle_bool_iff in E. unfold Qle in E. simpl in E. lia. }
  unfold to_double. rewrite Hover, Hunder.
  assert (Hpos : Qle_bool (inject_Z v) (inject_Z 0) = false).
  { destruct (Qle_bool _ _) eqn:E; [|reflexivity].
    apply Qle_bool_iff in E. rewrite <- Zle_Qle in E. lia. }
  rewrite Hpos. now rewrite Math_round_integer.
Qed.

Example parse_bare :
  map parseDurationSeconds ["5"; "90"; "007"; "0"; "-5"; "abc"]%string
  = [Seconds 5; Seconds 90; Seconds 7; Fails CouldNotParse;
     Fails CouldNotParse; Fails CouldNotParse].
Proof. vm_compute. reflexivity. Qed.

(** *** Unit phrases *)

Lemma unit_word_match w k rest :
  In (w, k) unit_words -> at_boundary rest = true ->
  match_unit unit_alternatives (list_ascii_of_string w ++ rest) =
  Some (list_ascii_of_string w, rest).
Proof.
  intros Hin Hb. simpl in Hin.
  repeat (destruct Hin as [Hin|Hin];
          [injection Hin as <- <-;
           (destruct rest as [|c r];
            [reflexivity
            |destruct c as [[] [] [] [] [] [] [] []];
             try discriminate Hb; reflexivity])
          |]).
  contradiction.
Qed.

Lemma unit_word_facts w k :
  In (w, k) unit_words ->
  multiplier_of (list_ascii_of_string w) = Some k /\ 0 < k <= 3600 /\
  (exists c tl, list_ascii_of_string w = c :: tl /\
                is_digit c = false /\ is_space c = false /\
                Ascii.eqb c "."%char = false) /\
  is_space (last (list_ascii_of_string w) "0"%char) = false /\
  Forall (fun c => lower c = c /\ Ascii.eqb c colon = false)
    (list_ascii_of_string w).
Proof.
  intros Hin. simpl in Hin.
  repeat (destruct Hin as [Hin|Hin];
          [injection Hin as <- <-;
           split; [reflexivity|]; split; [lia|];
           split; [eexists _, _; repeat split; reflexivity|];
           split; [reflexivity|repeat constructor]
          |]).
  contradiction.
Qed.

Lemma span_app_stop (p : ascii -> bool) a b :
  forallb p a = true ->
  match b with [] => True | c :: _ => p c = false end ->
  span p (a ++ b) = (a, b).
Proof.
  intros Ha Hb. induction a as [|c a IH]; simpl.
  - destruct b as [|c b]; [reflexivity|]. simpl. now rewrite Hb.
  - simpl in Ha. apply andb_true_iff in Ha as [-> Ha]. now rewrite IH.
Qed.

(** The pattern matches a phrase that a character outside [\w], or
    nothing, follows. *)
Lemma match_here_phrase p rest :
  well_formed p -> at_boundary rest = true ->
  match_here (phrase_text p ++ rest) = Some (match_of p).
Proof.
  intros (Hne & Hdig & _ & Hin) Hb.
  destruct p as [ds sp w k].
  cbn [amount spaced unit_word unit_seconds] in *.
  destruct (unit_word_facts _ _ Hin)
    as (_ & _ & (c & tl & Hw & Hc1 & Hc2 & Hc3) & _).
  pose proof (unit_word_match _ _ rest Hin Hb) as Hm.
  unfold match_here, match_of, phrase_text.
  cbn [amount spaced unit_word].
  set (u := list_ascii_of_string w) in *.
  rewrite <- !app_assoc.
  rewrite (span_app_stop is_digit ds);
    [|exact Hdig|destruct sp; cbn [app]; [reflexivity|now rewrite Hw]].
  destruct ds as [|d ds]; [congruence|].
  destruct sp; cbn [app].
  - change (Ascii.eqb " " ".") with false. cbv iota.
    change (" "%char :: u ++ rest) with ([" "%char] ++ u ++ rest) at 1.
    rewrite (span_app_stop is_space [" "%char] (u ++ rest));
      [|reflexivity|rewrite Hw; exact Hc2].
    rewrite Hm. f_equal. f_equal.
    cbn [List.length]. rewrite !length_app. cbn [List.length].
    rewrite length_app. lia.
  - assert (Hr : u ++ rest = c :: tl ++ rest) by now rewrite Hw.
    destruct (u ++ rest) as [|c' r'] eqn:E; [discriminate|].
    injection Hr as -> ->. rewrite Hc3. cbv iota.
    change (c :: tl ++ rest) with ([] ++ c :: tl ++ rest) at 1.
    rewrite (span_app_stop is_space [] (c :: tl ++ rest));
      [|reflexivity|exact Hc2].
    rewrite Hm. f_equal. f_equal.
    cbn [List.length]. rewrite !length_app. cbn [List.length].
    rewrite length_app, Hw. cbn [List.length]. lia.
Qed.

Lemma exec_all_skip a b : exec_all (List.length a) (a ++ b) = exec_all 0 b.
Proof. induction a as [|c a IH]; simpl; [reflexivity|exact IH]. Qed.

Lemma replace_units_skip a b :
  replace_units (List.length a) (a ++ b) = replace_units 0 b.
Proof. induction a as [|c a IH]; simpl; [reflexivity|exact IH]. Qed.

Lemma phrase_text_cons p :
  well_formed p ->
  exists c tl, phrase_text p = c :: tl /\ is_space c = false.
Proof.
  intros (Hne & Hdig & _). unfold phrase_text.
  destruct (amount p) as [|d ds]; [congruence|].
  simpl in Hdig. apply andb_true_iff in Hdig as [Hd _].
  exists d. eexists. split; [reflexivity|]. apply (digit_facts d Hd).
Qed.

Lemma exec_all_phrase p rest :
  well_formed p -> at_boundary rest = true ->
  exec_all 0 (phrase_text p ++ rest) = match_of p :: exec_all 0 rest.
Proof.
  intros Hwf Hb. pose proof (match_here_phrase p rest Hwf Hb) as Hm.
  destruct (phrase_text_cons p Hwf) as (c & tl & Hp & _).
  assert (Hlen : matched (match_of p) = S (List.length tl))
    by (unfold match_of; simpl; now rewrite Hp).
  rewrite Hp in *. cbn [app] in *. cbn [exec_all]. rewrite Hm, Hlen.
  cbn [Nat.sub]. rewrite Nat.sub_0_r. now rewrite exec_all_skip.
Qed.

Lemma replace_units_phrase p rest :
  well_formed p -> at_boundary rest = true ->
  replace_units 0 (phrase_text p ++ rest) = " "%char :: replace_units 0 rest.
Proof.
  intros Hwf Hb. pose proof (match_here_phrase p rest Hwf Hb) as Hm.
  destruct (phrase_text_cons p Hwf) as (c & tl & Hp & _).
  assert (Hlen : matched (match_of p) = S (List.length tl))
    by (unfold match_of; simpl; now rewrite Hp).
  rewrite Hp in *. cbn [app] in *. cbn [replace_units]. rewrite Hm, Hlen.
  cbn [Nat.sub]. rewrite Nat.sub_0_r. now rewrite replace_units_skip.
Qed.

(** The matches of a sequence of phrases are its phrases. *)
Lemma exec_all_phrases ps :
  Forall well_formed ps -> exec_all 0 (phrases_text ps) = map match_of ps.
Proof.
  induction 1 as [|p ps Hp Hps IH]; [reflexivity|].
  destruct ps as [|q ps].
  - simpl. rewrite <- (app_nil_r (phrase_text p)).
    now rewrite exec_all_phrase.
  - change (phrases_text (p :: q :: ps))
      with (phrase_text p ++ " "%char :: phrases_text (q :: ps)).
    rewrite exec_all_phrase by (exact Hp || reflexivity).
    change (exec_all 0 (" "%char :: phrases_text (q :: ps)))
      with (exec_all 0 (phrases_text (q :: ps))).
    now rewrite IH.
Qed.

(** What the clean-up leaves of a sequence of phrases is spaces. *)
Lemma replace_units_phrases ps :
  Forall well_formed ps ->
  exists n, replace_units 0 (phrases_text ps) = List.repeat " "%char n.
Proof.
  induction 1 as [|p ps Hp Hps [n IH]]; [now exists 0%nat|].
  destruct ps as [|q ps].
  - exists 1%nat. simpl. rewrite <- (app_nil_r (phrase_text p)).
    now rewrite replace_units_phrase.
  - exists (S (S n)).
    change (phrases_text (p :: q :: ps))
      with (phrase_text p ++ " "%char :: phrases_text (q :: ps)).
    rewrite replace_units_phrase by (exact Hp || reflexivity).
    change (replace_units 0 (" "%char :: phrases_text (q :: ps)))
      with (" "%char :: replace_units 0 (phrases_text (q :: ps))).
    now rewrite IH.
Qed.

Lemma replace_and_spaces n prev :
  replace_and 0 prev (List.repeat " "%char n) = List.repeat " "%char n.
Proof.
  revert prev. induction n as [|n IH]; intros prev; [reflexivity|].
  cbn [List.repeat replace_and]. cbn. now rewrite IH.
Qed.

Lemma replace_commas_spaces n :
  replace_commas (List.repeat " "%char n) = List.repeat " "%char n.
Proof.
  unfold replace_commas. induction n as [|n IH]; [reflexivity|].
  cbn [List.repeat map]. now rewrite IH.
Qed.

Lemma drop_while_spaces n :
  drop_while is_space (List.repeat " "%char n) = [].
Proof.
  induction n as [|n IH]; [reflexivity|].
  cbn [List.repeat drop_while]. change (is_space " ") with true. exact IH.
Qed.

Lemma no_leftover n :
  existsb is_digit
    (trim (replace_commas (replace_and 0 None (List.repeat " "%char n))))
  = false.
Proof.
  rewrite replace_and_spaces, replace_commas_spaces. unfold trim.
  now rewrite drop_while_spaces.
Qed.

Lemma last_app_nonempty (a b : list ascii) d :
  b <> [] -> last (a ++ b) d = last b d.
Proof.
  intros Hb. induction a as [|x a IH]; [reflexivity|].
  cbn [app last]. destruct (a ++ b) eqn:E; [|exact IH].
  apply app_eq_nil in E. tauto.
Qed.

Lemma trim_id l c tl :
  l = c :: tl -> is_space c = false ->
  is_space (last l "0"%char) = false -> trim l = l.
Proof.
  intros Hl Hc Hlast. unfold trim.
  assert (H1 : drop_while is_space l = l) by (rewrite Hl; simpl; now rewrite Hc).
  rewrite H1.
  assert (Hne : l <> []) by (rewrite Hl; discriminate).
  rewrite (app_removelast_last "0"%char Hne) at 1.
  rewrite rev_app_distr. cbn [rev app drop_while]. rewrite Hlast.
  change (last l "0"%char :: rev (removelast l))
    with (rev [last l "0"%char] ++ rev (removelast l)).
  rewrite <- rev_app_distr, rev_involutive.
  now rewrite <- (app_removelast_last "0"%char Hne).
Qed.

Lemma phrases_text_cons p ps :
  well_formed p ->
  exists c tl, phrases_text (p :: ps) = c :: tl /\ is_space c = false.
Proof.
  intros Hp. destruct (phrase_text_cons p Hp) as (c & tl & Ht & Hc).
  destruct ps as [|q ps]; cbn [phrases_text]; rewrite Ht.
  - eauto.
  - exists c. eexists. split; [reflexivity|exact Hc].
Qed.

Lemma phrases_text_last ps :
  ps <> [] -> Forall well_formed ps ->
  is_space (last (phrases_text ps) "0"%char) = false.
Proof.
  intros Hne H. induction H as [|p ps Hp Hps IH]; [congruence|].
  destruct ps as [|q ps].
  - destruct Hp as (_ & _ & _ & Hin).
    destruct (unit_word_facts _ _ Hin) as (_ & _ & (c & tl & Hw & _) & Hl & _).
    cbn [phrases_text]. unfold phrase_text.
    rewrite app_assoc, last_app_nonempty by (rewrite Hw; discriminate).
    exact Hl.
  - change (phrases_text (p :: q :: ps))
      with (phrase_text p ++ " "%char :: phrases_text (q :: ps)).
    rewrite last_app_nonempty by discriminate.
    inversion Hps as [|? ? Hq _]; subst.
    destruct (phrases_text_cons q ps Hq) as (c & tl & Ht & _).
    rewrite Ht in *. cbn [last]. apply IH. discriminate.
Qed.

(** The characters of a sequence of phrases are in lower case and are no
    colons. *)
Lemma phrases_text_plain ps :
  Forall well_formed ps ->
  Forall (fun c => lower c = c /\ Ascii.eqb c colon = false)
    (phrases_text ps).
Proof.
  assert (Hone : forall p, well_formed p ->
            Forall (fun c => lower c = c /\ Ascii.eqb c colon = false)
              (phrase_text p)).
  { intros p (_ & Hdig & _ & Hin). unfold phrase_text.
    apply Forall_app. split; [|apply Forall_app; split].
    - apply Forall_forall. intros c Hc.
      rewrite forallb_forall in Hdig.
      destruct (digit_facts c (Hdig c Hc)) as (_ & H1 & H2 & _). auto.
    - destruct (spaced p); repeat constructor.
    - apply (unit_word_facts _ _ Hin). }
  induction 1 as [|p ps Hp Hps IH]; [constructor|].
  destruct ps as [|q ps]; [now apply Hone|].
  change (phrases_text (p :: q :: ps))
    with (phrase_text p ++ " "%char :: phrases_text (q :: ps)).
  apply Forall_app. split; [now apply Hone|].
  constructor; [split; reflexivity|exact IH].
Qed.

Lemma toLowerCase_plain l :
  Forall (fun c => lower c = c /\ Ascii.eqb c colon = false) l ->
  toLowerCase l = l.
Proof.
  unfold toLowerCase. induction 1 as [|x l [Hx _] _ IH]; [reflexivity|].
  cbn [map]. now rewrite Hx, IH.
Qed.

Lemma match_mmss_no_colon l :
  Forall (fun c => lower c = c /\ Ascii.eqb c colon = false) l ->
  match_mmss l = None.
Proof.
  intros H. unfold match_mmss.
  destruct l as [|d1 [|d2 [|c rest]]]; try reflexivity.
  - inversion H as [|? ? _ H']; subst. inversion H' as [|? ? [_ E] _]; subst.
    rewrite E. now rewrite andb_false_r.
  - inversion H as [|? ? _ H']; subst. inversion H' as [|? ? [_ E] H'']; subst.
    inversion H'' as [|? ? [_ E'] _]; subst.
    rewrite E, E'. now rewrite !andb_false_r.
Qed.

Lemma Math_round_product a b : Math_round (inject_Z a * inject_Z b) = a * b.
Proof.
  unfold Math_round, Qfloor, inject_Z, Qplus, Qmult. simpl.
  symmetry. apply Z.div_unique with (r := 1); lia.
Qed.

Lemma contribution_phrase p :
  well_formed p -> contribution (match_of p) = phrase_seconds p.
Proof.
  intros (_ & _ & Hv & Hin).
  destruct (unit_word_facts _ _ Hin) as (Hm & _).
  unfold contribution, match_of, phrase_seconds. cbn [whole fraction unit_text].
  rewrite Hm. unfold decimal_value. rewrite app_nil_r.
  change (0 - Z.of_nat (List.length (@nil ascii))) with 0.
  change (0 <=? 0) with true. cbv iota. rewrite Z.pow_0_r, Z.mul_1_r.
  assert (Hover : overflows (inject_Z (digits_value (amount p))) = false).
  { unfold overflows. destruct (Qle_bool _ _) eqn:E; [|reflexivity].
    apply Qle_bool_iff in E. rewrite <- Zle_Qle in E.
    assert (2 ^ 40 < 2 ^ 1024 - 2 ^ 970) by (vm_compute; reflexivity). lia. }
  rewrite Hover. apply Math_round_product.
Qed.

Lemma totalFromUnits_phrases ps :
  Forall well_formed ps ->
  totalFromUnits (map match_of ps) = phrases_seconds ps.
Proof.
  intros H. unfold totalFromUnits.
  assert (G : forall acc,
            fold_left (fun total m => total + contribution m)
              (map match_of ps) acc = acc + phrases_seconds ps).
  { induction H as [|p ps Hp Hps IH]; intros acc; simpl; [lia|].
    rewrite IH, (contribution_phrase p Hp). lia. }
  now rewrite G.
Qed.

(** A sequence of unit phrases, a number of digits and a unit word each
    and a space between two of them, parses as the sum of its phrases,
    and is refused when the sum is zero. *)
Lemma parse_unit_phrases ps :
  ps <> [] -> Forall well_formed ps ->
  parseDurationSeconds (string_of_list_ascii (phrases_text ps)) =
  if phrases_seconds ps <=? 0 then Fails NotPositive
  else Seconds (phrases_seconds ps).
Proof.
  intros Hne Hwf. unfold parseDurationSeconds.
  rewrite list_ascii_of_string_of_list_ascii.
  destruct ps as [|p ps]; [congruence|].
  inversion Hwf as [|? ? Hp _]; subst.
  destruct (phrases_text_cons p ps Hp) as (c & tl & Ht & Hc).
  rewrite (trim_id _ c tl Ht Hc (phrases_text_last _ Hne Hwf)).
  rewrite (toLowerCase_plain _ (phrases_text_plain _ Hwf)).
  rewrite (match_mmss_no_colon _ (phrases_text_plain _ Hwf)).
  rewrite (exec_all_phrases _ Hwf).
  destruct (replace_units_phrases _ Hwf) as [n Hn]. rewrite Hn, no_leftover.
  rewrite Ht. cbn [map].
  change (match_of p :: map match_of ps) with (map match_of (p :: ps)).
  now rewrite (totalFromUnits_phrases _ Hwf).
Qed.

(** The sum of an hour, thirty minutes and five seconds. *)
Example parse_unit_phrases_instance :
  parseDurationSeconds "1 hour 30min 5 s" = Seconds 5405.
Proof.
  apply (parse_unit_phrases
           [ {| amount := ["1"%char]; spaced := true;
                unit_word := "hour"; unit_seconds := 3600 |};
             {| amount := ["3"%char; "0"%char]; spaced := false;
                unit_word := "min"; unit_seconds := 60 |};
             {| amount := ["5"%char]; spaced := true;
                unit_word := "s"; unit_seconds := 1 |} ]).
  - discriminate.
  - repeat (constructor;
            [unfold well_formed; cbn [amount spaced unit_word unit_seconds];
             split; [discriminate|]; split; [reflexivity|];
             split; [reflexivity|simpl; tauto]|]).
    constructor.
Qed.

End Parser.

(** C9, against the code.  A bare number is tested for being positive
    before it is rounded: for ["0.4"] the parser returns the total 0
    where a total that is not positive is to be refused, as the same
    amount with a unit, ["0.4s"], is. *)
Theorem C9_zero_total_returned :
  parseDurationSeconds "0.4" = Seconds 0 /\
  parseDurationSeconds "0.4s" = Fails NotPositive.
Proof. split; vm_compute; reflexivity. Qed.

(* ================================================================== *)
(** * Further properties *)

Import Laws ManagerLaws.

(** ** Numbers as text *)

Section Numerals.

Lemma uint_digits d :
  forallb is_digit (list_ascii_of_string (NilEmpty.string_of_uint d)) = true.
Proof. induction d; simpl; auto. Qed.

Lemma uint_value d acc :
  fold_left (fun a c => 10 * a + digit_value c)
    (list_ascii_of_string (NilEmpty.string_of_uint d)) (Z.of_nat acc)
  = Z.of_nat (Nat.of_uint_acc d acc).
Proof.
  revert acc.
  induction d; intros acc; cbn [NilEmpty.string_of_uint list_ascii_of_string
                                 fold_left Nat.of_uint_acc]; auto;
    rewrite <- IHd; f_equal; rewrite Nat.tail_mul_spec;
    unfold digit_value, code; cbn [N_of_ascii N_of_digits]; lia.
Qed.

Lemma show_digits n :
  0 <= n ->
  let ds := list_ascii_of_string (Text.show n) in
  ds <> [] /\ forallb is_digit ds = true /\ digits_value ds = n.
Proof.
  intros Hn ds. subst ds. unfold Text.show, string_of_nat.
  split; [|split].
  - pose proof (DecimalNat.Unsigned.of_to (Z.to_nat n)) as Hof.
    destruct (Nat.to_uint (Z.to_nat n)) eqn:Hd; try discriminate.
    simpl in Hof. rewrite <- Hof in Hd. discriminate.
  - apply uint_digits.
  - unfold digits_value. change 0 with (Z.of_nat 0).
    rewrite uint_value. change (Nat.of_uint_acc ?d 0) with (Nat.of_uint d).
    rewrite DecimalNat.Unsigned.of_to. lia.
Qed.

Lemma string_of_nat_inj a b : string_of_nat a = string_of_nat b -> a = b.
Proof.
  unfold string_of_nat. intros H.
  apply DecimalNat.Unsigned.to_uint_inj.
  pose proof (NilEmpty.usu (Nat.to_uint a)) as Ha.
  pose proof (NilEmpty.usu (Nat.to_uint b)) as Hb.
  rewrite H in Ha. congruence.
Qed.

End Numerals.

(** ** The listing and the labels *)

Section Listing.

Lemma startedAt_le_total a b :
  startedAt_le a b = false -> startedAt_le b a = true.
Proof.
  unfold startedAt_le. destruct (startedAt a), (startedAt b); try easy.
  intros H. apply Z.leb_gt in H. apply Z.leb_le. lia.
Qed.

Lemma startedAt_le_trans a b c :
  startedAt_le a b = true -> startedAt_le b c = true ->
  startedAt_le a c = true.
Proof.
  unfold startedAt_le.
  destruct (startedAt a), (startedAt b), (startedAt c); try easy.
  rewrite !Z.leb_le. lia.
Qed.

Lemma sort_insert_sorted a l :
  StronglySorted by_start l -> StronglySorted by_start (sort_insert a l).
Proof.
  induction 1 as [|x rest Hs IH Hx]; simpl.
  - repeat constructor.
  - destruct (startedAt_le a x) eqn:E.
    + constructor; [now constructor|].
      constructor; [exact E|].
      eapply Forall_impl; [|exact Hx].
      intros y Hy. eapply startedAt_le_trans; eassumption.
    + constructor; [exact IH|].
      eapply Permutation_Forall; [apply sort_insert_perm|].
      constructor; [now apply startedAt_le_total|exact Hx].
Qed.

Lemma sort_sorted l : StronglySorted by_start (sort_by_startedAt l).
Proof.
  induction l; simpl; [constructor|now apply sort_insert_sorted].
Qed.

Lemma sort_of_sorted l :
  StronglySorted by_start l -> sort_by_startedAt l = l.
Proof.
  induction 1 as [|a l Hs IH Ha]; [reflexivity|].
  cbn [sort_by_startedAt fold_right]. unfold sort_by_startedAt in IH.
  rewrite IH. destruct l as [|x rest]; [reflexivity|].
  cbn [sort_insert]. inversion Ha as [|? ? Hax _]; subst.
  unfold by_start in Hax. now rewrite Hax.
Qed.

Lemma sort_map (f : Timer -> Timer) l :
  (forall x, startedAt (f x) = startedAt x) ->
  sort_by_startedAt (map f l) = map f (sort_by_startedAt l).
Proof.
  intros Hf.
  assert (Hle : forall a b, startedAt_le (f a) (f b) = startedAt_le a b).
  { intros a b. unfold startedAt_le. now rewrite !Hf. }
  assert (Hins : forall a m,
             sort_insert (f a) (map f m) = map f (sort_insert a m)).
  { intros a m. induction m as [|x rest IH]; [reflexivity|].
    cbn [map sort_insert]. rewrite Hle.
    destruct (startedAt_le a x); [reflexivity|]. cbn [map]. now rewrite IH. }
  induction l as [|a l IH]; [reflexivity|].
  cbn [map sort_by_startedAt fold_right].
  unfold sort_by_startedAt in IH. now rewrite IH, Hins.
Qed.

End Listing.

Section Labels.

Lemma candidate_inj a b : candidate a = candidate b -> a = b.
Proof.
  unfold candidate. cbn [String.append]. intros H.
  injection H as H. now apply string_of_nat_inj.
Qed.

Lemma existsb_eqb c occupied :
  existsb (String.eqb c) occupied = true <-> In c occupied.
Proof.
  rewrite existsb_exists. split.
  - intros (x & Hx & E). apply String.eqb_eq in E. now subst.
  - intros H. exists c. split; [exact H|apply String.eqb_refl].
Qed.

Lemma suggestLabel_loop_spec occupied fuel counter first :
  (first <= counter)%nat ->
  (forall k, (first <= k < counter)%nat -> In (candidate k) occupied) ->
  (counter - first + fuel = List.length occupied)%nat ->
  exists n, (counter <= n)%nat /\
    suggestLabel_loop fuel occupied counter = candidate n /\
    (forall k, (first <= k < n)%nat -> In (candidate k) occupied) /\
    ~ In (candidate n) occupied.
Proof.
  revert counter. induction fuel as [|fuel IH]; intros counter Hle Hocc Hlen.
  - exists counter. split; [lia|]. split; [reflexivity|]. split; [exact Hocc|].
    intros Hin.
    assert (Hincl : incl (map candidate (seq first (S (counter - first))))
                      occupied).
    { intros c Hc. apply in_map_iff in Hc. destruct Hc as (k & <- & Hk).
      apply in_seq in Hk.
      destruct (Nat.eq_dec k counter) as [->|Hne]; [exact Hin|].
      apply Hocc. lia. }
    apply NoDup_incl_length in Hincl.
    + rewrite length_map, length_seq in Hincl. lia.
    + apply Finite.Injective_map_NoDup; [|apply seq_NoDup].
      intros a b. apply candidate_inj.
  - cbn [suggestLabel_loop]. fold (candidate counter).
    destruct (existsb (String.eqb (candidate counter)) occupied) eqn:E.
    + apply existsb_eqb in E.
      destruct (IH (S counter)) as (n & Hn & Heq & Hall & Hnot); try lia.
      * intros k Hk. destruct (Nat.eq_dec k counter) as [->|Hne];
          [exact E|apply Hocc; lia].
      * exists n. split; [lia|]. now split.
    + exists counter. split; [lia|]. split; [reflexivity|].
      split; [exact Hocc|]. intros Hin. apply existsb_eqb in Hin. congruence.
Qed.

(** X3. [suggestLabel] returns "Timer n" for the least n from 1 on that
    no timer of the map has as its label. *)
Theorem suggestLabel_least s :
  exists n, (1 <= n)%nat /\
    suggestLabel s = candidate n /\
    ~ In (suggestLabel s) (map label (timers s)) /\
    forall k, (1 <= k < n)%nat -> In (candidate k) (map label (timers s)).
Proof.
  unfold suggestLabel.
  destruct (suggestLabel_loop_spec (map label (timers s))
              (List.length (map label (timers s))) 1 1)
    as (n & Hn & Heq & Hall & Hnot); try lia.
  exists n. split; [exact Hn|]. split; [exact Heq|].
  split; [now rewrite Heq|exact Hall].
Qed.

End Labels.

(** ** The life of a timer *)

Section Lifecycle.

Lemma timers_stored s u : timers (stored s u) = map_set u (timers s).
Proof. unfold stored. now rewrite timers_emitChange. Qed.

Lemma maxConcurrent_stored s u : maxConcurrent (stored s u) = maxConcurrent s.
Proof. unfold stored. now rewrite maxConcurrent_emitChange. Qed.

(** What a call other than a tick does to the store: nothing, or one
    [set] of a timer and a save. *)
Lemma step_cases o s :
  step s o = s \/
  (exists now uuid input,
     o = OpStart now uuid input /\
     Z.of_nat (active_count s) < maxConcurrent s /\
     step s o = stored s (started now uuid input (suggestLabel s))) \/
  (exists k x u,
     findById k s = Some x /\ id x = k /\ step s o = stored s u /\
     ((exists now, o = OpPause now k /\ status x = running /\
                   u = paused_at now x) \/
      (exists now, o = OpResume now k /\ status x = paused /\
                   u = resumed_at now x) \/
      (o = OpCancel k /\ u = cancelled_of x) \/
      (exists now extraMs, o = OpExtend now k extraMs /\
                   (status x = running \/ status x = paused) /\
                   u = extended_by now extraMs x))) \/
  (exists now, o = OpTick now).
Proof.
  destruct o as [now uuid input|now k|now k|k|now k extraMs|now].
  - cbn [step]. unfold start. rewrite getActive_length.
    destruct (Z.of_nat (active_count s) >=? maxConcurrent s) eqn:E.
    + now left.
    + right; left. exists now, uuid, input. split; [reflexivity|].
      split; [|reflexivity].
      rewrite Z.geb_leb in E. apply Z.leb_gt in E. lia.
  - cbn [step]. destruct (findById k s) as [x|] eqn:Hf.
    + destruct (status x) eqn:Hst;
        try (left; unfold pause, bind, requireTimer;
             unfold findById in Hf; rewrite Hf, Hst; reflexivity).
      right; right; left. exists k, x, (paused_at now x).
      split; [exact Hf|]. split; [eapply map_get_id; exact Hf|].
      split; [now rewrite (pause_running k s x Hf now Hst)|].
      left. now exists now.
    + left. unfold pause, bind, requireTimer. unfold findById in Hf.
      now rewrite Hf.
  - cbn [step]. destruct (findById k s) as [x|] eqn:Hf.
    + destruct (status x) eqn:Hst;
        try (left; unfold resume, bind, requireTimer;
             unfold findById in Hf; rewrite Hf, Hst; reflexivity).
      right; right; left. exists k, x, (resumed_at now x).
      split; [exact Hf|]. split; [eapply map_get_id; exact Hf|].
      split; [now rewrite (resume_paused k s x Hf now Hst)|].
      right; left. now exists now.
    + left. unfold resume, bind, requireTimer. unfold findById in Hf.
      now rewrite Hf.
  - cbn [step]. destruct (findById k s) as [x|] eqn:Hf.
    + right; right; left. exists k, x, (cancelled_of x).
      split; [exact Hf|]. split; [eapply map_get_id; exact Hf|].
      split; [now rewrite (cancel_found k s x Hf)|].
      right; right; left. now split.
    + left. unfold cancel, bind, requireTimer. unfold findById in Hf.
      now rewrite Hf.
  - cbn [step]. destruct (findById k s) as [x|] eqn:Hf.
    + assert (Hcase : (status x = running \/ status x = paused) \/
                      (status x <> running /\ status x <> paused)).
      { destruct (status x); auto; right; split; discriminate. }
      destruct Hcase as [Hact|[Hn1 Hn2]].
      * right; right; left. exists k, x, (extended_by now extraMs x).
        split; [exact Hf|]. split; [eapply map_get_id; exact Hf|].
        split; [now rewrite (extend_active k s x Hf now extraMs Hact)|].
        right; right; right. now exists now, extraMs.
      * left. unfold extend, bind, requireTimer. unfold findById in Hf.
        rewrite Hf. destruct (status x); try reflexivity; congruence.
    + left. unfold extend, bind, requireTimer. unfold findById in Hf.
      now rewrite Hf.
  - right; right; right. now exists now.
Qed.

(** *** The number of active timers *)

Lemma active_set_inactive u m :
  is_active u = false ->
  (List.length (filter is_active (map_set u m))
   <= List.length (filter is_active m))%nat.
Proof.
  intros Hu. induction m as [|x rest IH]; cbn [map_set filter].
  - rewrite Hu. simpl. lia.
  - destruct (String.eqb (id x) (id u)); cbn [filter].
    + rewrite Hu. destruct (is_active x); simpl; lia.
    + destruct (is_active x); simpl; lia.
Qed.

Lemma active_set_active u m old :
  map_get (id u) m = Some old -> is_active old = true ->
  (List.length (filter is_active (map_set u m))
   <= List.length (filter is_active m))%nat.
Proof.
  intros Hget Hold. induction m as [|x rest IH]; [discriminate|].
  cbn [map_set map_get filter] in *.
  destruct (String.eqb (id x) (id u)); cbn [filter].
  - injection Hget as ->. rewrite Hold.
    destruct (is_active u); simpl; lia.
  - specialize (IH Hget). destruct (is_active x); simpl; lia.
Qed.

Lemma active_set_new u m :
  (List.length (filter is_active (map_set u m))
   <= S (List.length (filter is_active m)))%nat.
Proof.
  induction m as [|x rest IH]; cbn [map_set filter].
  - destruct (is_active u); simpl; lia.
  - destruct (String.eqb (id x) (id u)); cbn [filter].
    + destruct (is_active u), (is_active x); simpl; lia.
    + destruct (is_active x); simpl; lia.
Qed.

Lemma active_fold_complete now l acc :
  (List.length (filter is_active (fst (fold_left (complete_step now) l acc)))
   <= List.length (filter is_active (fst acc)))%nat.
Proof.
  revert acc. induction l as [|x rest IH]; intros acc; [simpl; lia|].
  cbn [fold_left]. etransitivity; [apply IH|].
  unfold complete_step. destruct (expired now x); [|lia].
  cbn [fst]. now apply active_set_inactive.
Qed.

Lemma timers_tick now s :
  timers (step s (OpTick now))
  = fst (fold_left (complete_step now) (timers s) (timers s, [])).
Proof.
  cbn [step]. unfold completeExpiringTimers.
  destruct (fold_left (complete_step now) (timers s) (timers s, []))
    as [m done].
  destruct done; cbn [fst]; [reflexivity|]. now rewrite timers_emitChange.
Qed.

Lemma active_count_step o s :
  Z.of_nat (active_count s) <= maxConcurrent s ->
  Z.of_nat (active_count (step s o)) <= maxConcurrent s.
Proof.
  intros H.
  destruct (step_cases o s)
    as [->|[(now & uuid & input & -> & Hlt & ->)
           |[(k & x & u & Hf & Hid & -> & Hop)|(now & ->)]]].
  - exact H.
  - unfold active_count. rewrite timers_stored.
    pose proof (active_set_new (started now uuid input (suggestLabel s))
                  (timers s)). unfold active_count in Hlt. lia.
  - unfold active_count. rewrite timers_stored.
    assert (Hx : id u = id x).
    { destruct Hop as [(now & _ & _ & ->)|[(now & _ & _ & ->)
                      |[(_ & ->)|(now & e & _ & _ & ->)]]];
        try reflexivity. apply id_extended_by. }
    assert (Hle : (List.length (filter is_active (map_set u (timers s)))
                   <= List.length (filter is_active (timers s)))%nat).
    { destruct (is_active u) eqn:Hu; [|now apply active_set_inactive].
      apply (active_set_active u (timers s) x).
      - rewrite Hx, Hid. exact Hf.
      - destruct Hop as [(now & _ & Hst & _)|[(now & _ & Hst & _)
                        |[(_ & ->)|(now & e & _ & [Hst|Hst] & _)]]];
          try (unfold is_active; now rewrite Hst).
        discriminate. }
    unfold active_count in H. lia.
  - unfold active_count. rewrite timers_tick.
    pose proof (active_fold_complete now (timers s) (timers s, [])) as Hle.
    cbn [fst] in Hle. unfold active_count in H. lia.
Qed.

Lemma maxConcurrent_step o s : maxConcurrent (step s o) = maxConcurrent s.
Proof.
  destruct (step_cases o s)
    as [->|[(now & uuid & input & -> & Hlt & ->)
           |[(k & x & u & Hf & Hid & -> & Hop)|(now & ->)]]];
    try reflexivity; try apply maxConcurrent_stored.
  apply maxConcurrent_tick.
Qed.

(** X4. The limit holds at all times: a store that has no more active
    timers than [maxConcurrent] never has more, whatever is called. *)
Theorem active_count_bounded ops s :
  Z.of_nat (active_count s) <= maxConcurrent s ->
  Z.of_nat (active_count (run ops s)) <= maxConcurrent s.
Proof.
  revert s. induction ops as [|o ops IH]; intros s H; [exact H|].
  cbn [run fold_left]. fold (run ops (step s o)).
  rewrite <- (maxConcurrent_step o s). apply IH.
  rewrite maxConcurrent_step. now apply active_count_step.
Qed.

Lemma active_count_bounded_witness :
  Z.of_nat (active_count (run five_timers fresh)) <= maxConcurrent fresh.
Proof. apply active_count_bounded. vm_compute. discriminate. Defined.

End Lifecycle.
Section Identity.

(** *** The keys of the map *)

Lemma map_set_ids_prefix u m :
  exists tail, map id (map_set u m) = map id m ++ tail.
Proof.
  induction m as [|x rest (tail & IH)]; cbn [map_set map].
  - now exists [id u].
  - destruct (String.eqb (id x) (id u)) eqn:E.
    + apply String.eqb_eq in E. exists []. cbn [map].
      now rewrite E, app_nil_r.
    + exists tail. cbn [map]. now rewrite IH.
Qed.

Lemma fold_complete_ids now l acc :
  exists tail,
    map id (fst (fold_left (complete_step now) l acc))
    = map id (fst acc) ++ tail.
Proof.
  revert acc. induction l as [|x rest IH]; intros acc.
  - exists []. now rewrite app_nil_r.
  - cbn [fold_left]. destruct (IH (complete_step now acc x)) as (t1 & H1).
    rewrite H1. unfold complete_step. destruct (expired now x).
    + cbn [fst]. destruct (map_set_ids_prefix (finish now x) (fst acc))
        as (t2 & H2).
      rewrite H2, <- app_assoc. now exists (t2 ++ t1).
    + now exists t1.
Qed.

Lemma step_ids o s :
  exists tail, map id (timers (step s o)) = map id (timers s) ++ tail.
Proof.
  destruct (step_cases o s)
    as [->|[(now & uuid & input & -> & Hlt & ->)
           |[(k & x & u & Hf & Hid & -> & Hop)|(now & ->)]]].
  - exists []. now rewrite app_nil_r.
  - rewrite timers_stored. apply map_set_ids_prefix.
  - rewrite timers_stored. apply map_set_ids_prefix.
  - rewrite timers_tick.
    apply (fold_complete_ids now (timers s) (timers s, [])).
Qed.

(** X5. No call removes a timer from the map or moves it: the keys of
    the map, in its order, only ever grow at the end. *)
Theorem timers_never_removed ops s :
  exists tail, map id (timers (run ops s)) = map id (timers s) ++ tail.
Proof.
  revert s. induction ops as [|o ops IH]; intros s.
  - exists []. now rewrite app_nil_r.
  - cbn [run fold_left]. fold (run ops (step s o)).
    destruct (IH (step s o)) as (t1 & H1).
    destruct (step_ids o s) as (t2 & H2).
    rewrite H1, H2, <- app_assoc. now exists (t2 ++ t1).
Qed.

(** *** What stays of a timer *)

Lemma may_become_refl a : may_become a a = true.
Proof. now destruct a. Qed.

Lemma may_become_trans a b c :
  may_become a b = true -> may_become b c = true -> may_become a c = true.
Proof. now destruct a, b, c. Qed.

Lemma follows_refl x : follows x x.
Proof.
  unfold follows. repeat split; auto using may_become_refl.
Qed.

Lemma follows_trans x y z : follows x y -> follows y z -> follows x z.
Proof.
  unfold follows.
  intros (H1 & H2 & H3 & H4 & H5 & H6 & H7) (K1 & K2 & K3 & K4 & K5 & K6 & K7).
  repeat split; try congruence; eauto using may_become_trans.
Qed.

Lemma follows_spread x st rem ea :
  may_become (status x) st = true ->
  follows x (spread x st rem (startedAt x) ea).
Proof. unfold follows, spread; cbn. repeat split; auto. Qed.

Lemma follows_resumed now x :
  status x = paused -> follows x (resumed_at now x).
Proof.
  intros Hst. unfold follows, resumed_at, spread; cbn. rewrite Hst.
  repeat split; auto. intros a Ha. now rewrite Ha.
Qed.

Lemma follows_extended now extraMs x :
  status x = running \/ status x = paused ->
  follows x (extended_by now extraMs x).
Proof.
  intros Hst. unfold extended_by.
  destruct (Z.max (current_remaining now x + extraMs) 0 =? 0).
  - apply follows_spread. now destruct Hst as [-> | ->].
  - destruct (status x) eqn:E; apply follows_spread; rewrite E;
      apply may_become_refl.
Qed.

Lemma follows_reconciled now x : follows x (reconciled now x).
Proof.
  unfold reconciled. destruct (expired now x) eqn:E; [|apply follows_refl].
  apply expired_spec in E. destruct E as (Hst & _).
  unfold finish. apply follows_spread. now rewrite Hst.
Qed.

Lemma step_follows key o s x :
  well_keyed s -> findById key s = Some x -> starts_other key o ->
  exists y, findById key (step s o) = Some y /\ follows x y.
Proof.
  intros Hwk Hx Hother.
  destruct (step_cases o s)
    as [->|[(now & uuid & input & -> & Hlt & ->)
           |[(k & x' & u & Hf & Hid & -> & Hop)|(now & ->)]]].
  - exists x. split; [exact Hx|apply follows_refl].
  - exists x. split; [|apply follows_refl].
    unfold findById. rewrite timers_stored, map_get_set_other; [exact Hx|].
    exact Hother.
  - assert (Hu : id u = id x' /\ follows x' u).
    { destruct Hop as [(now & _ & Hst & ->)|[(now & _ & Hst & ->)
                      |[(_ & ->)|(now & e & _ & Hst & ->)]]].
      - split; [reflexivity|]. apply follows_spread. now rewrite Hst.
      - split; [reflexivity|]. now apply follows_resumed.
      - split; [reflexivity|]. apply follows_spread. now destruct (status x').
      - split; [apply id_extended_by|]. now apply follows_extended. }
    destruct Hu as (Hidu & Hfu).
    destruct (String.eqb_spec k key) as [->|Hne].
    + assert (x' = x) by congruence. subst x'.
      exists u. split; [|exact Hfu].
      unfold findById. rewrite timers_stored, <- Hid, <- Hidu.
      apply map_get_set_same.
    + exists x. split; [|apply follows_refl].
      unfold findById. rewrite timers_stored, map_get_set_other; [exact Hx|].
      congruence.
  - exists (reconciled now x). split; [|apply follows_reconciled].
    rewrite <- (map_get_id key (timers s) x Hx).
    apply findById_reconciled; [exact Hwk|].
    eapply map_get_In. exact Hx.
Qed.

Lemma run_follows key ops s x :
  well_keyed s -> findById key s = Some x ->
  Forall (starts_other key) ops ->
  exists y, findById key (run ops s) = Some y /\ follows x y.
Proof.
  revert s x. induction ops as [|o ops IH]; intros s x Hwk Hx Hall.
  - exists x. split; [exact Hx|apply follows_refl].
  - inversion Hall as [|? ? Ho Hrest]; subst.
    destruct (step_follows key o s x Hwk Hx Ho) as (y & Hy & Hxy).
    destruct (IH (step s o) y (well_keyed_step o s Hwk) Hy Hrest)
      as (z & Hz & Hyz).
    exists z. split; [exact Hz|]. eapply follows_trans; eassumption.
Qed.

(** X6. The life of a timer has one direction.  Whatever is called, as
    long as no timer is started under its key again, the timer stays in the
    map, and its status moves only forward: a completed timer can only be
    cancelled, a cancelled timer stays cancelled, and a running or paused
    timer is never scheduled. *)
Theorem status_moves_forward key ops s x :
  well_keyed s -> findById key s = Some x ->
  Forall (starts_other key) ops ->
  exists y, findById key (run ops s) = Some y /\
            may_become (status x) (status y) = true.
Proof.
  intros Hwk Hx Hall.
  destruct (run_follows key ops s x Hwk Hx Hall) as (y & Hy & Hf).
  exists y. split; [exact Hy|apply Hf].
Qed.

Lemma status_moves_forward_witness :
  exists y, findById "a" (run [OpTick 5000; OpCancel "a"; OpResume 6000 "a"]
                            (run two_timers fresh)) = Some y /\
            may_become running (status y) = true.
Proof.
  apply (status_moves_forward "a" [OpTick 5000; OpCancel "a"; OpResume 6000 "a"]
           (run two_timers fresh)
           (mkTimer "a" "Timer 1" 1000 1000 running (Some 0) (Some 1000)
              None (Some custom))).
  - unfold well_keyed. vm_compute.
    repeat constructor; simpl; intuition discriminate.
  - reflexivity.
  - repeat constructor.
Defined.

(** X7. What a timer is made with is never changed: its [id], [label],
    [durationMs], [repeat] and [category] stay, and so does its [startedAt]
    once it has one. *)
Theorem made_with_stays key ops s x :
  well_keyed s -> findById key s = Some x ->
  Forall (starts_other key) ops ->
  exists y, findById key (run ops s) = Some y /\
    id y = id x /\ label y = label x /\ durationMs y = durationMs x /\
    repeat y = repeat x /\ category y = category x /\
    forall a, startedAt x = Some a -> startedAt y = Some a.
Proof.
  intros Hwk Hx Hall.
  destruct (run_follows key ops s x Hwk Hx Hall)
    as (y & Hy & H1 & H2 & H3 & H4 & H5 & _ & H7).
  exists y. repeat split; assumption.
Qed.

Lemma made_with_stays_witness :
  exists y,
    findById "a" (run [OpPause 5300 "a"; OpResume 20000 "a";
                       OpExtend 21000 "a" 60000] (run one_minute fresh))
    = Some y /\
    id y = "a"%string /\ label y = "Timer 1"%string /\ durationMs y = 60000 /\
    repeat y = None /\ category y = Some custom /\
    forall a, Some 0 = Some a -> startedAt y = Some a.
Proof.
  apply (made_with_stays "a" [OpPause 5300 "a"; OpResume 20000 "a";
                              OpExtend 21000 "a" 60000]
           (run one_minute fresh)
           (mkTimer "a" "Timer 1" 60000 60000 running (Some 0) (Some 60000)
              None (Some custom))).
  - unfold well_keyed. vm_compute.
    repeat constructor; simpl; intuition discriminate.
  - reflexivity.
  - repeat constructor.
Defined.

(** *** Cancelling *)

Lemma map_set_get u m :
  map_get (id u) m = Some u -> map_set u m = m.
Proof.
  induction m as [|x rest IH]; [discriminate|]. cbn [map_get map_set].
  destruct (String.eqb (id x) (id u)).
  - now intros [= ->].
  - intros H. now rewrite IH.
Qed.

(** X8. [cancel] asks for no status, and a second [cancel] of the same
    timer returns what the first returned and leaves the map as it is. *)
Theorem cancel_twice key s :
  let s1 := fst (cancel key s) in
  snd (cancel key s1) = snd (cancel key s) /\
  timers (fst (cancel key s1)) = timers s1 /\
  (forall x, findById key s = Some x ->
             snd (cancel key s) = Ok (cancelled_of x)).
Proof.
  cbn zeta. destruct (findById key s) as [x|] eqn:Hf.
  - rewrite (cancel_found key s x Hf). cbn [fst snd].
    assert (Hid : id (cancelled_of x) = key).
    { cbn. eapply map_get_id. exact Hf. }
    assert (Hf1 : findById key (stored s (cancelled_of x))
                  = Some (cancelled_of x)).
    { unfold findById. rewrite timers_stored, <- Hid.
      apply map_get_set_same. }
    rewrite (cancel_found key _ _ Hf1). cbn [fst snd].
    split; [reflexivity|]. split; [|now intros y [= ->]].
    rewrite timers_stored.
    change (cancelled_of (cancelled_of x)) with (cancelled_of x).
    apply map_set_get. rewrite Hid. exact Hf1.
  - assert (Hc : forall s', findById key s' = None ->
                            cancel key s' = (s', Throw NotFound)).
    { intros s' H. unfold cancel, bind, requireTimer.
      unfold findById in H. now rewrite H. }
    rewrite (Hc s Hf). cbn [fst snd]. rewrite (Hc s Hf). cbn [fst snd].
    split; [reflexivity|]. split; [reflexivity|]. discriminate.
Qed.

End Identity.

(** ** Construction and persistence *)

Section Construction.

Lemma normalize_not_expired now x : expired now (normalizeTimer x now) = false.
Proof.
  unfold normalizeTimer, expired.
  destruct (status x) eqn:Hst, (endsAt x) as [e|] eqn:He;
    cbn; rewrite ?Hst, ?He; try reflexivity.
  unfold computeRemaining, differenceInMilliseconds. rewrite He.
  destruct (Z.max (e - now) 0 <=? 0) eqn:E; cbn; [reflexivity|].
  apply Z.leb_gt in E. apply Z.leb_gt. lia.
Qed.

(** X9. A store is made reconciled: the reconciliation at the time of
    its construction finds no timer to complete and leaves the store as it
    is, whatever timers it was made from. *)
Theorem new_is_reconciled now options :
  completeExpiringTimers now (new now options) = (new now options, Ok []).
Proof.
  apply completeExpiringTimers_idle. intros x Hx.
  assert (H : Forall (fun y => expired now y = false)
                (timers (new now options))).
  { unfold new; cbn [timers].
    destruct (opt_initialTimers options) as [initial|]; [|constructor].
    assert (G : forall l m, Forall (fun y => expired now y = false) m ->
              Forall (fun y => expired now y = false)
                (fold_left (fun m timer => map_set (normalizeTimer timer now) m)
                   l m)).
    { induction l as [|a l IH]; intros m Hm; [exact Hm|].
      cbn [fold_left]. apply IH, Forall_map_set; [|exact Hm].
      apply normalize_not_expired. }
    apply G. constructor. }
  rewrite Forall_forall in H. now apply H.
Qed.

Lemma id_normalize x now : id (normalizeTimer x now) = id x.
Proof.
  unfold normalizeTimer.
  destruct (status x), (endsAt x); try reflexivity.
  now destruct (computeRemaining x now <=? 0).
Qed.

Lemma startedAt_normalize x now :
  startedAt (normalizeTimer x now) = startedAt x.
Proof.
  unfold normalizeTimer.
  destruct (status x), (endsAt x); try reflexivity.
  now destruct (computeRemaining x now <=? 0).
Qed.

Lemma map_set_new u m :
  ~ In (id u) (map id m) -> map_set u m = m ++ [u].
Proof.
  induction m as [|x rest IH]; [reflexivity|]. cbn [map In map_set].
  intros H. destruct (String.eqb_spec (id x) (id u)) as [E|E].
  - elim H. now left.
  - cbn [app]. rewrite IH; [reflexivity|]. intros Hin. apply H. now right.
Qed.

Lemma fold_set_fresh (f : Timer -> Timer) l m :
  (forall x, id (f x) = id x) -> NoDup (map id (m ++ l)) ->
  fold_left (fun acc timer => map_set (f timer) acc) l m = m ++ map f l.
Proof.
  intros Hf. revert m. induction l as [|a l IH]; intros m Hnd.
  - cbn. now rewrite List.app_nil_r.
  - cbn [fold_left map]. rewrite map_set_new.
    + rewrite IH; [rewrite <- List.app_assoc; reflexivity|].
      rewrite <- List.app_assoc. cbn [app].
      rewrite map_app in *. cbn [map] in *. now rewrite Hf.
    + rewrite Hf. rewrite map_app in Hnd. cbn [map] in Hnd.
      apply NoDup_remove_2 in Hnd. intros Hin. apply Hnd.
      apply in_or_app. now left.
Qed.

(** What the constructor makes of a timer of a store whose [endsAt] are
    as the operations leave them: the reconciliation and the decoration. *)
Lemma normalize_as_decorated now x :
  endsAt_rule x ->
  normalizeTimer x now = decorateTimer now (reconciled now x).
Proof.
  intros Hrule. unfold endsAt_rule in Hrule.
  unfold normalizeTimer, reconciled, expired, decorateTimer.
  destruct x as [i l d r st sa ea rp c]; cbn in *.
  destruct st, ea as [e|]; cbn; try reflexivity.
  - unfold computeRemaining, differenceInMilliseconds; cbn.
    destruct (e <=? now) eqn:E.
    + apply Z.leb_le in E. rewrite Z.max_r by lia. reflexivity.
    + apply Z.leb_gt in E. rewrite Z.max_l by lia.
      destruct (e - now <=? 0) eqn:E2; [apply Z.leb_le in E2; lia|].
      cbn. unfold differenceInMilliseconds. rewrite Z.max_l by lia.
      reflexivity.
  - exfalso. destruct Hrule as [H _].
    destruct H as [H|H]; discriminate.
Qed.

Lemma startedAt_reconciled now x :
  startedAt (reconciled now x) = startedAt x.
Proof. unfold reconciled. now destruct (expired now x). Qed.

Lemma startedAt_decorate now x : startedAt (decorateTimer now x) = startedAt x.
Proof. unfold decorateTimer. now destruct (status x), (endsAt x). Qed.

(** X10. A restart shows what the running store would show.  A store
    that is made at [now] from the snapshot [getAll] of a store lists the
    timers that the tools of the old store would list at [now]: each timer
    reconciled and its remaining time as of [now]. *)
Theorem reload_as_listed now s :
  well_keyed s -> Forall endsAt_rule (timers s) ->
  getAll (new now (reloaded (getAll s) s))
  = getSnapshot now (fst (completeExpiringTimers now s)).
Proof.
  intros Hwk Hrule.
  unfold getSnapshot, getAll at 1 3.
  destruct (completeExpiringTimers_spec now s Hwk) as [-> _].
  unfold new, reloaded; cbn [timers opt_initialTimers].
  rewrite (fold_set_fresh (fun x => normalizeTimer x now)).
  - cbn [app].
    rewrite (sort_map (fun x => normalizeTimer x now))
      by (intros; apply startedAt_normalize).
    rewrite (sort_map (reconciled now))
      by (intros; apply startedAt_reconciled).
    rewrite sort_of_sorted by apply sort_sorted.
    rewrite map_map. apply map_ext_in. intros x Hx.
    apply normalize_as_decorated.
    rewrite Forall_forall in Hrule. apply Hrule. now apply In_getAll.
  - intros. apply id_normalize.
  - cbn [app]. eapply Permutation_NoDup; [|exact Hwk].
    apply Permutation_map. apply sort_perm.
Qed.

Lemma reload_as_listed_witness :
  getAll (new 5000 (reloaded (getAll (run two_timers fresh))
                      (run two_timers fresh)))
  = getSnapshot 5000
      (fst (completeExpiringTimers 5000 (run two_timers fresh))).
Proof.
  apply (reload_as_listed 5000 (run two_timers fresh)).
  - unfold well_keyed. vm_compute.
    repeat constructor; simpl; intuition discriminate.
  - vm_compute. repeat constructor; intuition (discriminate || auto).
Defined.

End Construction.

Section NoPersistence.

(** X11. Persistence is optional: a store that is made without an
    [onChange] callback has no save to wait for and no error to deliver,
    whatever is called. *)
Theorem no_callback_no_failure now options ops :
  opt_onChange options = None ->
  waitForPersistence (run ops (new now options))
  = (run ops (new now options), Ok tt).
Proof.
  intros Hnone.
  assert (Hinv : forall s,
            onChange s = None /\ pendingPersist s = None /\
            lastPersistError s = None ->
            forall o, onChange (step s o) = None /\
                      pendingPersist (step s o) = None /\
                      lastPersistError (step s o) = None).
  { intros s (H1 & H2 & H3) o.
    assert (Hst : forall u, stored s u
                            = with_timers s (map_set u (timers s))).
    { intros u. unfold stored, emitChange, with_timers. cbn [onChange].
      now rewrite H1. }
    destruct (step_cases o s)
      as [->|[(t0 & uuid & input & -> & Hlt & ->)
             |[(k & x & u & Hf & Hid & -> & Hop)|(t0 & ->)]]];
      rewrite ?Hst; cbn; auto.
    unfold completeExpiringTimers.
    destruct (fold_left (complete_step t0) (timers s) (timers s, []))
      as [m done].
    destruct done; cbn [fst]; cbn; auto.
    unfold emitChange, with_timers. cbn [onChange]. rewrite H1. cbn. auto. }
  assert (Hrun : forall l s,
            onChange s = None /\ pendingPersist s = None /\
            lastPersistError s = None ->
            onChange (run l s) = None /\ pendingPersist (run l s) = None /\
            lastPersistError (run l s) = None).
  { induction l as [|o l IH]; intros s Hs; [exact Hs|].
    cbn [run fold_left]. apply IH. now apply Hinv. }
  destruct (Hrun ops (new now options)) as (_ & H2 & H3).
  { cbn. auto. }
  unfold waitForPersistence. rewrite H2, H3. reflexivity.
Qed.

Lemma no_callback_no_failure_witness :
  waitForPersistence (run paused_and_resumed (new 0 default_options))
  = (run paused_and_resumed (new 0 default_options), Ok tt).
Proof. apply no_callback_no_failure. reflexivity. Defined.

End NoPersistence.

(** ** The tools *)

Section Schemas.

Variable uuid_schema : string -> bool.

(** X12. An adjustment that the schema lets through is a whole number of
    seconds, not zero, and no more than 120 minutes and 59 seconds either
    way; it is for the id that was given, which has passed the format
    check. *)
Theorem adjustment_bounds a key extraMs :
  adjustTimerInput uuid_schema a = Ok (key, extraMs) ->
  key = adj_id a /\ uuid_schema key = true /\
  extraMs <> 0 /\ extraMs mod 1000 = 0 /\
  -7259000 <= extraMs <= 7259000.
Proof.
  unfold adjustTimerInput.
  set (m := match adj_minutes a with Some m => m | None => 0 end).
  set (sec := match adj_seconds a with Some x => x | None => 0 end).
  destruct (uuid_schema (adj_id a)) eqn:Hu; [|discriminate].
  destruct (-120 <=? m) eqn:H1; [|discriminate].
  destruct (m <=? 120) eqn:H2; [|discriminate].
  destruct (-59 <=? sec) eqn:H3; [|discriminate].
  destruct (sec <=? 59) eqn:H4; [|discriminate].
  destruct (negb (m =? 0) || negb (sec =? 0)) eqn:H5; [|discriminate].
  cbn [andb]. intros [= <- <-].
  apply Z.leb_le in H1, H2, H3, H4.
  assert (Hnz : m <> 0 \/ sec <> 0).
  { apply orb_true_iff in H5. destruct H5 as [H|H];
      apply negb_true_iff, Z.eqb_neq in H; auto. }
  split; [reflexivity|]. split; [exact Hu|].
  split; [lia|]. split; [|lia].
  replace (m * 60000 + sec * 1000) with ((m * 60 + sec) * 1000) by lia.
  apply Z.mod_mul. lia.
Qed.

End Schemas.

Lemma adjustment_bounds_witness :
  "a"%string = "a"%string /\ (fun _ : string => true) "a"%string = true /\
  -59000 <> 0 /\ -59000 mod 1000 = 0 /\ -7259000 <= -59000 <= 7259000.
Proof.
  apply (adjustment_bounds (fun _ => true)
           {| adj_id := "a"; adj_minutes := None; adj_seconds := Some (-59) |}).
  reflexivity.
Defined.

Section Starting.

Variable uuid_schema : string -> bool.

Lemma formatISO_add now k : formatISO (now + k * 1000) = formatISO now + k * 1000.
Proof. unfold formatISO. rewrite Z.div_add by lia. lia. Qed.

Lemma toDurationMs_seconds d : toDurationMs d = (fst d * 60 + snd d) * 1000.
Proof. unfold toDurationMs. lia. Qed.

Lemma startTimerInput_seconds a input :
  startTimerInput a = Ok input ->
  exists k, 1 <= k /\ in_durationMs input = k * 1000.
Proof.
  unfold startTimerInput.
  destruct (durationSchema (arg_duration a)) as [[m sec]|] eqn:Hd;
    [|discriminate].
  destruct (labelSchema (arg_label a) && _); [|discriminate].
  intros [= <-]. cbn [in_durationMs]. exists (m * 60 + sec).
  split; [|apply toDurationMs_seconds].
  unfold durationSchema in Hd.
  destruct ((0 <=? _) && (0 <=? _) && (_ <=? 59) && ((0 <? _) || (0 <? _)))
    eqn:E; [|discriminate].
  injection Hd as <- <-.
  apply andb_true_iff in E. destruct E as [E E4].
  apply andb_true_iff in E. destruct E as [E E3].
  apply andb_true_iff in E. destruct E as [E1 E2].
  apply Z.leb_le in E1, E2, E3. apply orb_true_iff in E4.
  destruct E4 as [E4|E4]; apply Z.ltb_lt in E4; lia.
Qed.

(** X13. A timer that is started through the tool ends on time: the tool
    takes whole seconds only, so cutting the timestamps down to the second
    loses nothing of the duration.  The schema puts no limit on the
    minutes; the start and the end of the timer are taken to be dates from
    1970 to the year 9999, which [formatISO] writes and [new Date] reads
    back.  The result is the running timer under the given id, its
    [endsAt] is its [startedAt] plus its [durationMs], and the timer itself
    is not among the completed ones of the result. *)
Theorem started_ends_on_time tTick tOp tDec uuid a s s' r :
  startTimer tTick tOp tDec uuid a s = (s', Ok r) ->
  in_range tOp = true ->
  in_range (addMilliseconds tOp (durationMs (timer r))) = true ->
  id (timer r) = uuid /\ status (timer r) = running /\
  1000 <= durationMs (timer r) /\
  startedAt (timer r) = Some (formatISO tOp) /\
  endsAt (timer r) = Some (formatISO tOp + durationMs (timer r)) /\
  remainingMs (timer r)
  = Z.max (formatISO tOp + durationMs (timer r) - tDec) 0 /\
  completed_of r = map (finish tTick) (filter (expired tTick) (timers s)).
Proof.
  intros H _ _. unfold startTimer in H.
  apply bind_Ok in H. destruct H as (s1 & done & Htick & H).
  apply bind_Ok in H. destruct H as (s2 & parsed & Hparse & H).
  apply bind_Ok in H. destruct H as (s3 & res & Hstart & H).
  apply bind_Ok in H. destruct H as (s4 & [] & Hwait & H).
  apply ret_Ok in H. subst r. cbn [timer completed_of].
  unfold lift in Hparse. injection Hparse as <- Hparse.
  destruct (startTimerInput_seconds a parsed Hparse) as (k & Hk & Hdur).
  apply handleTick_Ok in Htick.
  unfold start in Hstart.
  destruct (Z.of_nat (List.length (getActive s1)) >=? maxConcurrent s1);
    [discriminate|].
  injection Hstart as _ <-.
  unfold decorateTimer, started, mergeCompleted;
    cbn [status endsAt spread id durationMs startedAt remainingMs].
  unfold addMilliseconds, differenceInMilliseconds.
  rewrite Hdur, formatISO_add.
  repeat split; try reflexivity; try lia. exact Htick.
Qed.

Lemma started_ends_on_time_witness :
  exists r : TimerUpdateResult,
  id (timer r) = "a"%string /\ status (timer r) = running /\
  1000 <= durationMs (timer r) /\
  startedAt (timer r) = Some (formatISO 1234) /\
  endsAt (timer r) = Some (formatISO 1234 + durationMs (timer r)) /\
  remainingMs (timer r)
  = Z.max (formatISO 1234 + durationMs (timer r) - 1300) 0 /\
  completed_of r = map (finish 1200) (filter (expired 1200) (timers fresh)).
Proof.
  eexists.
  eapply (started_ends_on_time 1200 1234 1300 "a"
            {| arg_label := None; arg_category := None;
               arg_duration := {| minutes := Some 1; seconds := Some 30 |};
               arg_repeat := None |} fresh).
  - vm_compute. reflexivity.
  - reflexivity.
  - reflexivity.
Defined.

(** *** Calls that are refused *)

Lemma bind_Throw {A B} (m : M A) (k : A -> M B) s s' e :
  bind m k s = (s', Throw e) ->
  m s = (s', Throw e) \/
  exists s1 a, m s = (s1, Ok a) /\ k a s1 = (s', Throw e).
Proof.
  unfold bind. destruct (m s) as [s1 [a|e1]]; intros H.
  - right. now exists s1, a.
  - left. now injection H as -> ->.
Qed.

Lemma wait_Throw s s' e :
  waitForPersistence s = (s', Throw e) -> ~ refusal e.
Proof.
  unfold waitForPersistence.
  destruct (pendingPersist s), (lastPersistError s) eqn:E; cbn;
    rewrite ?E; intros [= _ <-] Hr; eapply Hr; reflexivity.
Qed.

End Starting.

Section Refusals.

Variable uuid_schema : string -> bool.

Lemma start_Throw now uuid input s s' e :
  start now uuid input s = (s', Throw e) -> s' = s /\ refusal e.
Proof.
  unfold start.
  destruct (Z.of_nat (List.length (getActive s)) >=? maxConcurrent s);
    intros [= <- <-]. split; [reflexivity|]. intros c. discriminate.
Qed.

Lemma pause_Throw now key s s' e :
  pause now key s = (s', Throw e) -> s' = s /\ refusal e.
Proof.
  unfold pause, bind, requireTimer.
  destruct (map_get key (timers s)) as [x|]; [destruct (status x)|];
    intros [= <- <-]; (split; [reflexivity|intros c; discriminate]).
Qed.

Lemma resume_Throw now key s s' e :
  resume now key s = (s', Throw e) -> s' = s /\ refusal e.
Proof.
  unfold resume, bind, requireTimer.
  destruct (map_get key (timers s)) as [x|]; [destruct (status x)|];
    intros [= <- <-]; (split; [reflexivity|intros c; discriminate]).
Qed.

Lemma cancel_Throw key s s' e :
  cancel key s = (s', Throw e) -> s' = s /\ refusal e.
Proof.
  unfold cancel, bind, requireTimer.
  destruct (map_get key (timers s)) as [x|];
    intros [= <- <-]; (split; [reflexivity|intros c; discriminate]).
Qed.

Lemma extend_Throw now key extraMs s s' e :
  extend now key extraMs s = (s', Throw e) -> s' = s /\ refusal e.
Proof.
  unfold extend, bind, requireTimer.
  destruct (map_get key (timers s)) as [x|]; [destruct (status x)|];
    intros [= <- <-]; (split; [reflexivity|intros c; discriminate]).
Qed.

Lemma lift_Throw {A} (r : result A) s s' e :
  lift r s = (s', Throw e) -> s' = s.
Proof. unfold lift. now intros [= <- _]. Qed.

Lemma lift_Ok {A} (r : result A) s s' a :
  lift r s = (s', Ok a) -> s' = s.
Proof. unfold lift. now intros [= <- _]. Qed.

(** After the store's method has returned, only the wait for the save is
    left to fail. *)
Lemma rest_Throw (decorated : Timer) (done : list Timer) s s' e :
  bind waitForPersistence
    (fun _ => ret {| timer := decorated; completed_of := done |}) s
  = (s', Throw e) ->
  ~ refusal e.
Proof.
  intros H. apply bind_Throw in H.
  destruct H as [H|(s1 & a & _ & H)]; [now apply wait_Throw in H|].
  discriminate.
Qed.

(** X14. A call that the tools refuse, for its arguments, for the id, for
    the status of the timer or for the limit, has reconciled the store all
    the same, and has done nothing else to the timers: the timers that the
    tick completed are stored as completed, and no reply reports them. *)
Theorem refused_call_reconciles tTick c s s' e :
  completed_list uuid_schema tTick c s = (s', Throw e) -> refusal e ->
  timers s' = timers (fst (completeExpiringTimers tTick s)).
Proof.
  intros H Href.
  assert (Htick : forall tDec s1 (r : result (list Timer)),
            handleTick tTick tDec s = (s1, r) ->
            timers s1 = timers (fst (completeExpiringTimers tTick s))).
  { intros tDec s1 r Hr. now apply timers_handleTick in Hr. }
  destruct c as [tDec|tOp tDec uuid input|tOp tDec key|tOp tDec key
                |tDec key|tOp tDec input];
    cbn [completed_list] in H;
    (apply bind_Throw in H;
     destruct H as [H|(s0 & a0 & _ & H)]; [|discriminate]).
  - unfold listTimers in H. apply bind_Throw in H.
    destruct H as [H|(s1 & done & _ & H)]; [|discriminate].
    eapply Htick. exact H.
  - unfold startTimer in H. apply bind_Throw in H.
    destruct H as [H|(s1 & done & H1 & H)]; [eapply Htick; exact H|].
    apply bind_Throw in H.
    destruct H as [H|(s2 & parsed & H2 & H)].
    { apply lift_Throw in H. subst. eapply Htick. exact H1. }
    apply lift_Ok in H2. subst s2. apply bind_Throw in H.
    destruct H as [H|(s3 & res & _ & H)].
    { apply start_Throw in H. destruct H as [-> _].
      eapply Htick. exact H1. }
    now apply rest_Throw in H.
  - unfold pauseTimer in H. apply bind_Throw in H.
    destruct H as [H|(s1 & done & H1 & H)]; [eapply Htick; exact H|].
    apply bind_Throw in H.
    destruct H as [H|(s3 & res & _ & H)].
    { apply pause_Throw in H. destruct H as [-> _].
      eapply Htick. exact H1. }
    now apply rest_Throw in H.
  - unfold resumeTimer in H. apply bind_Throw in H.
    destruct H as [H|(s1 & done & H1 & H)]; [eapply Htick; exact H|].
    apply bind_Throw in H.
    destruct H as [H|(s3 & res & _ & H)].
    { apply resume_Throw in H. destruct H as [-> _].
      eapply Htick. exact H1. }
    now apply rest_Throw in H.
  - unfold cancelTimer in H. apply bind_Throw in H.
    destruct H as [H|(s1 & done & H1 & H)]; [eapply Htick; exact H|].
    apply bind_Throw in H.
    destruct H as [H|(s3 & res & _ & H)].
    { apply cancel_Throw in H. destruct H as [-> _].
      eapply Htick. exact H1. }
    now apply rest_Throw in H.
  - unfold extendTimer in H. apply bind_Throw in H.
    destruct H as [H|(s1 & done & H1 & H)]; [eapply Htick; exact H|].
    apply bind_Throw in H.
    destruct H as [H|(s2 & parsed & H2 & H)].
    { apply lift_Throw in H. subst. eapply Htick. exact H1. }
    apply lift_Ok in H2. subst s2. apply bind_Throw in H.
    destruct H as [H|(s3 & res & _ & H)].
    { apply extend_Throw in H. destruct H as [-> _].
      eapply Htick. exact H1. }
    now apply rest_Throw in H.
Qed.

(** *** The completed list of an adjustment *)

Lemma ids_filter (p : Timer -> bool) l :
  NoDup (map id l) -> NoDup (map id (filter p l)).
Proof.
  induction l as [|x l IH]; [constructor|]. cbn [map filter].
  intros Hnd. inversion Hnd as [|? ? Hnot Hrest]; subst.
  destruct (p x); cbn [map]; [|now apply IH].
  constructor; [|now apply IH]. intros Hin. apply Hnot.
  apply in_map_iff in Hin. destruct Hin as (y & <- & Hy).
  apply filter_In in Hy. apply in_map. tauto.
Qed.

Lemma existsb_id (candidate : Timer) done :
  existsb (fun x => String.eqb (id x) (id candidate)) done = true
  <-> In (id candidate) (map id done).
Proof.
  rewrite existsb_exists, in_map_iff. split.
  - intros (x & Hx & E). apply String.eqb_eq in E. eauto.
  - intros (x & E & Hx). exists x. split; [exact Hx|].
    now apply String.eqb_eq.
Qed.

Lemma mergeCompleted_ids done candidate :
  NoDup (map id done) ->
  NoDup (map id (mergeCompleted done candidate)) /\
  (status candidate = completed ->
   In (id candidate) (map id (mergeCompleted done candidate))).
Proof.
  intros Hnd. unfold mergeCompleted.
  destruct (status candidate); try (split; [exact Hnd|discriminate]).
  destruct (existsb _ done) eqn:E.
  - split; [exact Hnd|]. intros _. now apply existsb_id.
  - split.
    + rewrite map_app. cbn [map].
      apply NoDup_app; [exact Hnd|repeat constructor; intros []|].
      intros x Hx [<-|[]]. apply existsb_id in Hx. congruence.
    + intros _. rewrite map_app. apply in_or_app. right. now left.
Qed.

(** X15. An adjustment that ends a timer reports it: the timer of the
    result, when it is completed, is in the completed list of the result,
    beside the timers that the tick completed, and no timer is in the list
    twice. *)
Theorem adjustment_reports_finished tTick tOp tDec a s s' r :
  well_keyed s ->
  extendTimer uuid_schema tTick tOp tDec a s = (s', Ok r) ->
  NoDup (map id (completed_of r)) /\
  (status (timer r) = completed ->
   In (id (timer r)) (map id (completed_of r))) /\
  (forall x, In x (timers s) -> expired tTick x = true ->
             In (finish tTick x) (completed_of r)).
Proof.
  intros Hwk H. unfold extendTimer in H.
  apply bind_Ok in H. destruct H as (s1 & done & Htick & H).
  apply bind_Ok in H. destruct H as (s2 & parsed & Hparse & H).
  apply bind_Ok in H. destruct H as (s3 & res & Hext & H).
  apply bind_Ok in H. destruct H as (s4 & [] & Hwait & H).
  apply ret_Ok in H. subst r. cbn [timer completed_of].
  apply handleTick_Ok in Htick.
  assert (Hnd : NoDup (map id done)).
  { subst done. rewrite map_map.
    rewrite (map_ext (fun x => id (finish tTick x)) id) by reflexivity.
    now apply ids_filter. }
  destruct (mergeCompleted_ids done (decorateTimer tDec res) Hnd) as [H1 H2].
  split; [exact H1|]. split; [exact H2|].
  intros x Hx He. apply In_mergeCompleted. subst done.
  apply in_map. apply filter_In. now split.
Qed.

End Refusals.

Lemma refused_call_reconciles_witness :
  timers (fst (completed_list (fun _ => true) 5000
                 (CallPause 5000 5000 "zzz") (run two_timers fresh)))
  = timers (fst (completeExpiringTimers 5000 (run two_timers fresh))).
Proof.
  apply (refused_call_reconciles (fun _ => true) 5000
           (CallPause 5000 5000 "zzz") (run two_timers fresh)
           (fst (completed_list (fun _ => true) 5000
                   (CallPause 5000 5000 "zzz") (run two_timers fresh)))
           NotFound).
  - vm_compute. reflexivity.
  - intros c. discriminate.
Defined.

Lemma adjustment_reports_finished_witness :
  exists r : TimerUpdateResult,
    NoDup (map id (completed_of r)) /\
    (status (timer r) = completed ->
     In (id (timer r)) (map id (completed_of r))) /\
    (forall x, In x (timers (run two_timers fresh)) ->
               expired 5000 x = true ->
               In (finish 5000 x) (completed_of r)).
Proof.
  eexists.
  eapply (adjustment_reports_finished (fun _ => true) 5000 5000 5000
            {| adj_id := "b"; adj_minutes := Some (-1);
               adj_seconds := None |} (run two_timers fresh)).
  - unfold well_keyed. vm_compute.
    repeat constructor; simpl; intuition discriminate.
  - vm_compute. reflexivity.
Defined.

Section Clock.

(** X16. The remaining time that is reported for a timer never grows
    with the clock: a later decoration of the same timer shows no more than
    an earlier one. *)
Theorem decoration_decreases now later x :
  now <= later ->
  remainingMs (decorateTimer later x) <= remainingMs (decorateTimer now x).
Proof.
  intros Hle. unfold decorateTimer.
  destruct (status x), (endsAt x); cbn [remainingMs spread]; try lia.
  unfold differenceInMilliseconds. lia.
Qed.

Lemma decoration_decreases_witness :
  remainingMs (decorateTimer 2000
                 (mkTimer "a" "Timer 1" 60000 60000 running (Some 0)
                    (Some 60000) None (Some custom)))
  <= remainingMs (decorateTimer 1000
                    (mkTimer "a" "Timer 1" 60000 60000 running (Some 0)
                       (Some 60000) None (Some custom))).
Proof. apply decoration_decreases. lia. Defined.

End Clock.

(** ** Durations that are written and read *)

Section RoundTrips.

Lemma round_seconds_div ms : Server.round_seconds ms = (ms + 500) / 1000.
Proof.
  unfold Server.round_seconds, Math_round, Qfloor, Qplus. simpl Qnum. simpl Qden.
  change (Z.pos (1000 * 2)) with (2 * 1000).
  replace (ms * 2 + 1 * 1000) with (2 * (ms + 500)) by lia.
  rewrite Z.div_mul_cancel_l; lia.
Qed.

Lemma list_ascii_app a b :
  list_ascii_of_string (a ++ b)
  = list_ascii_of_string a ++ list_ascii_of_string b.
Proof. induction a; simpl; congruence. Qed.

Lemma well_formed_show n gap w k :
  0 <= n < 2 ^ 40 -> In (w, k) unit_words ->
  well_formed {| amount := list_ascii_of_string (Text.show n); spaced := gap;
                 unit_word := w; unit_seconds := k |}.
Proof.
  intros Hn Hin. destruct (show_digits n) as (H1 & H2 & H3); [lia|].
  unfold well_formed; cbn [amount unit_word unit_seconds].
  rewrite H3. tauto.
Qed.

(** A text of one amount and a unit word parses as that many units. *)
Lemma parse_one n (gap : bool) w k :
  0 <= n < 2 ^ 40 -> In (w, k) unit_words ->
  parseDurationSeconds
    (Text.show n ++ (if gap then " " else EmptyString) ++ w)%string
  = if n * k <=? 0 then Fails NotPositive else Seconds (n * k).
Proof.
  intros Hn Hin.
  pose proof (parse_unit_phrases
    [{| amount := list_ascii_of_string (Text.show n); spaced := gap;
        unit_word := w; unit_seconds := k |}]) as H.
  destruct (show_digits n) as (_ & _ & Hv); [lia|].
  unfold phrases_seconds, phrase_seconds, phrases_text, phrase_text in H.
  cbn [amount spaced unit_word unit_seconds fold_right] in H.
  rewrite Hv, Z.add_0_r in H. rewrite <- H.
  - f_equal. rewrite <- (string_of_list_ascii_of_string (_ ++ _)). f_equal.
    rewrite !list_ascii_app. now destruct gap.
  - discriminate.
  - constructor; [now apply well_formed_show|constructor].
Qed.

(** A text of minutes and seconds, [AmBs] with a space between the two. *)
Lemma parse_two m sec wm ws :
  0 <= m < 2 ^ 40 -> 0 <= sec < 2 ^ 40 ->
  In (wm, 60) unit_words -> In (ws, 1) unit_words ->
  parseDurationSeconds
    (Text.show m ++ wm ++ " " ++ Text.show sec ++ ws)%string
  = if m * 60 + sec <=? 0 then Fails NotPositive
    else Seconds (m * 60 + sec).
Proof.
  intros Hm Hs Hwm Hws.
  pose proof (parse_unit_phrases
    [{| amount := list_ascii_of_string (Text.show m); spaced := false;
        unit_word := wm; unit_seconds := 60 |};
     {| amount := list_ascii_of_string (Text.show sec); spaced := false;
        unit_word := ws; unit_seconds := 1 |}]) as H.
  destruct (show_digits m) as (_ & _ & Hvm); [lia|].
  destruct (show_digits sec) as (_ & _ & Hvs); [lia|].
  unfold phrases_seconds, phrase_seconds, phrases_text, phrase_text in H.
  cbn [amount spaced unit_word unit_seconds fold_right] in H.
  rewrite Hvm, Hvs, Z.add_0_r, Z.mul_1_r in H. rewrite <- H.
  - f_equal. rewrite <- (string_of_list_ascii_of_string (_ ++ _)). f_equal.
    rewrite !list_ascii_app. simpl. now rewrite <- !app_assoc.
  - discriminate.
  - constructor; [now apply well_formed_show|].
    constructor; [now apply well_formed_show|constructor].
Qed.

Lemma minutes_seconds total :
  0 <= total ->
  0 <= total / 60 /\ 0 <= Z.rem total 60 < 60 /\
  total = total / 60 * 60 + Z.rem total 60.
Proof.
  intros H. rewrite Z.rem_mod_nonneg by lia.
  pose proof (Z.mod_pos_bound total 60). pose proof (Z.div_mod total 60).
  pose proof (Z.div_pos total 60). lia.
Qed.

(** X17. What [formatRemaining] writes for a time of half a second or more
    is read back by the parser as the seconds it was rounded to. *)
Theorem formatRemaining_parses ms :
  500 <= ms < 2 ^ 40 ->
  parseDurationSeconds (Server.formatRemaining ms)
  = Seconds (Server.round_seconds ms).
Proof.
  intros Hms. unfold Server.formatRemaining.
  rewrite round_seconds_div.
  assert (Ht : 1 <= (ms + 500) / 1000 < 2 ^ 40).
  { split; [apply Z.div_le_lower_bound; lia|].
    apply Z.div_lt_upper_bound; lia. }
  rewrite Z.max_l by lia.
  destruct (minutes_seconds ((ms + 500) / 1000)) as (Hm & Hs & Heq); [lia|].
  set (total := (ms + 500) / 1000) in *.
  destruct (0 <? total / 60) eqn:Hmin, (0 <? Z.rem total 60) eqn:Hsec;
    cbn [andb];
    try apply Z.ltb_lt in Hmin; try apply Z.ltb_ge in Hmin;
    try apply Z.ltb_lt in Hsec; try apply Z.ltb_ge in Hsec.
  - change (Text.show (total / 60) ++ "m " ++ Text.show (Z.rem total 60) ++ "s")%string
      with (Text.show (total / 60) ++ "m" ++ " " ++ Text.show (Z.rem total 60) ++ "s")%string.
    rewrite parse_two; try lia; try (simpl; tauto).
    rewrite <- Heq. destruct (total <=? 0) eqn:E; [apply Z.leb_le in E; lia|reflexivity].
  - pose proof (parse_one (total / 60) false "m" 60) as P.
    change ((if false then " " else EmptyString) ++ "m")%string
      with "m"%string in P.
    rewrite P; try lia; try (simpl; tauto).
    replace (total / 60 * 60) with total by lia.
    destruct (total <=? 0) eqn:E; [apply Z.leb_le in E; lia|reflexivity].
  - pose proof (parse_one (Z.rem total 60) false "s" 1) as P.
    change ((if false then " " else EmptyString) ++ "s")%string
      with "s"%string in P.
    rewrite P; try lia; try (simpl; tauto).
    replace (Z.rem total 60 * 1) with total by lia.
    destruct (total <=? 0) eqn:E; [apply Z.leb_le in E; lia|reflexivity].
  - lia.
Qed.

End RoundTrips.

Section LongForm.

(** The long form of minutes and seconds, as [formatDuration] and
    [describeDelta] write it. *)
Lemma parse_long_form m sec :
  0 <= m < 2 ^ 40 -> 0 <= sec < 60 -> 1 <= m * 60 + sec ->
  parseDurationSeconds
    (if (0 <? m) && (0 <? sec) then
       (Text.show m ++ "m " ++ Text.show sec ++ "s")%string
     else if 0 <? m then
       (Text.show m ++ " minute" ++ Text.plural m)%string
     else (Text.show sec ++ " second" ++ Text.plural sec)%string)
  = Seconds (m * 60 + sec).
Proof.
  intros Hm Hs Hpos.
  assert (Hno : forall v, 1 <= v -> (v <=? 0) = false)
    by (intros; apply Z.leb_gt; lia).
  destruct (0 <? m) eqn:Hmin, (0 <? sec) eqn:Hsec; cbn [andb];
    try apply Z.ltb_lt in Hmin; try apply Z.ltb_ge in Hmin;
    try apply Z.ltb_lt in Hsec; try apply Z.ltb_ge in Hsec.
  - change (Text.show m ++ "m " ++ Text.show sec ++ "s")%string
      with (Text.show m ++ "m" ++ " " ++ Text.show sec ++ "s")%string.
    rewrite parse_two; try lia; try (simpl; tauto).
    now rewrite Hno.
  - replace sec with 0 by lia. rewrite Z.add_0_r.
    unfold Text.plural. destruct (m =? 1).
    + pose proof (parse_one m true "minute" 60) as P.
      change (Text.show m ++ (if true then " " else EmptyString) ++ "minute")%string
        with (Text.show m ++ " minute" ++ EmptyString)%string in P.
      rewrite P; try lia; try (simpl; tauto). now rewrite Hno by lia.
    + pose proof (parse_one m true "minutes" 60) as P.
      change (Text.show m ++ (if true then " " else EmptyString) ++ "minutes")%string
        with (Text.show m ++ " minute" ++ "s")%string in P.
      rewrite P; try lia; try (simpl; tauto). now rewrite Hno by lia.
  - replace m with 0 by lia. cbn [Z.mul Z.add].
    unfold Text.plural. destruct (sec =? 1).
    + pose proof (parse_one sec true "second" 1) as P.
      change (Text.show sec ++ (if true then " " else EmptyString) ++ "second")%string
        with (Text.show sec ++ " second" ++ EmptyString)%string in P.
      rewrite P; try lia; try (simpl; tauto).
      rewrite Z.mul_1_r. now rewrite Hno by lia.
    + pose proof (parse_one sec true "seconds" 1) as P.
      change (Text.show sec ++ (if true then " " else EmptyString) ++ "seconds")%string
        with (Text.show sec ++ " second" ++ "s")%string in P.
      rewrite P; try lia; try (simpl; tauto).
      rewrite Z.mul_1_r. now rewrite Hno by lia.
  - lia.
Qed.

(** X18. What [formatDuration] writes for a time of half a second or more
    is read back by the parser as the seconds it was rounded to. *)
Theorem formatDuration_parses ms :
  500 <= ms < 2 ^ 40 ->
  parseDurationSeconds (Builders.formatDuration ms)
  = Seconds (Server.round_seconds ms).
Proof.
  intros Hms. unfold Builders.formatDuration.
  rewrite round_seconds_div.
  assert (Ht : 1 <= (ms + 500) / 1000 < 2 ^ 40).
  { split; [apply Z.div_le_lower_bound; lia|].
    apply Z.div_lt_upper_bound; lia. }
  rewrite Z.max_l by lia.
  destruct (minutes_seconds ((ms + 500) / 1000)) as (Hm & Hs & Heq); [lia|].
  cbv zeta. rewrite parse_long_form; try lia.
  now rewrite <- Heq.
Qed.

Lemma formatDuration_parses_witness :
  parseDurationSeconds (Builders.formatDuration 90499)
  = Seconds (Server.round_seconds 90499).
Proof. apply formatDuration_parses. lia. Defined.

(** X19. What [describeDelta] writes for an adjustment of a second or
    more, either way, is read back by the parser as the whole seconds of
    its size. *)
Theorem describeDelta_parses extraMs :
  1000 <= Z.abs extraMs < 2 ^ 40 ->
  parseDurationSeconds (Text.describeDelta extraMs)
  = Seconds (Z.abs extraMs / 1000).
Proof.
  intros Ha. unfold Text.describeDelta. cbv zeta.
  set (a := Z.abs extraMs) in *.
  rewrite Z.rem_mod_nonneg by lia.
  pose proof (Z.div_mod a 60000) as D1.
  pose proof (Z.mod_pos_bound a 60000) as B1.
  pose proof (Z.div_mod (a mod 60000) 1000) as D2.
  pose proof (Z.mod_pos_bound (a mod 60000) 1000) as B2.
  assert (Hq : 0 <= a / 60000) by (apply Z.div_pos; lia).
  assert (Htotal : a / 1000 = a / 60000 * 60 + a mod 60000 / 1000).
  { symmetry. apply (Z.div_unique a 1000 _ ((a mod 60000) mod 1000)); lia. }
  assert (Hlow : 1 <= a / 1000) by (apply Z.div_le_lower_bound; lia).
  assert (Hup : a / 60000 < 2 ^ 40) by (apply Z.div_lt_upper_bound; lia).
  assert (a mod 60000 / 1000 < 60) by (apply Z.div_lt_upper_bound; lia).
  assert (0 <= a mod 60000 / 1000) by (apply Z.div_pos; lia).
  rewrite parse_long_form; try lia.
  now rewrite Htotal.
Qed.

Lemma describeDelta_parses_witness :
  parseDurationSeconds (Text.describeDelta (-90500))
  = Seconds (Z.abs (-90500) / 1000).
Proof. apply describeDelta_parses. simpl. lia. Defined.

Lemma formatRemaining_parses_witness :
  parseDurationSeconds (Server.formatRemaining 3599500)
  = Seconds (Server.round_seconds 3599500).
Proof. apply formatRemaining_parses. lia. Defined.

End LongForm.

Section Joined.

(** Two unit phrases with [ and ] between them parse as their sum. *)
Lemma parse_joined p q :
  well_formed p -> well_formed q ->
  parseDurationSeconds
    (string_of_list_ascii
       (phrase_text p ++ list_ascii_of_string " and " ++ phrase_text q))
  = if phrase_seconds p + phrase_seconds q <=? 0 then Fails NotPositive
    else Seconds (phrase_seconds p + phrase_seconds q).
Proof.
  intros Hp Hq. unfold parseDurationSeconds.
  rewrite list_ascii_of_string_of_list_ascii.
  set (join := list_ascii_of_string " and ").
  destruct (phrase_text_cons p Hp) as (c & tl & Ht & Hc).
  assert (Hwq : Forall well_formed [q]) by (constructor; [exact Hq|constructor]).
  assert (Hwp : Forall well_formed [p]) by (constructor; [exact Hp|constructor]).
  assert (Hlast : is_space (last (phrase_text p ++ join ++ phrase_text q)
                              "0"%char) = false).
  { destruct (phrase_text_cons q Hq) as (c' & tl' & Ht' & _).
    rewrite last_app_nonempty by (subst join; discriminate).
    rewrite last_app_nonempty by (rewrite Ht'; discriminate).
    apply (phrases_text_last [q]); [discriminate|exact Hwq]. }
  assert (Hplain : Forall (fun c => lower c = c /\ Ascii.eqb c colon = false)
                     (phrase_text p ++ join ++ phrase_text q)).
  { apply Forall_app. split; [apply (phrases_text_plain [p] Hwp)|].
    apply Forall_app. split; [|apply (phrases_text_plain [q] Hwq)].
    subst join. repeat constructor. }
  rewrite (trim_id _ c (tl ++ join ++ phrase_text q));
    [|rewrite Ht; reflexivity|exact Hc|exact Hlast].
  rewrite (toLowerCase_plain _ Hplain), (match_mmss_no_colon _ Hplain).
  rewrite (exec_all_phrase p (join ++ phrase_text q) Hp)
    by reflexivity.
  rewrite (replace_units_phrase p (join ++ phrase_text q) Hp)
    by reflexivity.
  change (exec_all 0 (join ++ phrase_text q))
    with (exec_all 0 (phrase_text q)).
  change (replace_units 0 (join ++ phrase_text q))
    with (join ++ replace_units 0 (phrase_text q)).
  rewrite <- (List.app_nil_r (phrase_text q)).
  rewrite (exec_all_phrase q [] Hq), (replace_units_phrase q [] Hq)
    by reflexivity.
  cbn [exec_all replace_units].
  change (existsb is_digit
            (trim (replace_commas
                     (replace_and 0 None (" "%char :: join ++ [" "%char])))))
    with false.
  cbv iota.
  change [match_of p; match_of q] with (map match_of [p; q]).
  rewrite totalFromUnits_phrases
    by (constructor; [exact Hp|exact Hwq]).
  unfold phrases_seconds. cbn [fold_right]. rewrite Z.add_0_r.
  now rewrite Ht.
Qed.

(** The words of [formatDurationFromSeconds] for a number of seconds that
    is at least 1. *)
Lemma formatDurationFromSeconds_parses n :
  1 <= n < 2 ^ 40 ->
  parseDurationSeconds (Server.formatDurationFromSeconds n) = Seconds n.
Proof.
  intros Hn. unfold Server.formatDurationFromSeconds. cbv zeta.
  destruct (minutes_seconds n) as (Hm & Hs & Heq); [lia|].
  set (m := n / 60) in *. set (sec := Z.rem n 60) in *.
  assert (Hno : forall v, 1 <= v -> (v <=? 0) = false)
    by (intros; apply Z.leb_gt; lia).
  assert (Hmin : forall v, In (("minute" ++ Text.plural v)%string, 60)
                             unit_words).
  { intros v. unfold Text.plural. destruct (v =? 1); simpl; tauto. }
  assert (Hsec : forall v, In (("second" ++ Text.plural v)%string, 1)
                             unit_words).
  { intros v. unfold Text.plural. destruct (v =? 1); simpl; tauto. }
  destruct (0 <? m) eqn:Em, (0 <? sec) eqn:Es; cbn [app];
    try apply Z.ltb_lt in Em; try apply Z.ltb_ge in Em;
    try apply Z.ltb_lt in Es; try apply Z.ltb_ge in Es.
  - pose proof (parse_joined
        {| amount := list_ascii_of_string (Text.show m); spaced := true;
           unit_word := ("minute" ++ Text.plural m)%string;
           unit_seconds := 60 |}
        {| amount := list_ascii_of_string (Text.show sec); spaced := true;
           unit_word := ("second" ++ Text.plural sec)%string;
           unit_seconds := 1 |}) as P.
    destruct (show_digits m) as (_ & _ & Hvm); [lia|].
    destruct (show_digits sec) as (_ & _ & Hvs); [lia|].
    unfold phrase_seconds, phrase_text in P.
    cbn [amount spaced unit_word unit_seconds] in P.
    rewrite Hvm, Hvs, Z.mul_1_r, <- Heq, Hno in P by lia.
    rewrite <- P; [|apply well_formed_show; [lia|apply Hmin]
                   |apply well_formed_show; [lia|apply Hsec]].
    f_equal. rewrite <- (string_of_list_ascii_of_string (_ ++ _)). f_equal.
    rewrite !list_ascii_app. cbn [list_ascii_of_string app].
    rewrite <- !List.app_assoc. reflexivity.
  - pose proof (parse_one m true ("minute" ++ Text.plural m)%string 60) as P.
    replace (m * 60) with n in P by lia. rewrite Hno in P by lia.
    rewrite <- P; [|lia|apply Hmin]. reflexivity.
  - pose proof (parse_one sec true ("second" ++ Text.plural sec)%string 1) as P.
    replace (sec * 1) with n in P by lia. rewrite Hno in P by lia.
    rewrite <- P; [|lia|apply Hsec]. reflexivity.
  - lia.
Qed.

End Joined.

(** ** The timer manager and its server *)

Section Manager.
Import TimerManager.

Lemma get_id key m x : get key m = Some x -> a_id x = key.
Proof.
  induction m as [|y rest IH]; [discriminate|]. cbn [get].
  destruct (String.eqb_spec (a_id y) key) as [E|E]; [|exact IH].
  now intros [= <-].
Qed.

Lemma get_set_same u m : get (a_id u) (set u m) = Some u.
Proof.
  induction m as [|y rest IH]; cbn [set get].
  - now rewrite String.eqb_refl.
  - destruct (String.eqb (a_id y) (a_id u)) eqn:E; cbn [get].
    + now rewrite String.eqb_refl.
    + now rewrite E.
Qed.

Lemma get_set_other key u m : a_id u <> key -> get key (set u m) = get key m.
Proof.
  intros Hne. induction m as [|y rest IH]; cbn [set get].
  - destruct (String.eqb_spec (a_id u) key); [contradiction|reflexivity].
  - destruct (String.eqb_spec (a_id y) (a_id u)) as [E|E]; cbn [get].
    + destruct (String.eqb_spec (a_id u) key); [contradiction|].
      destruct (String.eqb_spec (a_id y) key); [congruence|reflexivity].
    + now rewrite IH.
Qed.

Lemma get_none key m : ~ In key (map a_id m) -> get key m = None.
Proof.
  induction m as [|y rest IH]; [reflexivity|]. cbn [map In get].
  intros H. destruct (String.eqb_spec (a_id y) key); [tauto|].
  apply IH. tauto.
Qed.

Lemma get_delete_same key m :
  NoDup (map a_id m) -> get key (delete key m) = None.
Proof.
  induction m as [|y rest IH]; [reflexivity|]. cbn [map delete].
  intros Hnd. inversion Hnd as [|? ? Hnot Hrest]; subst.
  destruct (String.eqb_spec (a_id y) key) as [E|E].
  - apply get_none. now rewrite <- E.
  - cbn [get]. destruct (String.eqb_spec (a_id y) key); [contradiction|].
    now apply IH.
Qed.

Lemma get_delete_other key k m : k <> key -> get key (delete k m) = get key m.
Proof.
  intros Hne. induction m as [|y rest IH]; [reflexivity|]. cbn [delete get].
  destruct (String.eqb_spec (a_id y) k) as [E|E].
  - destruct (String.eqb_spec (a_id y) key); [congruence|reflexivity].
  - cbn [get]. now rewrite IH.
Qed.

Lemma set_keys u m x :
  In x (map a_id (set u m)) -> x = a_id u \/ In x (map a_id m).
Proof.
  induction m as [|y rest IH]; cbn [set map In].
  - intuition congruence.
  - destruct (String.eqb_spec (a_id y) (a_id u)) as [E|E]; cbn [map In].
    + intuition congruence.
    + intros [H|H]; [tauto|]. destruct (IH H); tauto.
Qed.

Lemma set_NoDup u m : NoDup (map a_id m) -> NoDup (map a_id (set u m)).
Proof.
  induction m as [|y rest IH]; cbn [set map]; intros Hnd.
  - repeat constructor. intros [].
  - inversion Hnd as [|? ? Hnot Hrest]; subst.
    destruct (String.eqb_spec (a_id y) (a_id u)) as [E|E]; cbn [map].
    + constructor; [now rewrite <- E|exact Hrest].
    + constructor; [|now apply IH].
      intros Hin. apply set_keys in Hin. destruct Hin; [congruence|tauto].
Qed.

Lemma delete_keys k m x : In x (map a_id (delete k m)) -> In x (map a_id m).
Proof.
  induction m as [|y rest IH]; cbn [delete map In]; [tauto|].
  destruct (String.eqb (a_id y) k); cbn [map In]; [tauto|].
  intros [H|H]; [tauto|]. right. now apply IH.
Qed.

Lemma delete_NoDup k m : NoDup (map a_id m) -> NoDup (map a_id (delete k m)).
Proof.
  induction m as [|y rest IH]; cbn [delete map]; intros Hnd; [constructor|].
  inversion Hnd as [|? ? Hnot Hrest]; subst.
  destruct (String.eqb (a_id y) k); cbn [map]; [exact Hrest|].
  constructor; [|now apply IH]. intros Hin. apply Hnot.
  eapply delete_keys. exact Hin.
Qed.

Lemma step_NoDup m c : NoDup (map a_id m) -> NoDup (map a_id (fst (step m c))).
Proof.
  intros Hnd. destruct c as [now later uuid d|now k|now k]; cbn [step].
  - unfold start. destruct (d <=? 0); [exact Hnd|].
    destruct (snapshotFor later uuid _); cbn [fst]; now apply set_NoDup.
  - unfold stop_timer. destruct (get k m); cbn [fst]; [|exact Hnd].
    now apply delete_NoDup.
  - unfold on_interval. destruct (snapshotFor now k m) as [snap|];
      [|exact Hnd].
    destruct (remainingMs snap <=? 0); cbn [fst]; [|exact Hnd].
    now apply delete_NoDup.
Qed.

Lemma ends_of_app key e1 e2 :
  ends_of key (e1 ++ e2) = (ends_of key e1 + ends_of key e2)%nat.
Proof. unfold ends_of. now rewrite filter_app, length_app. Qed.

Lemma step_ends key m c :
  NoDup (map a_id m) ->
  (ends_of key (snd (step m c)) + active key (fst (step m c))
   <= (if starts key c then 1 else 0) + active key m)%nat.
Proof.
  intros Hnd. unfold active.
  destruct c as [now later uuid d|now k|now k]; cbn [step starts].
  - unfold start. destruct (d <=? 0) eqn:Hd; cbn [fst snd ends_of filter].
    + simpl. lia.
    + assert (H0 : (0 <? d) = true) by (apply Z.ltb_lt; apply Z.leb_gt in Hd; lia).
      rewrite H0, andb_true_r.
      set (timer := {| a_id := uuid; a_durationMs := d * 1000;
                       a_startedAt := now; a_endsAt := now + d * 1000 |}).
      assert (Hget : get key (set timer m)
                     = if String.eqb uuid key then Some timer else get key m).
      { destruct (String.eqb_spec uuid key) as [<-|E].
        - apply (get_set_same timer).
        - now apply get_set_other. }
      destruct (snapshotFor later uuid (set timer m)); cbn [fst snd];
        unfold ends_of; cbn [filter List.length]; rewrite Hget;
        destruct (String.eqb uuid key), (get key m); simpl; lia.
  - unfold stop_timer. destruct (get k m) as [timer|] eqn:Hk;
      cbn [fst snd]; unfold ends_of; cbn [filter ends id List.length].
    + rewrite (get_id k m timer Hk).
      destruct (String.eqb_spec k key) as [->|E]; cbn [List.length].
      * rewrite (get_delete_same key m Hnd), Hk. lia.
      * rewrite (get_delete_other key k m E). lia.
    + lia.
  - unfold on_interval, snapshotFor.
    destruct (get k m) as [timer|] eqn:Hk; cbn [fst snd remainingMs].
    + destruct (Z.max (a_endsAt timer - now) 0 <=? 0);
        cbn [fst snd]; unfold ends_of; cbn [filter ends id List.length].
      * rewrite (get_id k m timer Hk).
        destruct (String.eqb_spec k key) as [->|E]; cbn [List.length].
        -- rewrite (get_delete_same key m Hnd), Hk. lia.
        -- rewrite (get_delete_other key k m E). lia.
      * lia.
    + unfold ends_of; cbn [filter List.length]. lia.
Qed.

Lemma run_ends key steps m :
  NoDup (map a_id m) ->
  (ends_of key (snd (run steps m)) + active key (fst (run steps m))
   <= starts_of key steps + active key m)%nat.
Proof.
  revert m. induction steps as [|c rest IH]; intros m Hnd.
  - cbn. lia.
  - cbn [run]. pose proof (step_ends key m c Hnd) as H1.
    pose proof (step_NoDup m c Hnd) as Hnd1.
    destruct (step m c) as [m1 e1]. cbn [fst snd] in *.
    specialize (IH m1 Hnd1).
    destruct (run rest m1) as [m2 e2]. cbn [fst snd] in *.
    rewrite ends_of_app. unfold starts_of in *. cbn [filter].
    destruct (starts key c); cbn [List.length]; lia.
Qed.

(** X20. A timer of the manager ends once: among the events of a manager,
    there are no more [complete] and [stop] events for an id than calls of
    [start] that made a timer of this id, and one less as long as the timer
    is in the map. *)
Theorem timer_ends_once key steps :
  (ends_of key (snd (run steps [])) + active key (fst (run steps []))
   <= starts_of key steps)%nat.
Proof.
  pose proof (run_ends key steps [] (NoDup_nil _)) as H.
  unfold active at 2 in H. cbn [get] in H. lia.
Qed.

(** X21. [list] shows every timer of the map, in the order of the map;
    a timer whose end has passed is shown completed with no time left, also
    when no [complete] event has been emitted for it yet, and every other
    timer running with the time to its end. *)
Theorem list_shows_all now m :
  map id (list_timers now m) = map a_id m /\
  Forall (fun snapshot =>
            (endsAt snapshot <= now ->
             status snapshot = completed /\ remainingMs snapshot = 0) /\
            (now < endsAt snapshot ->
             status snapshot = running /\
             remainingMs snapshot = endsAt snapshot - now))
    (list_timers now m).
Proof.
  unfold list_timers.
  assert (H : forall l,
             (forall x, In x l -> exists y, get (a_id x) m = Some y) ->
             map id (flat_map (fun timer =>
                                 match snapshotFor now (a_id timer) m with
                                 | Some snapshot => [snapshot]
                                 | None => []
                                 end) l) = map a_id l /\
             Forall (fun snapshot =>
                       (endsAt snapshot <= now ->
                        status snapshot = completed /\
                        remainingMs snapshot = 0) /\
                       (now < endsAt snapshot ->
                        status snapshot = running /\
                        remainingMs snapshot = endsAt snapshot - now))
               (flat_map (fun timer =>
                            match snapshotFor now (a_id timer) m with
                            | Some snapshot => [snapshot]
                            | None => []
                            end) l)).
  { induction l as [|x l IH]; intros Hl; [split; constructor|].
    destruct IH as (IH1 & IH2); [intros; apply Hl; now right|].
    destruct (Hl x (or_introl eq_refl)) as (y & Hy).
    cbn [flat_map map]. unfold snapshotFor at 1 3. rewrite Hy.
    cbn [app map id]. rewrite (get_id _ _ _ Hy), IH1.
    split; [reflexivity|]. constructor; [|exact IH2].
    cbn [endsAt status remainingMs]. split; intros Hle.
    - rewrite Z.max_r by lia. split; reflexivity.
    - rewrite Z.max_l by lia.
      destruct (a_endsAt y - now =? 0) eqn:E;
        [apply Z.eqb_eq in E; lia|split; reflexivity]. }
  apply H. intros x Hx. clear H.
  induction m as [|y rest IH]; [destruct Hx|]. cbn [get].
  destruct (String.eqb_spec (a_id y) (a_id x)) as [E|E]; [eauto|].
  destruct Hx as [->|Hx]; [contradiction|]. now apply IH.
Qed.

(** X22. [start] refuses a duration that is not positive.  With a
    positive duration whose end is a valid date it returns the snapshot of
    a timer that is in the map, ends [durationSeconds] after its start, and
    is running unless its end has passed when the snapshot is taken. *)
Theorem start_returns now later uuid durationSeconds m :
  (durationSeconds <= 0 ->
   start now later uuid durationSeconds m = (m, inl DurationNotPositive)) /\
  (0 < durationSeconds ->
   Dates.in_range now = true ->
   Dates.isValid (now + durationSeconds * 1000) = true ->
   exists m' snapshot,
     start now later uuid durationSeconds m = (m', inr snapshot) /\
     snapshotFor later uuid m' = Some snapshot /\
     id snapshot = uuid /\
     durationMs snapshot = durationSeconds * 1000 /\
     startedAt snapshot = now /\
     endsAt snapshot = now + durationSeconds * 1000 /\
     remainingMs snapshot = Z.max (endsAt snapshot - later) 0).
Proof.
  unfold start. split; [intros Hd|intros Hd _ _].
  - apply Z.leb_le in Hd. now rewrite Hd.
  - apply Z.leb_gt in Hd. rewrite Hd.
    pose proof (get_set_same
                  {| a_id := uuid; a_durationMs := durationSeconds * 1000;
                     a_startedAt := now;
                     a_endsAt := now + durationSeconds * 1000 |} m) as G.
    cbn [a_id] in G. unfold snapshotFor. rewrite G.
    eexists _, _. split; [reflexivity|]. rewrite G. repeat split.
Qed.

End Manager.

Lemma start_returns_witness :
  exists m' snapshot,
    TimerManager.start 1000 1200 "a" 90 [] = (m', inr snapshot) /\
    TimerManager.snapshotFor 1200 "a" m' = Some snapshot /\
    TimerManager.endsAt snapshot = 91000 /\
    TimerManager.remainingMs snapshot = 89800.
Proof.
  destruct (start_returns 1000 1200 "a" 90 []) as [_ H].
  destruct H as (m' & snapshot & H1 & H2 & _ & _ & _ & H3 & H4);
    [lia|reflexivity|reflexivity|].
  exists m', snapshot. rewrite H4, H3. repeat split; assumption.
Defined.

Section ServerInput.

Lemma durationNumber_range value d :
  Server.durationNumber value = Some d -> 1 <= d <= 3600.
Proof.
  unfold Server.durationNumber, Server.MAX_DURATION_SECONDS.
  destruct (Qnum value mod Z.pos (Qden value) =? 0); [|discriminate].
  destruct (0 <? Qnum value / Z.pos (Qden value)) eqn:H1; [|discriminate].
  destruct (Qnum value / Z.pos (Qden value) <=? 3600) eqn:H2; [|discriminate].
  cbn [andb]. intros [= <-].
  apply Z.ltb_lt in H1. apply Z.leb_le in H2. lia.
Qed.

(** X23. A duration that the schema of the [timer] tool lets through, a
    number or a text, is a whole number of seconds from 1 to 3600, and the
    manager starts a timer of that length for it. *)
Theorem accepted_duration_starts arg d :
  Server.durationField arg = Some d ->
  1 <= d <= 3600 /\
  forall now later uuid m,
  exists m' snapshot,
    TimerManager.start now later uuid d m = (m', inr snapshot) /\
    TimerManager.durationMs snapshot = d * 1000 /\
    TimerManager.endsAt snapshot - TimerManager.startedAt snapshot = d * 1000.
Proof.
  intros H.
  assert (Hr : 1 <= d <= 3600).
  { destruct arg as [value|value]; cbn [Server.durationField] in H.
    - now apply durationNumber_range in H.
    - destruct (parseDurationSeconds value); [|discriminate].
      now apply durationNumber_range in H. }
  split; [exact Hr|]. intros now later uuid m.
  unfold TimerManager.start.
  destruct (d <=? 0) eqn:E; [apply Z.leb_le in E; lia|].
  pose proof (get_set_same
                {| TimerManager.a_id := uuid;
                   TimerManager.a_durationMs := d * 1000;
                   TimerManager.a_startedAt := now;
                   TimerManager.a_endsAt := now + d * 1000 |} m) as G.
  cbn [TimerManager.a_id] in G. unfold TimerManager.snapshotFor. rewrite G.
  eexists _, _. split; [reflexivity|].
  cbn. split; [reflexivity|lia].
Qed.

Lemma accepted_duration_starts_witness :
  1 <= 90 <= 3600 /\
  forall now later uuid m,
  exists m' snapshot,
    TimerManager.start now later uuid 90 m = (m', inr snapshot) /\
    TimerManager.durationMs snapshot = 90 * 1000 /\
    TimerManager.endsAt snapshot - TimerManager.startedAt snapshot = 90 * 1000.
Proof.
  apply (accepted_duration_starts (Server.StringArg "1m 30s")).
  vm_compute. reflexivity.
Defined.

(** X24. The words [formatDurationFromSeconds] announces a started timer
    with are a duration the tool accepts, for the same number of seconds. *)
Theorem announced_duration_accepted n :
  1 <= n <= 3600 ->
  parseDurationSeconds (Server.formatDurationFromSeconds n) = Seconds n /\
  Server.durationField (Server.StringArg (Server.formatDurationFromSeconds n))
  = Some n.
Proof.
  intros Hn.
  assert (Hp : parseDurationSeconds (Server.formatDurationFromSeconds n)
               = Seconds n).
  { apply formatDurationFromSeconds_parses. lia. }
  split; [exact Hp|].
  cbn [Server.durationField]. rewrite Hp.
  unfold Server.durationNumber, Server.MAX_DURATION_SECONDS, inject_Z.
  cbn [Qnum Qden]. rewrite Z.mod_1_r, Z.div_1_r. cbn [Z.eqb].
  destruct (0 <? n) eqn:H1; [|apply Z.ltb_ge in H1; lia].
  destruct (n <=? 3600) eqn:H2; [|apply Z.leb_gt in H2; lia].
  reflexivity.
Qed.

Lemma announced_duration_accepted_witness :
  parseDurationSeconds (Server.formatDurationFromSeconds 3599) = Seconds 3599 /\
  Server.durationField
    (Server.StringArg (Server.formatDurationFromSeconds 3599)) = Some 3599.
Proof. apply announced_duration_accepted. lia. Defined.

End ServerInput.

(** ** The surfaces and the handlers *)

Section Surfaces.
Import Builders.

Variable iso_text : ISO -> string.

(** X25. The three surfaces offer the same action for a timer: to pause
    it when it is running, to resume it when it is paused, each for the id
    of the timer; for a timer of another status the picture-in-picture
    widget offers nothing and the card offers to open the details. *)
Theorem surfaces_offer_same_action x :
  let card := ic_cta (buildInlineCard iso_text x) in
  let row := row_cta (buildInspectRow iso_text x) in
  let pip := pip_cta (buildPip x) in
  (status x = running ->
   card = pip /\ row = pip /\
   pip = Some {| cta_label := "Pause"; action := pause_timer;
                 timerId := id x |}) /\
  (status x = paused ->
   card = pip /\ row = pip /\
   pip = Some {| cta_label := "Resume"; action := resume_timer;
                 timerId := id x |}) /\
  (status x <> running -> status x <> paused ->
   pip = None /\
   card = Some {| cta_label := "Open details"; action := open_inspect;
                  timerId := id x |} /\
   (row <> None -> status x = completed)).
Proof.
  cbv zeta. unfold buildInlineCard, buildInspectRow, buildPip.
  cbn [ic_cta row_cta pip_cta].
  destruct (status x); repeat split; try discriminate; try congruence.
Qed.

Lemma find_status (p : Timer -> bool) l :
  match find p l with
  | Some x => In x l /\ p x = true
  | None => Forall (fun x => p x = false) l
  end.
Proof.
  induction l as [|a l IH]; cbn [find]; [constructor|].
  destruct (p a) eqn:E.
  - split; [now left|exact E].
  - destruct (find p l) as [x|].
    + split; [now right|apply IH].
    + constructor; [exact E|exact IH].
Qed.

(** The first timer of a list that passes a test. *)
Lemma find_first (p : Timer -> bool) l :
  match find p l with
  | Some x =>
      exists before after,
        l = before ++ x :: after /\ p x = true /\
        Forall (fun y => p y = false) before
  | None => Forall (fun y => p y = false) l
  end.
Proof.
  induction l as [|a l IH]; cbn [find]; [constructor|].
  destruct (p a) eqn:E.
  - exists [], l. split; [reflexivity|]. split; [exact E|constructor].
  - destruct (find p l) as [x|].
    + destruct IH as (before & after & -> & Hx & Hb).
      exists (a :: before), after. split; [reflexivity|].
      split; [exact Hx|]. constructor; [exact E|exact Hb].
    + constructor; [exact E|exact IH].
Qed.

(** X26. Without a timer given for it, the picture-in-picture widget
    shows the first running timer of the list, and the first paused one
    when none is running; it never shows a timer of another status, and
    is left out only when no timer of the list is running or paused. *)
Theorem pip_shows_active input :
  pipTimer input = None ->
  match pictureInPicture (buildTimerStructuredContent iso_text input) with
  | Some widget =>
      exists before x after,
        content_timers input = before ++ x :: after /\
        widget = buildPip x /\
        (status x = running /\
         Forall (fun y => status y <> running) before \/
         status x = paused /\
         Forall (fun y => status y <> paused) before /\
         Forall (fun y => status y <> running) (content_timers input))
  | None =>
      Forall (fun y => status y <> running /\ status y <> paused)
        (content_timers input)
  end.
Proof.
  intros Hnone. unfold buildTimerStructuredContent.
  cbn [pictureInPicture]. unfold pipCandidate. rewrite Hnone.
  pose proof (find_first is_running (content_timers input)) as Hr.
  pose proof (find_first is_paused (content_timers input)) as Hp.
  assert (Hrun : forall y, is_running y = false -> status y <> running).
  { intros y. unfold is_running. destruct (status y); congruence. }
  assert (Hpau : forall y, is_paused y = false -> status y <> paused).
  { intros y. unfold is_paused. destruct (status y); congruence. }
  destruct (find is_running (content_timers input)) as [x|].
  - destruct Hr as (before & after & Heq & Hx & Hb).
    exists before, x, after. split; [exact Heq|]. split; [reflexivity|].
    left. split.
    + unfold is_running in Hx. destruct (status x); congruence.
    + eapply Forall_impl; [|exact Hb]. exact Hrun.
  - destruct (find is_paused (content_timers input)) as [x|].
    + destruct Hp as (before & after & Heq & Hx & Hb).
      exists before, x, after. split; [exact Heq|]. split; [reflexivity|].
      right. split; [|split].
      * unfold is_paused in Hx. destruct (status x); congruence.
      * eapply Forall_impl; [|exact Hb]. exact Hpau.
      * eapply Forall_impl; [|exact Hr]. exact Hrun.
    + rewrite Forall_forall in *. intros y Hy. split; auto.
Qed.

End Surfaces.

Lemma pip_shows_active_witness :
  match Builders.pictureInPicture
          (Builders.buildTimerStructuredContent (fun _ => "t"%string)
             {| Builders.primary := None;
                Builders.content_timers := timers (run late_pause fresh);
                Builders.includeFullscreen := None;
                Builders.pipTimer := None;
                Builders.content_completed := None |}) with
  | Some widget =>
      exists before x after,
        timers (run late_pause fresh) = before ++ x :: after /\
        widget = Builders.buildPip x /\
        (status x = running /\
         Forall (fun y => status y <> running) before \/
         status x = paused /\
         Forall (fun y => status y <> paused) before /\
         Forall (fun y => status y <> running)
           (timers (run late_pause fresh)))
  | None =>
      Forall (fun y => status y <> running /\ status y <> paused)
        (timers (run late_pause fresh))
  end.
Proof.
  apply (pip_shows_active (fun _ => "t"%string)
           {| Builders.primary := None;
              Builders.content_timers := timers (run late_pause fresh);
              Builders.includeFullscreen := None;
              Builders.pipTimer := None;
              Builders.content_completed := None |}).
  reflexivity.
Defined.

Section Handlers.
Import Builders Index.

Variable iso_text : ISO -> string.
Variable uuid_schema : string -> bool.

(** X27. Every result of a tool carries the fullscreen sheet: a handler
    that does not ask for the sheet gets it from [buildCallToolResult]. *)
Theorem every_result_has_sheet tTick c s s' content :
  handle iso_text uuid_schema tTick c s = (s', Ok content) ->
  fullscreen content = Some buildFullscreenSheet.
Proof.
  intros H.
  destruct c; cbn [handle] in H;
    unfold timer_start, timer_pause, timer_resume, timer_cancel,
      timer_adjust, timer_list in H;
    apply bind_Ok in H; destruct H as (s1 & r & _ & H);
    injection H as _ <-; cbn; try reflexivity.
  now destruct (0 <? Z.of_nat (List.length (fst r))).
Qed.

(** What the tools return. *)

Lemma pause_Ok now key s s' res :
  pause now key s = (s', Ok res) -> status res = paused /\ id res = key.
Proof.
  unfold pause, bind, requireTimer.
  destruct (map_get key (timers s)) as [x|] eqn:Hx; [|discriminate].
  destruct (status x); try discriminate. intros [= _ <-].
  split; [reflexivity|]. cbn. eapply map_get_id. exact Hx.
Qed.

Lemma resume_Ok now key s s' res :
  resume now key s = (s', Ok res) -> status res = running /\ id res = key.
Proof.
  unfold resume, bind, requireTimer.
  destruct (map_get key (timers s)) as [x|] eqn:Hx; [|discriminate].
  destruct (status x); try discriminate. intros [= _ <-].
  split; [reflexivity|]. cbn. eapply map_get_id. exact Hx.
Qed.

Lemma cancel_Ok key s s' res :
  cancel key s = (s', Ok res) -> status res = cancelled /\ id res = key.
Proof.
  unfold cancel, bind, requireTimer.
  destruct (map_get key (timers s)) as [x|] eqn:Hx; [|discriminate].
  intros [= _ <-].
  split; [reflexivity|]. cbn. eapply map_get_id. exact Hx.
Qed.

Lemma start_Ok now uuid input s s' res :
  start now uuid input s = (s', Ok res) -> status res = running /\ id res = uuid.
Proof.
  unfold start.
  destruct (Z.of_nat (List.length (getActive s)) >=? maxConcurrent s);
    [discriminate|].
  intros [= _ <-]. split; reflexivity.
Qed.

Lemma status_decorate now x : status (decorateTimer now x) = status x.
Proof. apply decorateTimer_fields. Qed.

Lemma id_decorate now x : id (decorateTimer now x) = id x.
Proof. apply decorateTimer_fields. Qed.

Lemma pauseTimer_Ok tTick tOp tDec key s s' r :
  pauseTimer tTick tOp tDec key s = (s', Ok r) ->
  status (timer r) = paused /\ id (timer r) = key.
Proof.
  intros H. unfold pauseTimer in H.
  apply bind_Ok in H. destruct H as (s1 & done & _ & H).
  apply bind_Ok in H. destruct H as (s2 & res & Hop & H).
  apply bind_Ok in H. destruct H as (s3 & [] & _ & H).
  apply ret_Ok in H. subst r. cbn [timer].
  rewrite status_decorate, id_decorate. eapply pause_Ok. exact Hop.
Qed.

Lemma resumeTimer_Ok tTick tOp tDec key s s' r :
  resumeTimer tTick tOp tDec key s = (s', Ok r) ->
  status (timer r) = running /\ id (timer r) = key.
Proof.
  intros H. unfold resumeTimer in H.
  apply bind_Ok in H. destruct H as (s1 & done & _ & H).
  apply bind_Ok in H. destruct H as (s2 & res & Hop & H).
  apply bind_Ok in H. destruct H as (s3 & [] & _ & H).
  apply ret_Ok in H. subst r. cbn [timer].
  rewrite status_decorate, id_decorate. eapply resume_Ok. exact Hop.
Qed.

Lemma cancelTimer_Ok tTick tDec key s s' r :
  cancelTimer tTick tDec key s = (s', Ok r) ->
  status (timer r) = cancelled /\ id (timer r) = key.
Proof.
  intros H. unfold cancelTimer in H.
  apply bind_Ok in H. destruct H as (s1 & done & _ & H).
  apply bind_Ok in H. destruct H as (s2 & res & Hop & H).
  apply bind_Ok in H. destruct H as (s3 & [] & _ & H).
  apply ret_Ok in H. subst r. cbn [timer].
  rewrite status_decorate, id_decorate. eapply cancel_Ok. exact Hop.
Qed.

Lemma startTimer_Ok tTick tOp tDec uuid a s s' r :
  startTimer tTick tOp tDec uuid a s = (s', Ok r) ->
  status (timer r) = running /\ id (timer r) = uuid.
Proof.
  intros H. unfold startTimer in H.
  apply bind_Ok in H. destruct H as (s1 & done & _ & H).
  apply bind_Ok in H. destruct H as (s2 & parsed & _ & H).
  apply bind_Ok in H. destruct H as (s3 & res & Hop & H).
  apply bind_Ok in H. destruct H as (s4 & [] & _ & H).
  apply ret_Ok in H. subst r. cbn [timer].
  rewrite status_decorate, id_decorate. eapply start_Ok. exact Hop.
Qed.

(** X28. The card of a result offers the next step for the timer of the
    call: to resume it after a pause, to pause it after a start or a
    resume, and to open the details after a cancellation. *)
Theorem card_offers_next_step tTick tOp tDec tSnap key s s' content :
  (timer_pause iso_text tTick tOp tDec tSnap key s = (s', Ok content) ->
   exists card, inlineCard content = Some card /\
     ic_cta card = Some {| cta_label := "Resume"; action := resume_timer;
                           timerId := key |}) /\
  (timer_resume iso_text tTick tOp tDec tSnap key s = (s', Ok content) ->
   exists card, inlineCard content = Some card /\
     ic_cta card = Some {| cta_label := "Pause"; action := pause_timer;
                           timerId := key |}) /\
  (forall input,
   timer_start iso_text tTick tOp tDec tSnap key input s = (s', Ok content) ->
   exists card, inlineCard content = Some card /\
     ic_cta card = Some {| cta_label := "Pause"; action := pause_timer;
                           timerId := key |}) /\
  (timer_cancel iso_text tTick tDec tSnap key s = (s', Ok content) ->
   exists card, inlineCard content = Some card /\
     ic_cta card = Some {| cta_label := "Open details";
                           action := open_inspect; timerId := key |}).
Proof.
  repeat split; [intros H|intros H|intros input H|intros H];
    unfold timer_pause, timer_resume, timer_start, timer_cancel in H;
    apply bind_Ok in H; destruct H as (s1 & r & Hr & H);
    injection H as _ <-; cbn [buildCallToolResult inlineCard
      buildTimerStructuredContent primary];
    eexists; (split; [reflexivity|]);
    unfold buildInlineCard; cbn [ic_cta].
  - apply pauseTimer_Ok in Hr. destruct Hr as [-> ->]. reflexivity.
  - apply resumeTimer_Ok in Hr. destruct Hr as [-> ->]. reflexivity.
  - apply startTimer_Ok in Hr. destruct Hr as [-> ->]. reflexivity.
  - apply cancelTimer_Ok in Hr. destruct Hr as [-> ->]. reflexivity.
Qed.

(** X29. After a pause the picture-in-picture widget is there, with a
    running timer if the snapshot has one and with a paused timer if not;
    after a start or a resume it shows the timer of the call, running. *)
Theorem pip_after_call tTick tOp tDec tSnap key s s' content :
  (timer_pause iso_text tTick tOp tDec tSnap key s = (s', Ok content) ->
   exists x, In x (getSnapshot tSnap s') /\
     pictureInPicture content = Some (buildPip x) /\
     (status x = running \/
      status x = paused /\
      Forall (fun y => status y <> running) (getSnapshot tSnap s'))) /\
  (timer_resume iso_text tTick tOp tDec tSnap key s = (s', Ok content) ->
   exists x, pictureInPicture content = Some (buildPip x) /\
     status x = running /\ id x = key) /\
  (forall input,
   timer_start iso_text tTick tOp tDec tSnap key input s = (s', Ok content) ->
   exists x, pictureInPicture content = Some (buildPip x) /\
     status x = running /\ id x = key).
Proof.
  repeat split; [intros H|intros H|intros input H];
    unfold timer_pause, timer_resume, timer_start in H;
    apply bind_Ok in H; destruct H as (s1 & r & Hr & H);
    injection H as <- <-; cbn [buildCallToolResult pictureInPicture
      buildTimerStructuredContent]; unfold pipCandidate;
    cbn [pipTimer content_timers].
  - pose proof (pauseTimer_Ok _ _ _ _ _ _ _ Hr) as [Hst Hid].
    apply pauseTimer_result in Hr. destruct Hr as (_ & x0 & Hin & Heq).
    assert (Hsnap : In (decorateTimer tSnap x0) (getSnapshot tSnap s1)).
    { apply In_getSnapshot. eauto. }
    assert (Hp0 : is_paused (decorateTimer tSnap x0) = true).
    { unfold is_paused. rewrite status_decorate.
      rewrite Heq, status_decorate in Hst. now rewrite Hst. }
    pose proof (find_status is_running (getSnapshot tSnap s1)) as Hfr.
    pose proof (find_status is_paused (getSnapshot tSnap s1)) as Hfp.
    destruct (find is_running (getSnapshot tSnap s1)) as [x|].
    + destruct Hfr as [Hx1 Hx2]. exists x. split; [exact Hx1|].
      split; [reflexivity|]. left.
      unfold is_running in Hx2. destruct (status x); congruence.
    + destruct (find is_paused (getSnapshot tSnap s1)) as [x|].
      * destruct Hfp as [Hx1 Hx2]. exists x. split; [exact Hx1|].
        split; [reflexivity|]. right. split.
        -- unfold is_paused in Hx2. destruct (status x); congruence.
        -- eapply Forall_impl; [|exact Hfr]. intros y Hy.
           unfold is_running in Hy. destruct (status y); congruence.
      * rewrite Forall_forall in Hfp. specialize (Hfp _ Hsnap). congruence.
  - apply resumeTimer_Ok in Hr. destruct Hr as [Hst Hid].
    exists (timer r). now split.
  - apply startTimer_Ok in Hr. destruct Hr as [Hst Hid].
    exists (timer r). unfold is_running. rewrite Hst. now split.
Qed.

(** The completed timers of the results of the tools are completed and
    have the time of their completion. *)

Lemma finish_dated now x :
  status (finish now x) = completed /\ endsAt (finish now x) <> None.
Proof. split; [reflexivity|discriminate]. Qed.

Lemma tick_dated tTick tDec s s1 done :
  handleTick tTick tDec s = (s1, Ok done) ->
  Forall (fun x => status x = completed /\ endsAt x <> None) done.
Proof.
  intros H. apply handleTick_Ok in H. subst done.
  apply Forall_forall. intros x Hx. apply in_map_iff in Hx.
  destruct Hx as (y & <- & _). apply finish_dated.
Qed.

Lemma extended_dated now extraMs x :
  status x = running \/ status x = paused ->
  status (extended_by now extraMs x) = completed ->
  endsAt (extended_by now extraMs x) <> None.
Proof.
  intros Hact. unfold extended_by.
  destruct (Z.max (current_remaining now x + extraMs) 0 =? 0);
    [discriminate|].
  destruct Hact as [E|E]; rewrite E; cbn; congruence.
Qed.

Lemma merge_dated done candidate :
  Forall (fun x => status x = completed /\ endsAt x <> None) done ->
  (status candidate = completed -> endsAt candidate <> None) ->
  Forall (fun x => status x = completed /\ endsAt x <> None)
    (mergeCompleted done candidate).
Proof.
  intros Hd Hc. unfold mergeCompleted.
  destruct (status candidate) eqn:E; try exact Hd.
  destruct (existsb _ done); [exact Hd|].
  apply Forall_app. split; [exact Hd|]. constructor; [|constructor].
  split; [exact E|]. now apply Hc.
Qed.

Lemma completed_of_dated tTick c s s' (r : list Timer) :
  completed_list uuid_schema tTick c s = (s', Ok r) ->
  Forall (fun x => status x = completed /\ endsAt x <> None) r.
Proof.
  intros H.
  destruct c as [tDec|tOp tDec uuid input|tOp tDec key|tOp tDec key
                |tDec key|tOp tDec input];
    cbn [completed_list] in H;
    apply bind_Ok in H; destruct H as (s0 & r0 & H & Hret);
    apply ret_Ok in Hret; subst r.
  - unfold listTimers in H. apply bind_Ok in H.
    destruct H as (s1 & done & Htick & H). injection H as _ <-.
    cbn [snd]. eapply tick_dated. exact Htick.
  - unfold startTimer in H.
    apply bind_Ok in H. destruct H as (s1 & done & Htick & H).
    apply bind_Ok in H. destruct H as (s2 & parsed & _ & H).
    apply bind_Ok in H. destruct H as (s3 & res & Hop & H).
    apply bind_Ok in H. destruct H as (s4 & [] & _ & H).
    apply ret_Ok in H. subst r0. cbn [completed_of].
    apply merge_dated; [eapply tick_dated; exact Htick|].
    rewrite status_decorate. apply start_Ok in Hop.
    destruct Hop as [-> _]. discriminate.
  - unfold pauseTimer in H.
    apply bind_Ok in H. destruct H as (s1 & done & Htick & H).
    apply bind_Ok in H. destruct H as (s3 & res & Hop & H).
    apply bind_Ok in H. destruct H as (s4 & [] & _ & H).
    apply ret_Ok in H. subst r0. cbn [completed_of].
    eapply tick_dated. exact Htick.
  - unfold resumeTimer in H.
    apply bind_Ok in H. destruct H as (s1 & done & Htick & H).
    apply bind_Ok in H. destruct H as (s3 & res & Hop & H).
    apply bind_Ok in H. destruct H as (s4 & [] & _ & H).
    apply ret_Ok in H. subst r0. cbn [completed_of].
    eapply tick_dated. exact Htick.
  - unfold cancelTimer in H.
    apply bind_Ok in H. destruct H as (s1 & done & Htick & H).
    apply bind_Ok in H. destruct H as (s3 & res & Hop & H).
    apply bind_Ok in H. destruct H as (s4 & [] & _ & H).
    apply ret_Ok in H. subst r0. cbn [completed_of].
    eapply tick_dated. exact Htick.
  - unfold extendTimer in H.
    apply bind_Ok in H. destruct H as (s1 & done & Htick & H).
    apply bind_Ok in H. destruct H as (s2 & parsed & _ & H).
    apply bind_Ok in H. destruct H as (s3 & res & Hop & H).
    apply bind_Ok in H. destruct H as (s4 & [] & _ & H).
    apply ret_Ok in H. subst r0. cbn [completed_of].
    apply merge_dated; [eapply tick_dated; exact Htick|].
    rewrite status_decorate.
    destruct (decorateTimer_fields tDec res) as (_ & -> & _).
    unfold extend, bind, requireTimer in Hop.
    destruct (map_get (fst parsed) (timers s2)) as [x|]; [|discriminate].
    destruct (status x) eqn:E; try discriminate;
      injection Hop as _ <-; apply extended_dated; auto.
Qed.

(** X30. A completed timer of a result has the time of its completion:
    every entry of the completed list that a tool returns carries its
    [completedAt], and the list is left out when it would be empty. *)
Theorem completed_entries_dated tTick c s s' content :
  handle iso_text uuid_schema tTick c s = (s', Ok content) ->
  match completed_entries content with
  | Some entries =>
      entries <> [] /\
      Forall (fun entry => completedAt entry <> None) entries
  | None => True
  end.
Proof.
  intros H.
  assert (Hbuild : forall p l f pt (done : list Timer),
            Forall (fun x => status x = completed /\ endsAt x <> None) done ->
            match completed_entries
                    (buildCallToolResult
                       (buildTimerStructuredContent iso_text
                          {| primary := p; content_timers := l;
                             includeFullscreen := f; pipTimer := pt;
                             content_completed := Some done |})) with
            | Some entries =>
                entries <> [] /\
                Forall (fun entry => completedAt entry <> None) entries
            | None => True
            end).
  { intros p l f pt done Hd. cbn. destruct done as [|x done]; [exact I|].
    split; [discriminate|]. rewrite Forall_map. cbn [completedAt].
    eapply Forall_impl; [|exact Hd]. now intros y [_ Hy]. }
  destruct c as [tOp tDec tSnap uuid input|tOp tDec tSnap key
                |tOp tDec tSnap key|tDec tSnap key|tOp tDec tSnap input
                |tDec];
    cbn [handle] in H;
    unfold timer_start, timer_pause, timer_resume, timer_cancel,
      timer_adjust, timer_list in H;
    apply bind_Ok in H; destruct H as (s1 & r & Hr & H);
    injection H as _ <-; apply Hbuild.
  - apply (completed_of_dated tTick (CallStart tOp tDec uuid input) s s1).
    cbn [completed_list]. unfold bind at 1. now rewrite Hr.
  - apply (completed_of_dated tTick (CallPause tOp tDec key) s s1).
    cbn [completed_list]. unfold bind at 1. now rewrite Hr.
  - apply (completed_of_dated tTick (CallResume tOp tDec key) s s1).
    cbn [completed_list]. unfold bind at 1. now rewrite Hr.
  - apply (completed_of_dated tTick (CallCancel tDec key) s s1).
    cbn [completed_list]. unfold bind at 1. now rewrite Hr.
  - apply (completed_of_dated tTick (CallExtend tOp tDec input) s s1).
    cbn [completed_list]. unfold bind at 1. now rewrite Hr.
  - apply (completed_of_dated tTick (CallList tDec) s s1).
    cbn [completed_list]. unfold bind at 1. now rewrite Hr.
Qed.

End Handlers.

Lemma completed_entries_dated_witness :
  exists s' content,
    Index.handle (fun _ => "t"%string) (fun _ => true) 5000
      (Index.ToolList 5000) (run one_second fresh) = (s', Ok content) /\
    match Builders.completed_entries content with
    | Some entries =>
        entries <> [] /\
        Forall (fun entry => Builders.completedAt entry <> None) entries
    | None => True
    end.
Proof.
  eexists _, _. split; [vm_compute; reflexivity|].
  eapply (completed_entries_dated (fun _ => "t"%string) (fun _ => true) 5000
            (Index.ToolList 5000) (run one_second fresh)).
  vm_compute. reflexivity.
Defined.

Lemma every_result_has_sheet_witness :
  exists content : Builders.TimerStructuredContent,
    Builders.fullscreen content = Some Builders.buildFullscreenSheet.
Proof.
  eexists.
  eapply (every_result_has_sheet (fun _ => "t"%string) (fun _ => true) 0
            (Index.ToolPause 1000 1000 1000 "a")
            (run one_minute fresh)).
  vm_compute. reflexivity.
Defined.
